(** * kubectl-plugin/pkg/cmd/job/job_submit.go: the [kubectl ray job submit] command

    A shallow embedding of [SubmitJobOptions.Validate], [SubmitJobOptions.Run],
    [SubmitJobOptions.raySubmitCmd], [runtimeEnvHasWorkingDir] and
    [isRayClusterReady], and the properties of the submission sequence that
    are settled against them.

    Conventions of the embedding.
    - A Go [string] is a [string] of bytes.  Every character the code looks
      at (the single quote, the marker [raysubmit], the shell
      metacharacters) is ASCII, and no byte of a multi-byte UTF-8 sequence is
      ASCII, so scanning bytes and scanning runes agree.
    - [interface{}] is the inductive [value]; [map[string]interface{}] is
      [gmap string value]; [map[string]string] is [gmap string string].
    - A Go [error] is the inductive [error]: [errors.New] and
      [fmt.Errorf] with a [%w] verb.
    - A function that can return an error, panic, block for ever or call a
      loop is a computation in the monad [M]; what it does to the outside
      world is the list of [Event]s it leaves in the state. *)

From Stdlib Require Import ZArith NArith Ascii String List Bool Lia DecimalString.
From stdpp Require Import base gmap strings list fin_maps option.

Set Warnings "-register-all".
Local Open Scope Z_scope.

(* ===================================================================== *)
(** * Strings *)
(* ===================================================================== *)

Module Strings.

(** [strings.HasPrefix(s, prefix)] *)
Fixpoint HasPrefix (s prefix : string) {struct prefix} : bool :=
  match prefix, s with
  | EmptyString, _ => true
  | String a p', String b s' => Ascii.eqb a b && HasPrefix s' p'
  | String _ _, EmptyString => false
  end.

(** [strings.Contains(s, substr)] *)
Fixpoint Contains (s substr : string) : bool :=
  HasPrefix s substr ||
  match s with
  | EmptyString => false
  | String _ s' => Contains s' substr
  end.

(** [strings.Join(elems, sep)] *)
Fixpoint Join (elems : list string) (sep : string) : string :=
  match elems with
  | [] => EmptyString
  | [e] => e
  | e :: rest => e +:+ sep +:+ Join rest sep
  end.

(** [len(s) > 0], that is, [s] is not the empty string *)
Definition nonEmpty (s : string) : bool :=
  match s with EmptyString => false | String _ _ => true end.

(** The characters of [s] all differ from [c]. *)
Fixpoint free_of (c : ascii) (s : string) : Prop :=
  match s with
  | EmptyString => True
  | String x s' => x ≠ c ∧ free_of c s'
  end.

End Strings.
Import Strings.

(* ===================================================================== *)
(** * Errors and dynamically typed values *)
(* ===================================================================== *)

(** A Go [error] value: [New msg] is [errors.New(msg)] (or an error of a
    library, with that text); [Wrap prefix cause] is
    [fmt.Errorf(prefix + "%w", cause)]. *)
Inductive error : Type :=
| New (msg : string)
| Wrap (prefix : string) (cause : error).

(** [err.Error()] *)
Fixpoint Error (e : error) : string :=
  match e with
  | New msg => msg
  | Wrap prefix cause => prefix +:+ Error cause
  end.

(** [metav1.Condition], the two fields [IsStatusConditionTrue] reads. *)
Record Condition : Type := mkCondition {
  Type_ : string;
  Status : string
}.

(** A value held in an [interface{}].  [VSlice] is [[]interface{}], which is
    what a JSON or YAML array decodes to; [VConditions] is the Go type
    [[]metav1.Condition], which only code that builds the object by hand can
    store. *)
Inductive value : Type :=
| VNil
| VBool (b : bool)
| VInt (z : Z)
| VString (s : string)
| VMap (m : gmap string value)
| VSlice (l : list value)
| VConditions (l : list Condition).

(** [unstructured.Unstructured]: its one field, [Object]. *)
Record Unstructured : Type := mkUnstructured {
  Object : gmap string value
}.

(** [m[key]] on a [map[string]interface{}]: a missing key reads as [nil]. *)
Definition valueAt (m : gmap string value) (key : string) : value :=
  default VNil (m !! key).

(* ===================================================================== *)
(** * The regular expression of the job identifier *)
(* ===================================================================== *)

Module Regexp.

(** The fragment of Go's regexp syntax that the pattern of [Run] uses. *)
Inductive item : Type :=
| Chr (c : ascii)        (* a literal character *)
| NotStar (c : ascii)    (* [^c]*, greedy *)
| Open                   (* the opening parenthesis of the capture group *)
| Close.                 (* its closing parenthesis *)

(** A literal string in a pattern. *)
Fixpoint lit (s : string) : list item :=
  match s with
  | EmptyString => []
  | String c s' => Chr c :: lit s'
  end.

(** A character consumed inside the group joins the captured text. *)
Definition push (grp : bool) (acc : string) (c : ascii) : string :=
  if grp then acc +:+ String c EmptyString else acc.

(** Match pattern [p] at the start of [s], preferring the longer repetition
    and backtracking to shorter ones (Go finds the match a backtracking
    search finds first).  [grp] says whether the group is open, [acc] is
    the text captured so far; the result is the text of the group. *)
Fixpoint match_here (p : list item) (grp : bool) (acc : string) (s : string)
  : option string :=
  match p with
  | [] => Some acc
  | Open :: p' => match_here p' true EmptyString s
  | Close :: p' => match_here p' false acc s
  | Chr c :: p' =>
      match s with
      | String x s' =>
          if Ascii.eqb x c then match_here p' grp (push grp acc x) s' else None
      | EmptyString => None
      end
  | NotStar c :: p' =>
      (fix star (acc : string) (s : string) {struct s} : option string :=
         match s with
         | String x s' =>
             if Ascii.eqb x c then match_here p' grp acc s
             else match star (push grp acc x) s' with
                  | Some r => Some r
                  | None => match_here p' grp acc s
                  end
         | EmptyString => match_here p' grp acc s
         end) acc s
  end.

(** [re.FindStringSubmatch(s)] for a pattern with one group, reduced to the
    text of the group ([match[1]]): the leftmost start at which the pattern
    matches.  [None] is the nil slice. *)
Fixpoint FindStringSubmatch (p : list item) (s : string) : option string :=
  match match_here p false EmptyString s with
  | Some cap => Some cap
  | None =>
      match s with
      | String _ s' => FindStringSubmatch p s'
      | EmptyString => None
      end
  end.

(** The captured text after the characters of [a] are consumed. *)
Fixpoint pushes (grp : bool) (acc a : string) : string :=
  match a with
  | EmptyString => acc
  | String x a' => pushes grp (push grp acc x) a'
  end.

(** What it means for [p] to match at the start of [s] with group text
    [cap], stated without a search order. *)
Inductive Matches : list item → bool → string → string → string → Prop :=
| M_nil grp acc s :
    Matches [] grp acc s acc
| M_open p grp acc s cap :
    Matches p true EmptyString s cap → Matches (Open :: p) grp acc s cap
| M_close p grp acc s cap :
    Matches p false acc s cap → Matches (Close :: p) grp acc s cap
| M_chr c p grp acc s cap :
    Matches p grp (push grp acc c) s cap →
    Matches (Chr c :: p) grp acc (String c s) cap
| M_star_stop c p grp acc s cap :
    Matches p grp acc s cap → Matches (NotStar c :: p) grp acc s cap
| M_star_step c x p grp acc s cap :
    x ≠ c →
    Matches (NotStar c :: p) grp (push grp acc x) s cap →
    Matches (NotStar c :: p) grp acc (String x s) cap.

End Regexp.

(** The marker of a job identifier in the output of [ray job submit]. *)
Definition marker : string := "raysubmit".

(** The pattern that [Run] compiles with [regexp.MustCompile]: a single
    quote, a group of [[^']*], the marker and [[^']*] again, a single quote. *)
Definition regexExp : list Regexp.item :=
  [Regexp.Chr "'"; Regexp.Open; Regexp.NotStar "'"]
  ++ Regexp.lit marker
  ++ [Regexp.NotStar "'"; Regexp.Close; Regexp.Chr "'"].

(* ===================================================================== *)
(** * The correlation of the job identifier *)
(* ===================================================================== *)

(** Lines 380-387: what the goroutine that reads stdout sends on
    [rayJobIDChan] for the token [currStdToken] when it reads [rayJobID]
    from the shared variable; [None] when it sends nothing.  The match has
    two elements whenever it is not nil, and [match[1]] is the group. *)
Definition sends (rayJobID currStdToken : string) : option string :=
  if nonEmpty currStdToken && negb (nonEmpty rayJobID) && Contains currStdToken marker
  then Regexp.FindStringSubmatch regexExp currStdToken
  else None.

(** The tokens the goroutine sees: [Text()] before the first [Scan] is the
    empty string, then come the lines. *)
Definition tokens (lines : list string) : list string := EmptyString :: lines.

(** The first value the goroutine sends while [rayJobID] is still empty. *)
Fixpoint firstSend (toks : list string) : option string :=
  match toks with
  | [] => None
  | t :: rest =>
      match sends EmptyString t with
      | Some v => Some v
      | None => firstSend rest
      end
  end.

Module Correlator.

(** Where the goroutine of lines 376-396 stands. *)
Inductive scanner : Type :=
| AtToken (currStdToken : string) (rest : list string)   (* at the test of line 380 *)
| Sending (v currStdToken : string) (rest : list string) (* blocked in the send of line 385 *)
| Echo (currStdToken : string) (rest : list string)      (* at line 388, before the next Scan *)
| Finished.                                              (* Scan has returned false *)

(** Where the main flow stands in lines 411-413. *)
Inductive mainflow : Type :=
| Checking                 (* at the test of [rayJobID] against the empty string *)
| Receiving                (* blocked in the receive *)
| Storing (v : string)     (* has received [v], has not assigned it yet *)
| Populated.               (* past line 413 *)

(** The two flows, the variable [rayJobID] they share without
    synchronization, the values handed over the unbuffered channel so far
    and the lines echoed so far. *)
Record state : Type := mkSt {
  scan : scanner;
  main : mainflow;
  rayJobID : string;
  delivered : list string;
  echoed : list string
}.

Definition echo (t : string) (out : list string) : list string :=
  if nonEmpty t then out ++ [t] else out.

(** One step of either flow.  A send and a receive on the unbuffered
    channel complete together. *)
Inductive step : state → state → Prop :=
| step_send t rest m id d e v :
    sends id t = Some v →
    step (mkSt (AtToken t rest) m id d e) (mkSt (Sending v t rest) m id d e)
| step_skip t rest m id d e :
    sends id t = None →
    step (mkSt (AtToken t rest) m id d e) (mkSt (Echo t rest) m id d e)
| step_handoff v t rest id d e :
    step (mkSt (Sending v t rest) Receiving id d e)
         (mkSt (Echo t rest) (Storing v) id (d ++ [v]) e)
| step_scan t l rest m id d e :
    step (mkSt (Echo t (l :: rest)) m id d e) (mkSt (AtToken l rest) m id d (echo t e))
| step_eof t m id d e :
    step (mkSt (Echo t []) m id d e) (mkSt Finished m id d (echo t e))
| step_check_empty sc d e :
    step (mkSt sc Checking EmptyString d e) (mkSt sc Receiving EmptyString d e)
| step_check_set sc id d e :
    id ≠ EmptyString →
    step (mkSt sc Checking id d e) (mkSt sc Populated id d e)
| step_store sc v id d e :
    step (mkSt sc (Storing v) id d e) (mkSt sc Populated v d e).

(** The state in which the goroutines start: [rayJobID] holds the
    submission ID of the options. *)
Definition init (submissionID : string) (lines : list string) : state :=
  match tokens lines with
  | t :: rest => mkSt (AtToken t rest) Checking submissionID [] []
  | [] => mkSt Finished Checking submissionID [] []
  end.

Definition reachable (submissionID : string) (lines : list string) (st : state) : Prop :=
  rtc step (init submissionID lines) st.

(** What holds of every state the two flows reach from [lines] without a
    submission ID: as long as nothing was handed over, the goroutine has
    passed no token that sends; afterwards, the one value handed over is
    the first send, and the main flow holds it. *)
Definition inv (lines : list string) (st : state) : Prop :=
  (delivered st = [] ∧ rayJobID st = EmptyString ∧
   (main st = Checking ∨ main st = Receiving) ∧
   match scan st with
   | AtToken t rest => firstSend (tokens lines) = firstSend (t :: rest)
   | Sending v t rest => firstSend (tokens lines) = Some v
   | Echo t rest => firstSend (tokens lines) = firstSend rest
   | Finished => firstSend (tokens lines) = None
   end)
  ∨
  (∃ v, delivered st = [v] ∧ firstSend (tokens lines) = Some v ∧
        ((main st = Storing v ∧ rayJobID st = EmptyString) ∨
         (main st = Populated ∧ rayJobID st = v))).

End Correlator.

(* ===================================================================== *)
(** * github.com/google/shlex *)
(* ===================================================================== *)

Module shlex.

(** The classes of [ClassifyRune] with the default classifier. *)
Inductive runeTokenClass : Type :=
| unknownRuneClass
| spaceRuneClass
| escapingQuoteRuneClass
| nonEscapingQuoteRuneClass
| escapeRuneClass
| commentRuneClass.

Definition ClassifyRune (c : ascii) : runeTokenClass :=
  if (Ascii.eqb c " " || Ascii.eqb c "009" || Ascii.eqb c "013" || Ascii.eqb c "010")%bool
  then spaceRuneClass
  else if Ascii.eqb c "034" then escapingQuoteRuneClass
  else if Ascii.eqb c "'" then nonEscapingQuoteRuneClass
  else if Ascii.eqb c "\" then escapeRuneClass
  else if Ascii.eqb c "#" then commentRuneClass
  else unknownRuneClass.

Inductive TokenType : Type := WordToken | CommentToken.

Inductive lexerState : Type :=
| startState             (* no runes have been seen *)
| inWordState            (* processing regular runes in a word *)
| escapingState          (* just consumed an escape rune *)
| escapingQuotedState    (* just consumed an escape rune within double quotes *)
| quotingEscapingState   (* within double quotes *)
| quotingState           (* within single quotes *)
| commentState.          (* within a comment *)

(** A finished token joins the words unless it is a comment, which
    [Lexer.Next] skips. *)
Definition emit (ty : TokenType) (v : string)
  (rest : list string * option error) : list string * option error :=
  match ty with
  | WordToken => (v :: fst rest, snd rest)
  | CommentToken => rest
  end.

Definition snoc (v : string) (c : ascii) : string := v +:+ String c EmptyString.

(** Modelled from the spec: [shlex.Split] belongs to the library
    github.com/google/shlex, which is not part of the repository; the spec
    only says that it tokenizes by shell quoting rules and fails on
    malformed quoting.  This is the library's state machine
    ([Tokenizer.scanStream]) run over the whole input, as the loops of
    [Split] and [Lexer.Next] drive it: [st], [ty] and [v] are the state, the
    token type and the value of the token being read; the end of the string
    is the class [eofRuneClass].  The result is what [Split] returns: the
    words read so far and the error, if any. *)
Fixpoint scan (st : lexerState) (ty : TokenType) (v : string) (input : string)
  : list string * option error :=
  match input with
  | EmptyString =>
      match st with
      | startState => ([], None)
      | inWordState | commentState => emit ty v ([], None)
      | escapingState | escapingQuotedState =>
          ([], Some (New "EOF found after escape character"))
      | quotingEscapingState | quotingState =>
          ([], Some (New "EOF found when expecting closing quote"))
      end
  | String c rest =>
      match st with
      | startState =>
          match ClassifyRune c with
          | spaceRuneClass => scan startState ty v rest
          | escapingQuoteRuneClass => scan quotingEscapingState WordToken EmptyString rest
          | nonEscapingQuoteRuneClass => scan quotingState WordToken EmptyString rest
          | escapeRuneClass => scan escapingState WordToken EmptyString rest
          | commentRuneClass => scan commentState CommentToken EmptyString rest
          | unknownRuneClass => scan inWordState WordToken (snoc EmptyString c) rest
          end
      | inWordState =>
          match ClassifyRune c with
          | spaceRuneClass => emit ty v (scan startState ty EmptyString rest)
          | escapingQuoteRuneClass => scan quotingEscapingState ty v rest
          | nonEscapingQuoteRuneClass => scan quotingState ty v rest
          | escapeRuneClass => scan escapingState ty v rest
          | _ => scan inWordState ty (snoc v c) rest
          end
      | escapingState => scan inWordState ty (snoc v c) rest
      | escapingQuotedState => scan quotingEscapingState ty (snoc v c) rest
      | quotingEscapingState =>
          match ClassifyRune c with
          | escapingQuoteRuneClass => scan inWordState ty v rest
          | escapeRuneClass => scan escapingQuotedState ty v rest
          | _ => scan quotingEscapingState ty (snoc v c) rest
          end
      | quotingState =>
          match ClassifyRune c with
          | nonEscapingQuoteRuneClass => scan inWordState ty v rest
          | _ => scan quotingState ty (snoc v c) rest
          end
      | commentState =>
          match ClassifyRune c with
          | spaceRuneClass =>
              if Ascii.eqb c "010" then emit ty v (scan startState ty EmptyString rest)
              else scan commentState ty (snoc v c) rest
          | _ => scan commentState ty (snoc v c) rest
          end
      end
  end.

(** [shlex.Split(s)] *)
Definition Split (s : string) : list string * option error :=
  scan startState WordToken EmptyString s.

(** The argument [w] written between single quotes. *)
Definition quoted (w : string) : string := "'" +:+ w +:+ "'".

End shlex.

(* ===================================================================== *)
(** * Options, the outside world and the monad of the methods *)
(* ===================================================================== *)

(** What the code needs of a [float32]: the comparison with zero and
    [fmt.Sprintf("%f", x)]. *)
Class Float32 (F : Type) : Type := {
  f32_gt_zero : F → bool;
  f32_format : F → string
}.

(** [fmt.Sprintf("%d", n)] *)
Definition format_int (n : Z) : string := NilZero.string_of_int (Z.to_int n).

Definition dashboardAddr : string := "http://localhost:8265".

(** Durations are whole nanoseconds, as in [time.Duration]. *)
Definition Second : Z := 1000000000.

(** [clusterTimeout = 120.0] and [portforwardtimeout = 60.0], in seconds. *)
Definition clusterTimeout : Z := 120.
Definition portforwardtimeout : Z := 60.

(** The interval of both polling loops: [time.Sleep(2 * time.Second)]. *)
Definition pollInterval : Z := 2 * Second.

(** [d.Seconds() <= t] for a duration [d] and a whole number [t] of
    seconds.  [Seconds] returns a [float64]; for durations of this size the
    conversion is monotone and exact enough that the comparison is the
    comparison of the nanosecond counts. *)
Definition Seconds_le (d t : Z) : bool := d <=? t * Second.

(** The key of the annotation that records the job identifier. *)
Definition submissionIdKey : string := "ray.io/ray-job-submission-id".

Section Options.
Context {F : Type} `{Float32 F}.

(** [SubmitJobOptions].  [Namespace] is [*configFlags.Namespace]; a nil
    [RayJob] is [None]. *)
Record SubmitJobOptions : Type := mkOptions {
  Namespace : string;
  RayJob : option Unstructured;
  submissionID : string;
  entryPoint : string;
  fileName : string;
  workingDir : string;
  runtimeEnv : string;
  headers : string;
  verify : string;
  cluster : string;
  runtimeEnvJson : string;
  entryPointResource : string;
  metadataJson : string;
  logStyle : string;
  logColor : string;
  entryPointCPU : F;
  entryPointGPU : F;
  entryPointMemory : Z;
  noWait : bool
}.

Definition set_Namespace (v : string) (o : SubmitJobOptions) : SubmitJobOptions :=
  mkOptions v (RayJob o) (submissionID o) (entryPoint o) (fileName o)
    (workingDir o) (runtimeEnv o) (headers o) (verify o) (cluster o)
    (runtimeEnvJson o) (entryPointResource o) (metadataJson o) (logStyle o)
    (logColor o) (entryPointCPU o) (entryPointGPU o) (entryPointMemory o) (noWait o).

Definition set_RayJob (v : option Unstructured) (o : SubmitJobOptions) : SubmitJobOptions :=
  mkOptions (Namespace o) v (submissionID o) (entryPoint o) (fileName o)
    (workingDir o) (runtimeEnv o) (headers o) (verify o) (cluster o)
    (runtimeEnvJson o) (entryPointResource o) (metadataJson o) (logStyle o)
    (logColor o) (entryPointCPU o) (entryPointGPU o) (entryPointMemory o) (noWait o).

Definition set_fileName (v : string) (o : SubmitJobOptions) : SubmitJobOptions :=
  mkOptions (Namespace o) (RayJob o) (submissionID o) (entryPoint o) v
    (workingDir o) (runtimeEnv o) (headers o) (verify o) (cluster o)
    (runtimeEnvJson o) (entryPointResource o) (metadataJson o) (logStyle o)
    (logColor o) (entryPointCPU o) (entryPointGPU o) (entryPointMemory o) (noWait o).

Definition set_workingDir (v : string) (o : SubmitJobOptions) : SubmitJobOptions :=
  mkOptions (Namespace o) (RayJob o) (submissionID o) (entryPoint o) (fileName o)
    v (runtimeEnv o) (headers o) (verify o) (cluster o)
    (runtimeEnvJson o) (entryPointResource o) (metadataJson o) (logStyle o)
    (logColor o) (entryPointCPU o) (entryPointGPU o) (entryPointMemory o) (noWait o).

Definition set_runtimeEnv (v : string) (o : SubmitJobOptions) : SubmitJobOptions :=
  mkOptions (Namespace o) (RayJob o) (submissionID o) (entryPoint o) (fileName o)
    (workingDir o) v (headers o) (verify o) (cluster o)
    (runtimeEnvJson o) (entryPointResource o) (metadataJson o) (logStyle o)
    (logColor o) (entryPointCPU o) (entryPointGPU o) (entryPointMemory o) (noWait o).

Definition set_cluster (v : string) (o : SubmitJobOptions) : SubmitJobOptions :=
  mkOptions (Namespace o) (RayJob o) (submissionID o) (entryPoint o) (fileName o)
    (workingDir o) (runtimeEnv o) (headers o) (verify o) v
    (runtimeEnvJson o) (entryPointResource o) (metadataJson o) (logStyle o)
    (logColor o) (entryPointCPU o) (entryPointGPU o) (entryPointMemory o) (noWait o).

Definition set_runtimeEnvJson (v : string) (o : SubmitJobOptions) : SubmitJobOptions :=
  mkOptions (Namespace o) (RayJob o) (submissionID o) (entryPoint o) (fileName o)
    (workingDir o) (runtimeEnv o) (headers o) (verify o) (cluster o)
    v (entryPointResource o) (metadataJson o) (logStyle o)
    (logColor o) (entryPointCPU o) (entryPointGPU o) (entryPointMemory o) (noWait o).

(** The result of [os.Stat]: an error for which [os.IsNotExist] holds,
    another error, or a [FileInfo] of which [Mode().IsRegular()] is read. *)
Inductive StatResult : Type :=
| StatNotExist (e : error)
| StatError (e : error)
| StatInfo (isRegular : bool).

(** [*http.Response], the field the probe reads. *)
Record Response : Type := mkResponse { StatusCode : Z }.

(** Everything outside the process that the methods consult.  The answers
    to calls that are repeated are indexed by the number of earlier calls
    of the same kind. *)
Record World : Type := mkWorld {
  (* the local machine, read by [Complete] and [Validate] *)
  w_Clean : string → string;                     (* filepath.Clean *)
  w_RawConfig : string + error;                  (* config.CurrentContext, or the error *)
  w_Stat : string → StatResult;                  (* os.Stat *)
  w_ReadYaml : string → gmap string value + error;
      (* os.ReadFile, then yaml.Unmarshal into a map[string]interface{} *)
  w_decodeRayJobYaml : string → Unstructured + error;
  w_YAMLToJSON : string → string + error;
  (* the API server *)
  w_NewClient : option error;
  w_Create : Unstructured → Unstructured + error;
  w_GetRayJob : nat → Unstructured + error;
  w_GetCluster : nat → Unstructured + error;
  w_Delete : option error;
  w_GetRayHeadSvcName : string + error;
  w_Update : Unstructured → option error;
  (* the tunnel endpoint *)
  w_NewRequest : option error;
  w_Do : nat → option Response * option error;
  (* the submission process *)
  w_StdoutPipe : option error;
  w_StderrPipe : option error;
  w_stdout : list string;                        (* the lines it writes to stdout *)
  w_Wait : option error;
  (* time: by how much the n-th sleep oversleeps, and how long the n-th
     fetch of the cluster and the n-th probe take, in nanoseconds *)
  w_oversleep : nat → N;
  w_GetClusterTime : nat → N;
  w_DoTime : nat → N
}.

(** What a run does to the outside world, in order. *)
Inductive Event : Type :=
| EvPrint (s : string)                 (* fmt.Printf, fmt.Println *)
| EvSleep (d : Z)                      (* time.Sleep *)
| EvCreate (obj : Unstructured)        (* Resource(RayJobGVR).Create *)
| EvGetRayJob (name : string)          (* Resource(RayJobGVR).Get *)
| EvGetCluster (name : string)         (* Resource(RayClusterGVR).Get *)
| EvDelete (name : string)             (* Resource(RayJobGVR).Delete *)
| EvUpdate (obj : Unstructured)        (* Resource(RayJobGVR).Update *)
| EvGetRayHeadSvcName (name : string)
| EvPortForward (args : list string)   (* the goroutine of the tunnel is started *)
| EvCancel                             (* the deferred cancel() of its context *)
| EvDo                                 (* httpClient.Do *)
| EvBodyClose                          (* Response.Body.Close *)
| EvStart (argv : list string)         (* the goroutine that calls cmd.Start *)
| EvWait.                              (* cmd.Wait *)

(** The state a method runs in: the receiver [*options], the world, the
    monotonic clock, the number of calls made so far of each repeated kind,
    and the events so far (oldest first). *)
Record State : Type := mkState {
  options : SubmitJobOptions;
  world : World;
  now : Z;
  sleeps : nat;
  getRayJobs : nat;
  getClusters : nat;
  probes : nat;
  trace : list Event
}.

(** How a call ends. *)
Inductive Outcome (A : Type) : Type :=
| Ret (a : A)             (* it returns, with a nil error *)
| Fail (e : error)        (* it returns the error [e] *)
| Panic (msg : string)    (* a run-time panic unwinds it *)
| Hang                    (* it blocks for ever *)
| OutOfFuel.              (* the bound on loop iterations of the model was hit *)

Arguments Ret {A} a.
Arguments Fail {A} e.
Arguments Panic {A} msg.
Arguments Hang {A}.
Arguments OutOfFuel {A}.

Definition M (A : Type) : Type := State → Outcome A * State.

(** Sequencing for code that has no state but can panic. *)
Definition andThen {A B} (o : Outcome A) (k : A → Outcome B) : Outcome B :=
  match o with
  | Ret a => k a
  | Fail e => Fail e
  | Panic msg => Panic msg
  | Hang => Hang
  | OutOfFuel => OutOfFuel
  end.

(** Such code, called from a method. *)
Definition lift {A} (o : Outcome A) : M A := λ s, (o, s).

Definition ret {A} (a : A) : M A := λ s, (Ret a, s).
Definition fail {A} (e : error) : M A := λ s, (Fail e, s).
Definition panic {A} (msg : string) : M A := λ s, (Panic msg, s).
Definition hang {A} : M A := λ s, (Hang, s).
Definition outOfFuel {A} : M A := λ s, (OutOfFuel, s).

Definition bind {A B} (m : M A) (k : A → M B) : M B :=
  λ s, match m s with
       | (Ret a, s') => k a s'
       | (Fail e, s') => (Fail e, s')
       | (Panic msg, s') => (Panic msg, s')
       | (Hang, s') => (Hang, s')
       | (OutOfFuel, s') => (OutOfFuel, s')
       end.

(** [x, err := m(); if err != nil { return wrap(err) }] for a call [m] of
    the methods themselves. *)
Definition wrapFail {A} (wrap : error → error) (m : M A) : M A :=
  λ s, match m s with
       | (Fail e, s') => (Fail (wrap e), s')
       | r => r
       end.

Notation "'let*' x ':=' m 'in' k" := (bind m (λ x, k))
  (at level 10, x name, m at level 100, k at level 200, only parsing).
Notation "'do' m 'then' k" := (bind m (λ _, k))
  (at level 10, m at level 100, k at level 200, only parsing).

(** Primitive steps on the state. *)
Definition get_options : M SubmitJobOptions := λ s, (Ret (options s), s).

Definition modify_options (f : SubmitJobOptions → SubmitJobOptions) : M unit :=
  λ s, (Ret tt,
        mkState (f (options s)) (world s) (now s) (sleeps s) (getRayJobs s)
          (getClusters s) (probes s) (trace s)).

Definition ask : M World := λ s, (Ret (world s), s).

Definition emitEvent (e : Event) : M unit :=
  λ s, (Ret tt,
        mkState (options s) (world s) (now s) (sleeps s) (getRayJobs s)
          (getClusters s) (probes s) (trace s ++ [e])).

(** [time.Now()], as a reading of the monotonic clock. *)
Definition Now : M Z := λ s, (Ret (now s), s).

(** [time.Sleep(d)]: the clock advances by [d] and by however much this
    sleep oversleeps. *)
Definition Sleep (d : Z) : M unit :=
  λ s, (Ret tt,
        mkState (options s) (world s)
          (now s + d + Z.of_N (w_oversleep (world s) (sleeps s)))
          (S (sleeps s)) (getRayJobs s) (getClusters s) (probes s)
          (trace s ++ [EvSleep d])).

(** A returned pair [(value, error)] with a non-nil error ends the method
    when the code returns the error, wrapped by [wrap]. *)
Definition orFail {A} (r : A + error) (wrap : error → error) : M A :=
  match r with
  | inl a => ret a
  | inr e => fail (wrap e)
  end.

Definition failIf (r : option error) (wrap : error → error) : M unit :=
  match r with
  | None => ret tt
  | Some e => fail (wrap e)
  end.

(** The line feed that ends a printed line, and the double quote of [%q]. *)
Definition nl : string := String "010" EmptyString.
Definition dquote : string := String "034" EmptyString.

(** Unchecked type assertions [v.(map[string]interface{})] and [v.(string)]:
    they panic when the dynamic type is another one. *)
Definition assertMap (v : value) : Outcome (gmap string value) :=
  match v with
  | VMap m => Ret m
  | VNil => Panic "interface conversion: interface {} is nil, not map[string]interface {}"
  | _ => Panic "interface conversion: interface {} is not map[string]interface {}"
  end.

Definition assertString (v : value) : Outcome string :=
  match v with
  | VString x => Ret x
  | VNil => Panic "interface conversion: interface {} is nil, not string"
  | _ => Panic "interface conversion: interface {} is not string"
  end.

(** The checked assertion [x, ok := v.(string)]; [None] is [ok == false]. *)
Definition asString (v : value) : option string :=
  match v with VString x => Some x | _ => None end.

(** The checked assertion [x, ok := v.([]v1.Condition)]. *)
Definition asConditions (v : value) : option (list Condition) :=
  match v with VConditions l => Some l | _ => None end.

(** [u.GetName()]: the string at [metadata.name], or the empty string. *)
Definition GetName (u : Unstructured) : string :=
  match valueAt (Object u) "metadata" with
  | VMap md => default EmptyString (asString (valueAt md "name"))
  | _ => EmptyString
  end.

(** [u.GetAnnotations()]: the map at [metadata.annotations] when it is a
    map of strings, and nil ([None]) otherwise. *)
Definition GetAnnotations (u : Unstructured) : option (gmap string string) :=
  match valueAt (Object u) "metadata" with
  | VMap md =>
      match md !! "annotations" with
      | Some (VMap a) =>
          if decide (map_Forall (λ _ v, is_Some (asString v)) a)
          then Some (omap asString a) else None
      | _ => None
      end
  | _ => None
  end.

(** [u.SetAnnotations(annotations)] for a non-nil map: [metadata] is
    created when absent; when it is not a map nothing is set. *)
Definition SetAnnotations (annotations : gmap string string) (u : Unstructured)
  : Unstructured :=
  let a := VMap (VString <$> annotations) in
  match Object u !! "metadata" with
  | Some (VMap md) =>
      mkUnstructured (<["metadata" := VMap (<["annotations" := a]> md)]> (Object u))
  | Some _ => u
  | None =>
      mkUnstructured (<["metadata" := VMap {["annotations" := a]}]> (Object u))
  end.

(** [meta.IsStatusConditionTrue(conditions, conditionType)]: the status of
    the first condition of that type is ["True"]. *)
Definition IsStatusConditionTrue (conditions : list Condition)
  (conditionType : string) : bool :=
  match List.find (λ c, String.eqb (Type_ c) conditionType) conditions with
  | Some c => String.eqb (Status c) "True"
  | None => false
  end.

(* ===================================================================== *)
(** * Complete and Validate *)
(* ===================================================================== *)

(** [func (options *SubmitJobOptions) Complete() error] *)
Definition Complete : M unit :=
  let* w := ask in
  let* o := get_options in
  do (if nonEmpty (Namespace o) then ret tt
      else modify_options (set_Namespace "default")) then
  do (if nonEmpty (runtimeEnv o)
      then modify_options (set_runtimeEnv (w_Clean w (runtimeEnv o)))
      else ret tt) then
  modify_options (set_fileName (w_Clean w (fileName o))).

(** [func runtimeEnvHasWorkingDir(runtimePath string) (string, error)] *)
Definition runtimeEnvHasWorkingDir (runtimePath : string) : M string :=
  let* w := ask in
  let* runtimeEnvYaml := orFail (w_ReadYaml w runtimePath) id in
  let* workingDir := lift (assertString (valueAt runtimeEnvYaml "working_dir")) in
  if nonEmpty workingDir then ret workingDir else ret EmptyString.

(** The three checks that follow an [os.Stat] in [Validate]. *)
Definition checkStat (r : StatResult) (notExist other : string) : M unit :=
  match r with
  | StatNotExist e => fail (Wrap notExist e)
  | StatError e => fail (Wrap other e)
  | StatInfo isRegular =>
      if negb isRegular
      then fail (New "Filename given is not a regular file. Failed with: %!w(<nil>)")
      else ret tt
  end.

(** [Validate], lines 163-180: the runtime env file. *)
Definition validateRuntimeEnv : M unit :=
  let* w := ask in
  let* o := get_options in
  if nonEmpty (runtimeEnv o) then
    do checkStat (w_Stat w (runtimeEnv o))
         "Runtime Env file does not exist. Failed with: "
         "Error occurred when checking runtime env file: " then
    let* runtimeEnvWorkingDir :=
      wrapFail (Wrap "Error while checking runtime env: ")
        (runtimeEnvHasWorkingDir (runtimeEnv o)) in
    if nonEmpty runtimeEnvWorkingDir && negb (nonEmpty (workingDir o))
    then modify_options (set_workingDir runtimeEnvWorkingDir)
    else ret tt
  else ret tt.

(** [Validate], lines 196-206: the submission mode. *)
Definition validateSubmissionMode (rayJob : Unstructured) : M unit :=
  let* spec := lift (assertMap (valueAt (Object rayJob) "spec")) in
  match spec !! "submissionMode" with
  | None => fail (New "RayJob does not have `submissionMode` field set")
  | Some VNil => fail (New "Submission mode must be set to 'InteractiveMode'")
  | Some submissionMode =>
      if match asString submissionMode with
         | Some m => String.eqb m "InteractiveMode"
         | None => false
         end
      then ret tt
      else fail (New "Submission mode of the Ray Job is not supported")
  end.

(** [Validate], lines 208-215: the inline runtime environment. *)
Definition validateRuntimeEnvYAML (rayJob : Unstructured) : M unit :=
  let* w := ask in
  let* o := get_options in
  let* spec := lift (assertMap (valueAt (Object rayJob) "spec")) in
  match asString (valueAt spec "runtimeEnvYAML") with
  | Some runtimeEnvYaml =>
      if negb (nonEmpty (runtimeEnv o)) && negb (nonEmpty (runtimeEnvJson o)) then
        let* runtimeJson :=
          orFail (w_YAMLToJSON w runtimeEnvYaml)
            (Wrap "Failed to convert runtime env to json: ") in
        modify_options (set_runtimeEnvJson runtimeJson)
      else ret tt
  | None => ret tt
  end.

(** [func (options *SubmitJobOptions) Validate() error] *)
Definition Validate : M unit :=
  let* w := ask in
  let* CurrentContext := orFail (w_RawConfig w) (Wrap "Error retrieving raw config: ") in
  if negb (nonEmpty CurrentContext) then
    fail (New ("no context is currently set, use " +:+ dquote +:+
               "kubectl config use-context <context>" +:+ dquote +:+
               " to select a new one"))
  else
  do validateRuntimeEnv then
  let* o := get_options in
  do checkStat (w_Stat w (fileName o))
       "Ray Job file does not exist. Failed with: "
       "Error occurred when checking ray job file: " then
  do modify_options (set_RayJob
       (match w_decodeRayJobYaml w (fileName o) with inl u => Some u | inr _ => None end)) then
  let* rayJob := orFail (w_decodeRayJobYaml w (fileName o))
                   (Wrap "Failed to decode RayJob Yaml: ") in
  do validateSubmissionMode rayJob then
  do validateRuntimeEnvYAML rayJob then
  let* o := get_options in
  if negb (nonEmpty (workingDir o)) then
    fail (New "working directory is required, use --working-dir or set with runtime env")
  else
  modify_options (set_workingDir (w_Clean w (workingDir o))).

(* ===================================================================== *)
(** * The command builder *)
(* ===================================================================== *)

(** [if cond { raySubmitCmd = append(raySubmitCmd, args...) }] *)
Definition appendIf (cond : bool) (cmd args : list string) : list string :=
  if cond then cmd ++ args else cmd.

(** [func (options *SubmitJobOptions) raySubmitCmd() ([]string, error)].
    The method has a pointer receiver, so it is a computation on the state
    like the others; [cmd] is its local slice [raySubmitCmd]. *)
Definition raySubmitCmd : M (list string) :=
  let* o := get_options in
  let cmd := ["ray"; "job"; "submit"; "--address"; dashboardAddr] in
  let cmd := appendIf (nonEmpty (runtimeEnv o)) cmd
               ["--runtime-env"; runtimeEnv o] in
  let cmd := appendIf (nonEmpty (runtimeEnvJson o)) cmd
               ["--runtime-env-json"; runtimeEnvJson o] in
  let cmd := appendIf (nonEmpty (submissionID o)) cmd
               ["--submission-id"; submissionID o] in
  let cmd := appendIf (f32_gt_zero (entryPointCPU o)) cmd
               ["--entrypoint-num-cpus"; f32_format (entryPointCPU o)] in
  let cmd := appendIf (f32_gt_zero (entryPointGPU o)) cmd
               ["--entrypoint-num-gpus"; f32_format (entryPointGPU o)] in
  let cmd := appendIf (0 <? entryPointMemory o) cmd
               ["--entrypoint-memory"; format_int (entryPointMemory o)] in
  let cmd := appendIf (nonEmpty (entryPointResource o)) cmd
               ["--entrypoint-resource"; entryPointResource o] in
  let cmd := appendIf (nonEmpty (metadataJson o)) cmd
               ["--metadata-json"; metadataJson o] in
  let cmd := appendIf (noWait o) cmd ["--no-wait"] in
  let cmd := appendIf (nonEmpty (headers o)) cmd ["--headers"; headers o] in
  let cmd := appendIf (nonEmpty (verify o)) cmd ["--verify"; verify o] in
  let cmd := appendIf (nonEmpty (logStyle o)) cmd ["--log-style"; logStyle o] in
  let cmd := appendIf (nonEmpty (logColor o)) cmd ["--log-color"; logColor o] in
  let cmd := cmd ++ ["--working-dir"; workingDir o] in
  let cmd := cmd ++ ["--"] in
  match shlex.Split (entryPoint o) with
  | (_, Some err) => fail err
  | (entryPointSanitized, None) => ret (cmd ++ entryPointSanitized)
  end.

(* ===================================================================== *)
(** * The readiness of the cluster *)
(* ===================================================================== *)

(** [func isRayClusterReady(rayCluster *unstructured.Unstructured) (bool, error)].
    Both reads of [Object["status"]] assert a map without a check. *)
Definition isRayClusterReady (rayCluster : Unstructured) : Outcome (bool * option error) :=
  andThen (assertMap (valueAt (Object rayCluster) "status")) (λ status,
  let isReady :=
    match asConditions (valueAt status "conditions") with
    | Some rayClusterConditions => IsStatusConditionTrue rayClusterConditions "Ready"
    | None => false
    end in
  andThen (assertMap (valueAt (Object rayCluster) "status")) (λ status,
  let isReady :=
    match asString (valueAt status "state") with
    | Some rayClusterState => isReady || String.eqb rayClusterState "ready"
    | None => isReady
    end in
  if isReady then Ret (isReady, None)
  else Ret (false, Some (New "Cannot determine cluster state")))).

(* ===================================================================== *)
(** * Run *)
(* ===================================================================== *)

(** [for cond(x) { x = body(x) }] over the local variables [x] of the loop.
    The model bounds the number of iterations by [fuel]. *)
Fixpoint loop {X} (fuel : nat) (cond : X → bool) (body : X → M X) (x : X) : M X :=
  if cond x then
    match fuel with
    | O => outOfFuel
    | S fuel' => let* x' := body x in loop fuel' cond body x'
    end
  else ret x.

(** Calls of the API server and of the tunnel endpoint that are repeated. *)
Definition GetRayJob (name : string) : M (Unstructured + error) :=
  λ s, (Ret (w_GetRayJob (world s) (getRayJobs s)),
        mkState (options s) (world s) (now s) (sleeps s) (S (getRayJobs s))
          (getClusters s) (probes s) (trace s ++ [EvGetRayJob name])).

Definition GetCluster (name : string) : M (Unstructured + error) :=
  λ s, (Ret (w_GetCluster (world s) (getClusters s)),
        mkState (options s) (world s)
          (now s + Z.of_N (w_GetClusterTime (world s) (getClusters s)))
          (sleeps s) (getRayJobs s) (S (getClusters s)) (probes s)
          (trace s ++ [EvGetCluster name])).

Definition Do : M (option Response * option error) :=
  λ s, (Ret (w_Do (world s) (probes s)),
        mkState (options s) (world s)
          (now s + Z.of_N (w_DoTime (world s) (probes s)))
          (sleeps s) (getRayJobs s) (getClusters s) (S (probes s))
          (trace s ++ [EvDo])).

(** [options.RayJob], which [Run] dereferences. *)
Definition theRayJob : M Unstructured :=
  let* o := get_options in
  match RayJob o with
  | Some u => ret u
  | None => panic "invalid memory address or nil pointer dereference"
  end.

(** [options.RayJob, err = call], then the check of [err]. *)
Definition assignRayJob (r : Unstructured + error) (wrap : error → error) : M Unstructured :=
  do modify_options (set_RayJob (match r with inl u => Some u | inr _ => None end)) then
  orFail r wrap.

(** Lines 227-237: the client, and the creation of the RayJob. *)
Definition createRayJob : M unit :=
  let* w := ask in
  do failIf (w_NewClient w) (Wrap "failed to initialize clientset: ") then
  let* rayJob := theRayJob in
  do emitEvent (EvCreate rayJob) then
  let* created := assignRayJob (w_Create w rayJob) (Wrap "Error when creating RayJob CR: ") in
  emitEvent (EvPrint ("Submitted RayJob " +:+ GetName created +:+ "." +:+ nl)).

Definition isNil (v : value) : bool :=
  match v with VNil => true | _ => false end.

(** Lines 239-258: wait for the status of the RayJob and read the name of
    its cluster.  The loop variable is [options.RayJob]. *)
Definition awaitClusterName (fuel : nat) : M unit :=
  let* rayJob := theRayJob in
  if nonEmpty (GetName rayJob) then
    let* rayJob :=
      loop fuel
        (λ rayJob, isNil (valueAt (Object rayJob) "status"))
        (λ rayJob,
           let* r := GetRayJob (GetName rayJob) in
           let* rayJob' := assignRayJob r (λ _, New "Failed to get Ray Job status") in
           do Sleep pollInterval then
           ret rayJob')
        rayJob in
    let* status := lift (assertMap (valueAt (Object rayJob) "status")) in
    match asString (valueAt status "rayClusterName") with
    | None => fail (New "Unable to find ray cluster status")
    | Some clusterName =>
        if negb (nonEmpty clusterName)
        then fail (New "No cluster name available even after status of Ray Job is set")
        else modify_options (set_cluster clusterName)
    end
  else
    fail (New "Unknown cluster and did not provide Ray Job. One of the fields must be set").

(** Lines 266-278: one iteration of the loop that waits for the cluster;
    the pair is [(clusterReady, currTime)]. *)
Definition clusterLoopBody (x : bool * Z) : M (bool * Z) :=
  do Sleep pollInterval then
  let* o := get_options in
  let* r := GetCluster (cluster o) in
  let* currCluster := orFail r (Wrap "Failed to get cluster information with error: ") in
  let* ready := lift (isRayClusterReady currCluster) in
  do match snd ready with
     | Some err => emitEvent (EvPrint (Error (Wrap "Cluster is not ready: " err) +:+ nl))
     | None => ret tt
     end then
  let* currTime := Now in
  ret (fst ready, currTime).

(** Lines 260-278; the result is [clusterReady]. *)
Definition waitForCluster (fuel : nat) : M bool :=
  let* clusterWaitStartTime := Now in
  let* o := get_options in
  do emitEvent (EvPrint ("Waiting for RayCluster" +:+ nl)) then
  do emitEvent (EvPrint ("Checking Cluster Status for cluster " +:+ cluster o +:+ "..." +:+ nl)) then
  let* x :=
    loop fuel
      (λ x, negb (fst x) && Seconds_le (snd x - clusterWaitStartTime) clusterTimeout)
      clusterLoopBody
      (false, clusterWaitStartTime) in
  ret (fst x).

(** Lines 280-289: the cluster did not become ready. *)
Definition cleanUpAfterTimeout : M unit :=
  let* w := ask in
  let* rayJob := theRayJob in
  do emitEvent (EvPrint ("Deleting RayJob..." +:+ nl)) then
  do emitEvent (EvDelete (GetName rayJob)) then
  do failIf (w_Delete w) (Wrap "Failed to clean up ray job after time out.: ") then
  do emitEvent (EvPrint ("Cleaned Up RayJob: " +:+ GetName rayJob +:+ nl)) then
  fail (New "Timed out waiting for cluster").

(** [defer f()] around the rest of the function: [f] runs when the rest
    returns or panics. *)
Definition withDefer {A} (f : M unit) (rest : M A) : M A :=
  λ s, match rest s with
       | (Hang, s') => (Hang, s')
       | (OutOfFuel, s') => (OutOfFuel, s')
       | (r, s') => (r, snd (f s'))
       end.

(** Lines 323-335: one iteration of the loop that waits for the tunnel; the
    pair is [(portforwardReady, currTime)].  [rayDashboardResponse] is a
    pointer, which the code dereferences whatever [err] is. *)
Definition portforwardLoopBody (x : bool * Z) : M (bool * Z) :=
  do Sleep pollInterval then
  let* r := Do in
  let (rayDashboardResponse, err) := r in
  do match err with
     | Some err =>
         emitEvent (EvPrint (Error (Wrap "Error occurred when waiting for portforwarding: " err) +:+ nl))
     | None => ret tt
     end then
  match rayDashboardResponse with
  | None => panic "invalid memory address or nil pointer dereference"
  | Some resp =>
      let portforwardReady :=
        if (200 <=? StatusCode resp) && (StatusCode resp <? 300) then true else fst x in
      do emitEvent EvBodyClose then
      let* currTime := Now in
      ret (portforwardReady, currTime)
  end.

(** Lines 310-335; the result is [portforwardReady]. *)
Definition waitForPortForward (fuel : nat) : M bool :=
  let* w := ask in
  let* portforwardWaitStartTime := Now in
  do failIf (w_NewRequest w)
       (Wrap "Error occurred when trying to create request to probe cluster endpoint: ") then
  do emitEvent (EvPrint "Waiting for portforwarding...") then
  let* x :=
    loop fuel
      (λ x, negb (fst x) && Seconds_le (snd x - portforwardWaitStartTime) portforwardtimeout)
      portforwardLoopBody
      (false, portforwardWaitStartTime) in
  ret (fst x).

(** Lines 367-413: the identifier that the main flow holds when it goes on
    to the annotation.  Without a submission ID it is the value the
    goroutine of stdout hands over, and the main flow blocks for ever when
    there is none. *)
Definition awaitJobID : M string :=
  let* w := ask in
  let* o := get_options in
  let rayJobID := submissionID o in
  if nonEmpty rayJobID then ret rayJobID
  else match firstSend (tokens (w_stdout w)) with
       | Some v => ret v
       | None => hang
       end.

(** Lines 341-438.  The goroutine of lines 359-365, which prints and
    starts the process, stands in the trace where it is launched, and the
    start is taken to succeed ([log.Fatalf] is not modelled).  What the two
    goroutines that copy stdout and stderr print is not part of the trace.
    The trace so fixes one order for events that are concurrent with the
    main flow; no property below depends on where they stand among the
    later events of the main flow. *)
Definition submitAndAnnotate : M unit :=
  let* w := ask in
  let* cmd := wrapFail (Wrap "failed to create Ray submit command with error: ")
                raySubmitCmd in
  do emitEvent (EvPrint ("Ray command: [" +:+ Join cmd " " +:+ "]" +:+ nl)) then
  do failIf (w_StdoutPipe w) (Wrap "Error while setting up `ray job submit` stdout: ") then
  do failIf (w_StderrPipe w) (Wrap "Error while setting up `ray job submit` stderr: ") then
  do emitEvent (EvPrint ("Running ray submit job command..." +:+ nl)) then
  do emitEvent (EvStart cmd) then
  let* rayJobID := awaitJobID in
  let* rayJob := theRayJob in
  let* r := GetRayJob (GetName rayJob) in
  let* rayJob := assignRayJob r (λ _, New "Failed to get latest version of Ray Job") in
  let rayJobAnnotations := default ∅ (GetAnnotations rayJob) in
  let rayJobAnnotations := <[submissionIdKey := rayJobID]> rayJobAnnotations in
  let rayJob := SetAnnotations rayJobAnnotations rayJob in
  do modify_options (set_RayJob (Some rayJob)) then
  do emitEvent (EvUpdate rayJob) then
  do failIf (w_Update w rayJob)
       (Wrap "Error occurred when trying to add job ID to rayJob: ") then
  do emitEvent EvWait then
  failIf (w_Wait w) (Wrap "Error occurred with ray job submit: ").

(** Lines 291-438: the tunnel, and the submission through it.  The
    goroutine of the tunnel (lines 303-308) is launched once [cancel] is
    deferred, and stands in the trace where it is launched: the arguments
    set at line 298, then its print; the port-forward is taken not to
    fail ([log.Fatalf] is not modelled). *)
Definition connectAndSubmit (fuel : nat) : M unit :=
  let* w := ask in
  let* o := get_options in
  do emitEvent (EvGetRayHeadSvcName (cluster o)) then
  let* svcName := orFail (w_GetRayHeadSvcName w) (Wrap "Failed to find service name: ") in
  withDefer (emitEvent EvCancel)
    (do emitEvent (EvPortForward ["service/" +:+ svcName; "8265:8265"]) then
     do emitEvent (EvPrint ("Port Forwarding service " +:+ svcName +:+ nl)) then
     let* portforwardReady := waitForPortForward fuel in
     if negb portforwardReady then fail (New "Timed out waiting for port forwarding") else
     do emitEvent (EvPrint ("Portforwarding started on " +:+ dashboardAddr +:+ nl)) then
     submitAndAnnotate).

(** [func (options *SubmitJobOptions) Run(ctx, factory) error] *)
Definition Run (fuel : nat) : M unit :=
  do createRayJob then
  do awaitClusterName fuel then
  let* clusterReady := waitForCluster fuel in
  if negb clusterReady then cleanUpAfterTimeout else connectAndSubmit fuel.

(** The [RunE] of the command: [Complete], [Validate], [Run], each only
    when the one before returned no error.  [options.entryPoint] is already
    set from the arguments after the dash. *)
Definition RunE (fuel : nat) : M unit :=
  do Complete then
  do Validate then
  Run fuel.

End Options.

Arguments SubmitJobOptions F : clear implicits.
Arguments State F : clear implicits.
Arguments M F A : clear implicits.
Arguments Ret {A} a.
Arguments Fail {A} e.
Arguments Panic {A} msg.
Arguments Hang {A}.
Arguments OutOfFuel {A}.

Notation "'let*' x ':=' m 'in' k" := (bind m (λ x, k))
  (at level 10, x name, m at level 100, k at level 200, only parsing).
Notation "'do' m 'then' k" := (bind m (λ _, k))
  (at level 10, m at level 100, k at level 200, only parsing).

(* ===================================================================== *)
(** * Vocabulary of the statements *)
(* ===================================================================== *)

(** The kind of an event. *)
Inductive kind : Type :=
| KPrint | KSleep | KCreate | KGetRayJob | KGetCluster | KDelete | KUpdate
| KGetRayHeadSvcName | KPortForward | KCancel | KDo | KBodyClose | KStart | KWait.

#[global] Instance kind_eq_dec : EqDecision kind.
Proof. solve_decision. Defined.

Definition kindOf (e : Event) : kind :=
  match e with
  | EvPrint _ => KPrint
  | EvSleep _ => KSleep
  | EvCreate _ => KCreate
  | EvGetRayJob _ => KGetRayJob
  | EvGetCluster _ => KGetCluster
  | EvDelete _ => KDelete
  | EvUpdate _ => KUpdate
  | EvGetRayHeadSvcName _ => KGetRayHeadSvcName
  | EvPortForward _ => KPortForward
  | EvCancel => KCancel
  | EvDo => KDo
  | EvBodyClose => KBodyClose
  | EvStart _ => KStart
  | EvWait => KWait
  end.

(** All kinds but one. *)
Definition allKinds : list kind :=
  [KPrint; KSleep; KCreate; KGetRayJob; KGetCluster; KDelete; KUpdate;
   KGetRayHeadSvcName; KPortForward; KCancel; KDo; KBodyClose; KStart; KWait].

Definition allBut (k : kind) : list kind :=
  List.filter (λ k', negb (bool_decide (k' = k))) allKinds.

(** The options that no method assigns: the entrypoint and the submission
    ID. *)
Definition asGiven {F} (o : SubmitJobOptions F) : string * string :=
  (entryPoint o, submissionID o).

(** From [s] to [s'] the world, the entrypoint and the submission ID are
    the same, and the trace has grown by events of the kinds [ks]. *)
Definition evolves {F} (ks : list kind) (s s' : State F) : Prop :=
  world s' = world s ∧
  asGiven (options s') = asGiven (options s) ∧
  ∃ evs, trace s' = trace s ++ evs ∧ Forall (λ e, kindOf e ∈ ks) evs.

(** The method [m] only causes events of the kinds [ks]. *)
Definition emits_only {F A} (ks : list kind) (m : M F A) : Prop :=
  ∀ s o s', m s = (o, s') → evolves ks s s'.

(** The entrypoint of the options does not tokenize. *)
Definition malformed {F} (s : State F) : Prop :=
  snd (shlex.Split (entryPoint (options s))) ≠ None.

(** With an entrypoint that does not tokenize, [m] returns an error or
    panics, and causes only events of the kinds [ks]. *)
Definition never_returns {F A} (ks : list kind) (m : M F A) : Prop :=
  ∀ s o s', malformed s → m s = (o, s') → (∀ a, o ≠ Ret a) ∧ evolves ks s s'.

(** The events of [s'] that [s] does not have yet. *)
Definition newEvents {F} (s s' : State F) : list Event :=
  drop (length (trace s)) (trace s').

(** [id] stands in [line] between two single quotes, right after [pre],
    holds no single quote and contains the marker. *)
Definition quotedAt (line pre id : string) : Prop :=
  ∃ post, line = pre +:+ "'" +:+ id +:+ "'" +:+ post ∧
          free_of "'" id ∧ Contains id marker = true.

(** [id] is the first such substring of [line]. *)
Definition firstQuoted (line id : string) : Prop :=
  ∃ pre, quotedAt line pre id ∧
         ∀ pre' id', quotedAt line pre' id' →
                     (String.length pre ≤ String.length pre')%nat.

(** A line from which an identifier can be extracted. *)
Definition matching (line : string) : Prop := ∃ id, firstQuoted line id.

(** The RayJob has a [spec] whose submission mode is the accepted one. *)
Definition acceptedMode (u : Unstructured) : Prop :=
  ∃ spec, Object u !! "spec" = Some (VMap spec) ∧
          spec !! "submissionMode" = Some (VString "InteractiveMode").

(** What the [n]-th fetch of the cluster tells the loop: [Some true] when
    the predicate holds of the cluster fetched, [Some false] when it does
    not, [None] when the fetch fails or the predicate panics. *)
Definition clusterVerdict (w : World) (n : nat) : option bool :=
  match w_GetCluster w n with
  | inl c => match isRayClusterReady c with
             | Ret r => Some (fst r)
             | _ => None
             end
  | inr _ => None
  end.

(** What the [n]-th probe tells the loop: [Some true] for a response with
    a status in [200, 300), [Some false] for another response, [None] when
    there is no response. *)
Definition probeVerdict (w : World) (n : nat) : option bool :=
  match fst (w_Do w n) with
  | Some resp => Some ((200 <=? StatusCode resp) && (StatusCode resp <? 300))
  | None => None
  end.

(** The time the iteration takes that makes the [i]-th sleep and the
    [j]-th fetch, a fetch taking [latency]. *)
Definition iterationTime (w : World) (latency : World → nat → N) (i j : nat) : Z :=
  pollInterval + Z.of_N (w_oversleep w i) + Z.of_N (latency w j).

(** The time the first [k] iterations take, from the sleep [i] and the
    fetch [j] on. *)
Fixpoint elapsedAfter (w : World) (latency : World → nat → N) (i j k : nat) : Z :=
  match k with
  | O => 0
  | S k' => elapsedAfter w latency i j k'
            + iterationTime w latency (i + k') (j + k')
  end.

(** The most iterations a loop with the deadline of [t] seconds can make:
    the deadline over the interval, rounded up, and one. *)
Definition maxPolls (t : Z) : nat :=
  S (Z.to_nat ((t * Second + pollInterval - 1) / pollInterval)).

(** The state with more events in its trace. *)
Definition logged {F} (s : State F) (evs : list Event) : State F :=
  mkState (options s) (world s) (now s) (sleeps s) (getRayJobs s)
    (getClusters s) (probes s) (trace s ++ evs).

(** The condition of both polling loops, for the deadline of [t] seconds
    and the state [s0] in which the loop starts: not ready, and the time
    read last is within the deadline. *)
Definition cond {F} (t : Z) (s0 : State F) (x : bool * Z) : bool :=
  negb (fst x) && Seconds_le (snd x - now s0) t.

(** What holds of a polling loop [run] with a deadline of [t] seconds that
    counts its fetches in [fetches], a fetch taking [latency] and telling
    the loop [verdict]; [pre] is what the loop needs to start at all. *)
Definition pollsUntilDeadline {F} (t : Z) (fetches : State F → nat)
  (latency : World → nat → N) (verdict : World → nat → option bool)
  (pre : State F → Prop) (run : nat → M F bool) : Prop :=
  ∀ (fuel : nat) (s : State F),
    let E := elapsedAfter (world s) latency (sleeps s) (fetches s) in
    (* with fuel for the most iterations there can be, the loop ends *)
    ((maxPolls t ≤ fuel)%nat → fst (run fuel s) ≠ OutOfFuel) ∧
    (* when it returns it has made n fetches, at least one and at most
       maxPolls, and when it returns "not ready" the deadline has passed,
       by no more than the time of the last iteration *)
    (∀ ready s', run fuel s = (Ret ready, s') →
       ∃ n, (1 ≤ n ≤ maxPolls t)%nat ∧
            fetches s' = (fetches s + n)%nat ∧
            now s' - now s = E n ∧
            (ready = false →
             t * Second < now s' - now s ∧
             now s' - now s ≤
               t * Second + iterationTime (world s) latency
                              (sleeps s + (n - 1)) (fetches s + (n - 1)))) ∧
    (* when the predicate never holds, the loop returns "not ready" *)
    (pre s → (∀ j, verdict (world s) (fetches s + j)%nat = Some false) →
     (maxPolls t ≤ fuel)%nat →
     ∃ s', run fuel s = (Ret false, s')) ∧
    (* when it first holds at the fetch n, made in an iteration that
       starts within the deadline, the loop returns "ready" after n+1
       fetches *)
    (pre s → ∀ n,
       (∀ j, (j < n)%nat → verdict (world s) (fetches s + j)%nat = Some false) →
       verdict (world s) (fetches s + n)%nat = Some true →
       E n ≤ t * Second → (n < fuel)%nat →
       ∃ s', run fuel s = (Ret true, s') ∧ fetches s' = (fetches s + S n)%nat).

(** An optional flag of the command line: its arguments when the source
    value is present, nothing otherwise. *)
Definition flag (present : bool) (args : list string) : list string :=
  if present then args else [].

(** The identifiers that the updates of a trace write into the annotation
    of the submission ID, [None] for an update that has no such
    annotation. *)
Definition annotationsWritten (tr : list Event) : list (option string) :=
  omap (λ e, match e with
             | EvUpdate u => Some (GetAnnotations u ≫= (λ a, a !! submissionIdKey))
             | _ => None
             end) tr.

(** The state [s] of a polling loop that started in [s0] and has made [k]
    iterations, [x] being its pair of local variables. *)
Definition pollInv {F} (fetches : State F → nat) (latency : World → nat → N)
  (s0 : State F) (k : nat) (x : bool * Z) (s : State F) : Prop :=
  world s = world s0 ∧ sleeps s = (sleeps s0 + k)%nat ∧
  fetches s = (fetches s0 + k)%nat ∧ snd x = now s ∧
  now s = now s0 + elapsedAfter (world s0) latency (sleeps s0) (fetches s0) k.

(** What [waitForCluster] and [waitForPortForward] print before their
    loops. *)
Definition clusterBanner {F} (s : State F) : list Event :=
  [EvPrint ("Waiting for RayCluster" +:+ nl);
   EvPrint ("Checking Cluster Status for cluster " +:+ cluster (options s) +:+ "..." +:+ nl)].

Definition probeBanner : list Event := [EvPrint "Waiting for portforwarding..."].

(* ===================================================================== *)
(** * Inputs of the examples *)
(* ===================================================================== *)

Module Examples.

(** Reservations in whole CPUs, printed with six decimals. *)
#[global] Instance wholeUnits : Float32 Z :=
  {| f32_gt_zero x := 0 <? x; f32_format x := format_int x +:+ ".000000" |}.

(** A RayJob named [rayjob-sample] in interactive mode. *)
Definition rayJob (status : option value) : Unstructured :=
  mkUnstructured
    (let m : gmap string value :=
       {[ "metadata" := VMap {[ "name" := VString "rayjob-sample" ]};
          "spec" := VMap {[ "submissionMode" := VString "InteractiveMode" ]} ]} in
     match status with
     | Some st => <["status" := st]> m
     | None => m
     end).

(** The RayJob once the operator has named its cluster. *)
Definition rayJobWithCluster : Unstructured :=
  rayJob (Some (VMap {[ "rayClusterName" := VString "raycluster-sample" ]})).

(** A RayCluster whose status has the state [st] and no conditions. *)
Definition rayCluster (st : string) : Unstructured :=
  mkUnstructured {[ "status" := VMap {[ "state" := VString st ]} ]}.

(** A RayCluster the operator has not reported on yet. *)
Definition rayClusterNoStatus : Unstructured :=
  mkUnstructured {[ "metadata" := VMap {[ "name" := VString "raycluster-sample" ]} ]}.

(** A RayCluster as the API server returns it, its conditions decoded from
    JSON: ready by its condition, pending by its state. *)
Definition rayClusterDecoded : Unstructured :=
  mkUnstructured
    {[ "status" :=
         VMap {[ "conditions" :=
                   VSlice [VMap {[ "type" := VString "Ready";
                                   "status" := VString "True" ]}];
                 "state" := VString "pending" ]} ]}.

(** The same status with the conditions as a Go slice of conditions. *)
Definition rayClusterTyped : Unstructured :=
  mkUnstructured
    {[ "status" :=
         VMap {[ "conditions" := VConditions [mkCondition "Ready" "True"];
                 "state" := VString "pending" ]} ]}.

(** The lines of the example of the spec. *)
Definition stdoutLines : list string :=
  ["starting"; "Job 'raysubmit_abc123' submitted"; "Job 'raysubmit_xyz999' submitted"].

(** A world in which every call succeeds at once, but for the calls given:
    the decoding of the two files, the fetches of the cluster and their
    times, and the probes. *)
Definition worldWith
  (readYaml : gmap string value + error) (decode : Unstructured + error)
  (getCluster : nat → Unstructured + error) (getClusterTime : nat → N)
  (probe : nat → option Response * option error) : World :=
  {| w_Clean := id;
     w_RawConfig := inl "kind-kind";
     w_Stat := λ _, StatInfo true;
     w_ReadYaml := λ _, readYaml;
     w_decodeRayJobYaml := λ _, decode;
     w_YAMLToJSON := λ y, inl y;
     w_NewClient := None;
     w_Create := λ u, inl u;
     w_GetRayJob := λ _, inl rayJobWithCluster;
     w_GetCluster := getCluster;
     w_Delete := None;
     w_GetRayHeadSvcName := inl "raycluster-sample-head-svc";
     w_Update := λ _, None;
     w_NewRequest := None;
     w_Do := probe;
     w_StdoutPipe := None;
     w_StderrPipe := None;
     w_stdout := stdoutLines;
     w_Wait := None;
     w_oversleep := λ _, 0%N;
     w_GetClusterTime := getClusterTime;
     w_DoTime := λ _, 0%N |}.

Definition readyAfter (n : nat) (i : nat) : Unstructured + error :=
  inl (rayCluster (if (i <? n)%nat then "pending" else "ready")).

Definition reachableAfter (n : nat) (i : nat) : option Response * option error :=
  (Some (mkResponse (if (i <? n)%nat then 503 else 200)), None).

(** The cluster is ready at its fourth fetch, the tunnel at its third probe. *)
Definition calm : World :=
  worldWith (inl ∅) (inl (rayJob None)) (readyAfter 3) (λ _, 0%N) (reachableAfter 2).

(** The cluster never becomes ready. *)
Definition neverReady : World :=
  worldWith (inl ∅) (inl (rayJob None)) (λ _, inl (rayCluster "pending")) (λ _, 0%N)
    (reachableAfter 2).

(** The same, each fetch of the cluster taking one second. *)
Definition neverReadySlow : World :=
  worldWith (inl ∅) (inl (rayJob None)) (λ _, inl (rayCluster "pending"))
    (λ _, 1000000000%N) (reachableAfter 2).

(** The first fetch of the cluster fails. *)
Definition fetchFails : World :=
  worldWith (inl ∅) (inl (rayJob None)) (λ _, inr (New "connection refused"))
    (λ _, 0%N) (reachableAfter 2).

(** The third fetch of the cluster fails, the cluster still pending. *)
Definition failsAtThird : World :=
  worldWith (inl ∅) (inl (rayJob None))
    (λ i, if (i <? 2)%nat then inl (rayCluster "pending")
          else inr (New "connection refused"))
    (λ _, 0%N) (reachableAfter 2).

(** The tunnel endpoint answers, but never with a 2xx status. *)
Definition neverReachable : World :=
  worldWith (inl ∅) (inl (rayJob None)) (readyAfter 3) (λ _, 0%N)
    (λ _, (Some (mkResponse 503), None)).

(** The tunnel is not up yet at the first probe: the connection is refused. *)
Definition refused : World :=
  worldWith (inl ∅) (inl (rayJob None)) (readyAfter 3) (λ _, 0%N)
    (λ _, (None, Some (New "dial tcp 127.0.0.1:8265: connect: connection refused"))).

(** The operator has not reported on the cluster yet at the first fetch. *)
Definition statusPending : World :=
  worldWith (inl ∅) (inl (rayJob None))
    (λ i, inl (if (i <? 1)%nat then rayClusterNoStatus else rayCluster "ready"))
    (λ _, 0%N) (reachableAfter 2).

(** The API server answers the first fetch of the cluster with the
    conditions set and the state still pending. *)
Definition readyByCondition : World :=
  worldWith (inl ∅) (inl (rayJob None)) (λ _, inl rayClusterDecoded)
    (λ _, 0%N) (reachableAfter 2).

(** The runtime env file has no [working_dir]. *)
Definition runtimeEnvWithoutDir : World :=
  worldWith (inl {[ "pip" := VSlice [VString "requests"] ]}) (inl (rayJob None))
    (readyAfter 3) (λ _, 0%N) (reachableAfter 2).

(** The RayJob file has no [spec]. *)
Definition rayJobWithoutSpec : World :=
  worldWith (inl ∅)
    (inl (mkUnstructured {[ "metadata" := VMap {[ "name" := VString "rayjob-sample" ]} ]}))
    (readyAfter 3) (λ _, 0%N) (reachableAfter 2).

(** Options with the working directory given, and the entrypoint [entry];
    the runtime env file is [env]. *)
Definition optionsWith (env entry : string) : SubmitJobOptions Z :=
  {| Namespace := EmptyString;
     RayJob := None;
     submissionID := EmptyString;
     entryPoint := entry;
     fileName := "rayjob.yaml";
     workingDir := "/tmp/wd";
     runtimeEnv := env;
     headers := EmptyString;
     verify := EmptyString;
     cluster := EmptyString;
     runtimeEnvJson := EmptyString;
     entryPointResource := EmptyString;
     metadataJson := EmptyString;
     logStyle := EmptyString;
     logColor := EmptyString;
     entryPointCPU := 0;
     entryPointGPU := 0;
     entryPointMemory := 0;
     noWait := false |}.

Definition goodOptions : SubmitJobOptions Z :=
  optionsWith EmptyString "python my_script.py --msg 'hello world'".

(** The entrypoint opens a quote that it never closes. *)
Definition unclosedQuote : SubmitJobOptions Z :=
  optionsWith EmptyString "python 'my script.py".

(** The state in which the command starts. *)
Definition initial (w : World) (o : SubmitJobOptions Z) : State Z :=
  mkState o w 0 0 0 0 0 [].

(** The state in which [Run] starts: [Validate] has stored the RayJob. *)
Definition validated (w : World) : State Z :=
  mkState (set_RayJob (Some (rayJob None)) goodOptions) w 0 0 0 0 0 [].

End Examples.

(* ===================================================================== *)
(** * The command *)
(* ===================================================================== *)

Section Command.
Context {F : Type} `{Float32 F}.

Definition set_entryPoint (v : string) (o : SubmitJobOptions F) : SubmitJobOptions F :=
  mkOptions (Namespace o) (RayJob o) (submissionID o) v (fileName o)
    (workingDir o) (runtimeEnv o) (headers o) (verify o) (cluster o)
    (runtimeEnvJson o) (entryPointResource o) (metadataJson o) (logStyle o)
    (logColor o) (entryPointCPU o) (entryPointGPU o) (entryPointMemory o) (noWait o).

(** The slice expression [args[low:]] with a bound that is not a constant:
    the run-time check panics when [low] is negative or beyond the length. *)
Definition sliceFrom {A} (args : list A) (low : Z) : Outcome (list A) :=
  if low <? 0
  then Panic ("slice bounds out of range [" +:+ format_int low +:+ ":]")
  else if Z.of_nat (length args) <? low
  then Panic ("slice bounds out of range [" +:+ format_int low +:+ ":"
              +:+ format_int (Z.of_nat (length args)) +:+ "]")
  else Ret (drop (Z.to_nat low) args).

(** Lines 106-107 of the [RunE] closure of [NewJobSubmitCommand]:
    [ArgsLenAtDash] is what [cmd.ArgsLenAtDash()] returns, the number of
    arguments before the dash, and -1 when the command line has none. *)
Definition setEntryPoint (args : list string) (ArgsLenAtDash : Z) : M F unit :=
  let entryPointStart := ArgsLenAtDash in
  let* tail := lift (sliceFrom args entryPointStart) in
  modify_options (set_entryPoint (Join tail " ")).

(** The [RunE] closure of [NewJobSubmitCommand], lines 105-115. *)
Definition commandRunE (args : list string) (ArgsLenAtDash : Z) (fuel : nat) : M F unit :=
  do setEntryPoint args ArgsLenAtDash then
  RunE fuel.

(** The state [s] with another entrypoint: what the closure would have
    left had the arguments after the dash been others. *)
Definition withEntryPoint (v : string) (s : State F) : State F :=
  mkState (set_entryPoint v (options s)) (world s) (now s) (sleeps s) (getRayJobs s)
    (getClusters s) (probes s) (trace s).

(** The method [m] does not look at the entrypoint: with another one it
    ends the same way, and leaves the state that it leaves, but for the
    entrypoint. *)
Definition blind {A} (m : M F A) : Prop :=
  ∀ v s, m (withEntryPoint v s) = (fst (m s), withEntryPoint v (snd (m s))).

End Command.

(* ===================================================================== *)
(** * More vocabulary *)
(* ===================================================================== *)

(** A word that [shlex] reads as it stands: it is not empty and holds no
    space, quote, backslash or hash. *)
Definition plainRunes (w : string) : Prop :=
  Forall (λ c, shlex.ClassifyRune c = shlex.unknownRuneClass) (list_ascii_of_string w).

Definition plain (w : string) : Prop := w ≠ EmptyString ∧ plainRunes w.

(** The kinds of events that change something outside the process: the
    RayJob, the tunnel, the submission process. *)
Definition effectKinds : list kind :=
  [KCreate; KDelete; KUpdate; KPortForward; KCancel; KStart; KWait].

(** What is left of the events when the prints, the sleeps and the reads
    are left out. *)
Definition effects (evs : list Event) : list Event :=
  List.filter (λ e, bool_decide (kindOf e ∈ effectKinds)) evs.

(** The fields of the options that [Validate] may assign. *)
Definition validatedFields {F} (o : SubmitJobOptions F)
  (rayJob : option Unstructured) (wd json : string) : SubmitJobOptions F :=
  mkOptions (Namespace o) rayJob (submissionID o) (entryPoint o) (fileName o)
    wd (runtimeEnv o) (headers o) (verify o) (cluster o)
    json (entryPointResource o) (metadataJson o) (logStyle o)
    (logColor o) (entryPointCPU o) (entryPointGPU o) (entryPointMemory o) (noWait o).

(** The lines that the goroutine of stdout prints: those that are not
    empty. *)
Definition printable (lines : list string) : list string :=
  List.filter nonEmpty lines.

(** The method [m] keeps the property [P] of the state, however it ends. *)
Definition keeps {F A} (P : State F → Prop) (m : M F A) : Prop :=
  ∀ s o s', P s → m s = (o, s') → P s'.

(** Whether the deferred calls of a function run when it ends so: they do
    when it returns or panics, not when it blocks. *)
Definition deferred {A} (o : Outcome A) : bool :=
  match o with
  | Hang | OutOfFuel => false
  | _ => true
  end.

(** The identifier that the main flow holds past line 413: the submission
    ID when one is given, else the first one the goroutine of stdout
    sends, if any. *)
Definition heldJobID {F} (s : State F) : option string :=
  if nonEmpty (submissionID (options s)) then Some (submissionID (options s))
  else firstSend (tokens (w_stdout (world s))).

(** The kinds of events of [Run] up to the end of the wait for the
    cluster, and those of the wait for the tunnel. *)
Definition clusterKinds : list kind := [KPrint; KCreate; KGetRayJob; KSleep; KGetCluster].
Definition probeKinds : list kind := [KPrint; KSleep; KDo; KBodyClose].

(** What [connectAndSubmit] does before it waits for the tunnel. *)
Definition opened {F} (s : State F) (svcName : string) : list Event :=
  [EvGetRayHeadSvcName (cluster (options s));
   EvPortForward ["service/" +:+ svcName; "8265:8265"];
   EvPrint ("Port Forwarding service " +:+ svcName +:+ nl)].

(** The line printed once the tunnel answers. *)
Definition tunnelUp : Event := EvPrint ("Portforwarding started on " +:+ dashboardAddr +:+ nl).

(** The kinds of the prints, the sleeps and the fetches that come between
    the creation of the RayJob and the tunnel. *)
Definition readKinds : list kind := [KPrint; KGetRayJob; KSleep; KGetCluster].

(** The kinds of events that only the submission causes. *)
Definition submitKinds : list kind := [KStart; KUpdate; KWait].

(* ===================================================================== *)
(** * More inputs of the examples *)
(* ===================================================================== *)

Module MoreExamples.
Import Examples.

(** The world [w] with a process that writes [lines] to stdout. *)
Definition withStdout (lines : list string) (w : World) : World :=
  {| w_Clean := w_Clean w;
     w_RawConfig := w_RawConfig w;
     w_Stat := w_Stat w;
     w_ReadYaml := w_ReadYaml w;
     w_decodeRayJobYaml := w_decodeRayJobYaml w;
     w_YAMLToJSON := w_YAMLToJSON w;
     w_NewClient := w_NewClient w;
     w_Create := w_Create w;
     w_GetRayJob := w_GetRayJob w;
     w_GetCluster := w_GetCluster w;
     w_Delete := w_Delete w;
     w_GetRayHeadSvcName := w_GetRayHeadSvcName w;
     w_Update := w_Update w;
     w_NewRequest := w_NewRequest w;
     w_Do := w_Do w;
     w_StdoutPipe := w_StdoutPipe w;
     w_StderrPipe := w_StderrPipe w;
     w_stdout := lines;
     w_Wait := w_Wait w;
     w_oversleep := w_oversleep w;
     w_GetClusterTime := w_GetClusterTime w;
     w_DoTime := w_DoTime w |}.

(** Every call succeeds, and the process prints no identifier. *)
Definition silent : World := withStdout ["starting"; "done"] calm.

(** The options of the examples with the submission ID [id]. *)
Definition withSubmissionID (id : string) (o : SubmitJobOptions Z) : SubmitJobOptions Z :=
  mkOptions (Namespace o) (RayJob o) id (entryPoint o) (fileName o)
    (workingDir o) (runtimeEnv o) (headers o) (verify o) (cluster o)
    (runtimeEnvJson o) (entryPointResource o) (metadataJson o) (logStyle o)
    (logColor o) (entryPointCPU o) (entryPointGPU o) (entryPointMemory o) (noWait o).

(** The state in which [Run] starts when the submission ID [my-id] is
    given. *)
Definition validatedWithID (w : World) : State Z :=
  mkState (withSubmissionID "my-id" (set_RayJob (Some (rayJob None)) goodOptions))
    w 0 0 0 0 0 [].

(** The command that the options of the examples give. *)
Definition goodCommand : list string :=
  ["ray"; "job"; "submit"; "--address"; "http://localhost:8265";
   "--working-dir"; "/tmp/wd"; "--";
   "python"; "my_script.py"; "--msg"; "hello world"].

End MoreExamples.

(* ===================================================================== *)
(** * Facts about strings *)
(* ===================================================================== *)

Lemma append_cons x (a b : string) : String x a +:+ b = String x (a +:+ b).
Proof. reflexivity. Qed.

Lemma append_nil_l (b : string) : EmptyString +:+ b = b.
Proof. reflexivity. Qed.

Ltac sapp := rewrite ?append_cons, ?append_nil_l in *.

Lemma append_assoc (a b c : string) : (a +:+ b) +:+ c = a +:+ (b +:+ c).
Proof. induction a as [|x a IH]; sapp; [done | by f_equal]. Qed.

Lemma append_nil_r (a : string) : a +:+ EmptyString = a.
Proof. induction a as [|x a IH]; sapp; [done | by f_equal]. Qed.

Lemma length_append (a b : string) :
  String.length (a +:+ b) = (String.length a + String.length b)%nat.
Proof. induction a as [|x a IH]; sapp; simpl; [done | by f_equal]. Qed.

Lemma HasPrefix_spec (s p : string) :
  HasPrefix s p = true ↔ ∃ r, s = p +:+ r.
Proof.
  revert s. induction p as [|a p IH]; intros s; simpl.
  - split; [by exists s | done].
  - destruct s as [|b s]; simpl.
    + split; [done | by intros [r Hr]].
    + rewrite andb_true_iff, IH, Ascii.eqb_eq. split.
      * intros [-> [r ->]]. eauto.
      * intros [r Hr]. sapp. injection Hr as -> ->. eauto.
Qed.

Lemma Contains_spec (s sub : string) :
  Contains s sub = true ↔ ∃ a b, s = a +:+ sub +:+ b.
Proof.
  induction s as [|x s IH]; simpl; rewrite orb_true_iff, HasPrefix_spec.
  - split.
    + intros [[r Hr] | ?]; [|done]. exists EmptyString, r. done.
    + intros (a & b & Hab). left. destruct a; sapp; [eauto | done].
  - rewrite IH. split.
    + intros [[r Hr] | (a & b & ->)].
      * exists EmptyString, r. done.
      * exists (String x a), b. done.
    + intros (a & b & Hab). destruct a as [|y a]; sapp.
      * left. eauto.
      * right. injection Hab as -> ->. eauto.
Qed.

Lemma free_of_app c (a b : string) :
  free_of c (a +:+ b) ↔ free_of c a ∧ free_of c b.
Proof. induction a as [|x a IH]; sapp; simpl; [tauto | rewrite IH; tauto]. Qed.

(** Two ways of cutting a string at a character [c], the part before it
    free of [c], agree. *)
Lemma cut_unique c (a a' p p' : string) :
  free_of c a → free_of c a' →
  a +:+ String c p = a' +:+ String c p' → a = a' ∧ p = p'.
Proof.
  revert a'. induction a as [|x a IH]; intros [|y a'] Ha Ha' E; sapp; simpl in *.
  - by injection E as ->.
  - injection E as <- _. by destruct Ha'.
  - injection E as -> _. by destruct Ha.
  - injection E as -> E. destruct Ha, Ha'.
    destruct (IH a') as [-> ->]; done.
Qed.

(* ===================================================================== *)
(** * The regular expression: the search finds what matches *)
(* ===================================================================== *)

Section RegexpFacts.
Import Regexp.

Lemma pushes_true acc a : pushes true acc a = acc +:+ a.
Proof.
  revert acc. induction a as [|x a IH]; intros acc; simpl.
  - by rewrite append_nil_r.
  - rewrite IH. unfold push. by rewrite append_assoc.
Qed.

Lemma match_here_star c p grp acc s :
  match_here (NotStar c :: p) grp acc s =
  match s with
  | String x s' =>
      if Ascii.eqb x c then match_here p grp acc s
      else match match_here (NotStar c :: p) grp (push grp acc x) s' with
           | Some r => Some r
           | None => match_here p grp acc s
           end
  | EmptyString => match_here p grp acc s
  end.
Proof. destruct s; reflexivity. Qed.

Lemma match_here_sound p grp acc s cap :
  match_here p grp acc s = Some cap → Matches p grp acc s cap.
Proof.
  revert grp acc s. induction p as [|i p IH]; intros grp acc s.
  - simpl. intros [= <-]. constructor.
  - destruct i as [c|c| |].
    + simpl. destruct s as [|x s]; [done|].
      destruct (Ascii.eqb_spec x c) as [->|]; [|done].
      intros Hm. constructor. by apply IH.
    + revert acc. induction s as [|x s IHs]; intros acc; rewrite match_here_star.
      * intros Hm. apply M_star_stop. by apply IH.
      * destruct (Ascii.eqb_spec x c) as [->|Hne].
        -- intros Hm. apply M_star_stop. by apply IH.
        -- destruct (match_here (NotStar c :: p) grp (push grp acc x) s) eqn:E.
           ++ intros [= <-]. apply M_star_step; [done|]. by apply IHs.
           ++ intros Hm. apply M_star_stop. by apply IH.
    + simpl. intros Hm. constructor. by apply IH.
    + simpl. intros Hm. constructor. by apply IH.
Qed.

Lemma match_here_complete p grp acc s cap :
  Matches p grp acc s cap → is_Some (match_here p grp acc s).
Proof.
  induction 1 as [| | | c p grp acc s cap _ IH | c p grp acc s cap _ IH
                 | c x p grp acc s cap Hne _ IH].
  - done.
  - done.
  - done.
  - simpl. by rewrite Ascii.eqb_refl.
  - rewrite match_here_star.
    destruct s as [|x s]; [done|].
    destruct (Ascii.eqb x c); [done|].
    destruct (match_here (NotStar c :: p) grp (push grp acc x) s); [eauto | done].
  - rewrite match_here_star.
    destruct (Ascii.eqb_spec x c) as [->|_]; [done|].
    destruct IH as [r ->]. eauto.
Qed.

Lemma Matches_star_inv c p grp acc s cap :
  Matches (NotStar c :: p) grp acc s cap →
  ∃ a r, s = a +:+ r ∧ free_of c a ∧ Matches p grp (pushes grp acc a) r cap.
Proof.
  remember (NotStar c :: p) as q eqn:Hq. intros Hm. revert Hq.
  induction Hm as [| | | | c' p' grp acc s cap Hm _
                  | c' x p' grp acc s cap Hne Hm IH]; intros Hq; try done.
  - injection Hq as -> ->. exists EmptyString, s. done.
  - injection Hq as -> ->. destruct (IH eq_refl) as (a & r & -> & Ha & Hr).
    exists (String x a), r. done.
Qed.

Lemma Matches_star_intro c p grp acc a r cap :
  free_of c a → Matches p grp (pushes grp acc a) r cap →
  Matches (NotStar c :: p) grp acc (a +:+ r) cap.
Proof.
  revert acc. induction a as [|x a IH]; intros acc Ha Hm; simpl in *.
  - by apply M_star_stop.
  - destruct Ha. apply M_star_step; [done|]. by apply IH.
Qed.

Lemma Matches_lit_inv l p grp acc s cap :
  Matches (lit l ++ p) grp acc s cap →
  ∃ r, s = l +:+ r ∧ Matches p grp (pushes grp acc l) r cap.
Proof.
  revert acc s. induction l as [|x l IH]; intros acc s Hm; simpl in *.
  - eauto.
  - inversion Hm; subst. destruct (IH _ _ H5) as (r & -> & Hr). eauto.
Qed.

Lemma Matches_lit_intro l p grp acc r cap :
  Matches p grp (pushes grp acc l) r cap →
  Matches (lit l ++ p) grp acc (l +:+ r) cap.
Proof.
  revert acc. induction l as [|x l IH]; intros acc Hm; simpl in *; [done|].
  constructor. by apply IH.
Qed.

Lemma marker_free : free_of "'" marker.
Proof. unfold marker; simpl. repeat split; discriminate. Qed.

Lemma Matches_regexExp s cap :
  Matches regexExp false EmptyString s cap ↔ quotedAt s EmptyString cap.
Proof.
  unfold regexExp, quotedAt. split.
  - intros Hm. simpl in Hm. inversion Hm as [| | |c p g ac s1 cp Hm1| |]; subst. clear Hm.
    inversion Hm1 as [|p g ac s2 cp Hm2| | | |]; subst. clear Hm1.
    apply Matches_star_inv in Hm2 as (a & r1 & -> & Ha & Hm3).
    change (Chr "r" :: Chr "a" :: Chr "y" :: Chr "s" :: Chr "u" :: Chr "b" :: Chr "m" :: Chr "i" :: Chr "t" :: [NotStar "'"; Close; Chr "'"])
      with (lit marker ++ [NotStar "'"; Close; Chr "'"]) in Hm3.
    apply Matches_lit_inv in Hm3 as (r2 & -> & Hm4).
    apply Matches_star_inv in Hm4 as (b & r3 & -> & Hb & Hm5).
    inversion Hm5 as [| |p g ac s5 cp Hm6| | |]; subst. clear Hm5.
    inversion Hm6 as [| | |c p g ac post cp Hm7| |]; subst. clear Hm6.
    inversion Hm7; subst. clear Hm7.
    rewrite !pushes_true. unfold push. sapp.
    exists post. split; [|split].
    + sapp. f_equal. by rewrite !append_assoc.
    + rewrite !free_of_app. auto using marker_free.
    + apply Contains_spec. exists a, b. by rewrite append_assoc.
  - intros (post & -> & Hfree & Hc).
    apply Contains_spec in Hc as (a & b & ->).
    apply free_of_app in Hfree as [Ha Hb]. apply free_of_app in Hb as [_ Hb].
    sapp. simpl. constructor. constructor.
    replace ((a +:+ marker +:+ b) +:+ String "'" post)
      with (a +:+ marker +:+ b +:+ String "'" post) by by rewrite !append_assoc.
    apply Matches_star_intro; [done|].
    change (Chr "r" :: Chr "a" :: Chr "y" :: Chr "s" :: Chr "u" :: Chr "b" :: Chr "m" :: Chr "i" :: Chr "t" :: [NotStar "'"; Close; Chr "'"])
      with (lit marker ++ [NotStar "'"; Close; Chr "'"]).
    apply Matches_lit_intro. apply Matches_star_intro; [done|].
    constructor. constructor. rewrite !pushes_true. unfold push. sapp.
    rewrite !append_assoc. constructor.
Qed.

Lemma quotedAt_cons x s pre id :
  quotedAt (String x s) (String x pre) id ↔ quotedAt s pre id.
Proof.
  unfold quotedAt. split; intros (post & E & H); exists post; split; try done.
  - sapp. by injection E.
  - sapp. by f_equal.
Qed.

Lemma quotedAt_nonempty_pre x s pre id :
  quotedAt (String x s) pre id → pre ≠ EmptyString →
  ∃ pre', pre = String x pre' ∧ quotedAt s pre' id.
Proof.
  intros Hq Hne. destruct pre as [|y pre']; [done|].
  assert (y = x) as ->.
  { destruct Hq as (post & E & _). sapp. by injection E. }
  exists pre'. split; [done|]. by apply quotedAt_cons in Hq.
Qed.

Lemma quotedAt_not_empty pre id : ¬ quotedAt EmptyString pre id.
Proof. intros (post & E & _). destruct pre; sapp; discriminate. Qed.

Lemma quotedAt_Contains s pre id : quotedAt s pre id → Contains s marker = true.
Proof.
  intros (post & -> & _ & Hc). apply Contains_spec in Hc as (a & b & ->).
  apply Contains_spec. exists (pre +:+ "'" +:+ a), (b +:+ "'" +:+ post).
  by rewrite !append_assoc.
Qed.

Lemma FindStringSubmatch_cons p x s :
  FindStringSubmatch p (String x s) =
  match match_here p false EmptyString (String x s) with
  | Some cap => Some cap
  | None => FindStringSubmatch p s
  end.
Proof. reflexivity. Qed.

Lemma FindStringSubmatch_Some s id :
  FindStringSubmatch regexExp s = Some id → firstQuoted s id.
Proof.
  induction s as [|x s IH]; [done|].
  rewrite FindStringSubmatch_cons.
  - destruct (match_here regexExp false EmptyString (String x s)) as [cap|] eqn:E.
    + intros [= ->]. apply match_here_sound, Matches_regexExp in E.
      exists EmptyString. split; [done|]. intros; simpl; lia.
    + intros Hf. destruct (IH Hf) as (pre & Hq & Hmin).
      exists (String x pre). split; [by apply (quotedAt_cons x s pre id)|].
      intros pre' id' Hq'.
      destruct (decide (pre' = EmptyString)) as [->|Hne].
      * apply Matches_regexExp, match_here_complete in Hq'.
        rewrite E in Hq'. by destruct Hq'.
      * destruct (quotedAt_nonempty_pre _ _ _ _ Hq' Hne) as (p & -> & Hp).
        simpl. specialize (Hmin _ _ Hp). lia.
Qed.

Lemma FindStringSubmatch_None s :
  FindStringSubmatch regexExp s = None → ∀ pre id, ¬ quotedAt s pre id.
Proof.
  induction s as [|x s IH].
  - intros _ pre id. apply quotedAt_not_empty.
  - rewrite FindStringSubmatch_cons.
    destruct (match_here regexExp false EmptyString (String x s)) as [cap|] eqn:E; [done|].
    intros Hf pre id Hq.
    destruct (decide (pre = EmptyString)) as [->|Hne].
    + apply Matches_regexExp, match_here_complete in Hq. rewrite E in Hq. by destruct Hq.
    + destruct (quotedAt_nonempty_pre _ _ _ _ Hq Hne) as (p & -> & Hp).
      by apply (IH Hf p id).
Qed.

Lemma sends_Some t id : sends EmptyString t = Some id → firstQuoted t id.
Proof.
  unfold sends. destruct (_ && _); [|done]. apply FindStringSubmatch_Some.
Qed.

Lemma sends_None t : sends EmptyString t = None → ¬ matching t.
Proof.
  unfold sends, matching, firstQuoted. intros Hs (id & pre & Hq & _).
  destruct t as [|x t]; [by apply quotedAt_not_empty in Hq|].
  rewrite (quotedAt_Contains _ _ _ Hq) in Hs.
  change (nonEmpty (String x t) && negb (nonEmpty EmptyString) && true) with true in Hs.
  cbv iota in Hs.
  by apply (FindStringSubmatch_None _ Hs pre id).
Qed.

Lemma sends_populated id t : id ≠ EmptyString → sends id t = None.
Proof.
  intros Hne. unfold sends. destruct id; [done|]. simpl.
  by rewrite andb_false_r.
Qed.

Lemma sends_empty_or id t v :
  sends id t = Some v → id = EmptyString.
Proof.
  destruct id; [done|]. by rewrite sends_populated.
Qed.

Lemma firstSend_Some toks id :
  firstSend toks = Some id →
  ∃ before line after,
    toks = before ++ line :: after ∧
    Forall (λ l, ¬ matching l) before ∧
    firstQuoted line id.
Proof.
  induction toks as [|t toks IH]; simpl; [done|].
  destruct (sends EmptyString t) as [v|] eqn:E.
  - intros [= ->]. exists [], t, toks. split; [done|]. split; [constructor|].
    by apply sends_Some.
  - intros Hf. destruct (IH Hf) as (before & line & after & -> & Hb & Hq).
    exists (t :: before), line, after. split; [done|]. split; [|done].
    constructor; [by apply sends_None | done].
Qed.

Lemma firstSend_None toks :
  firstSend toks = None → Forall (λ l, ¬ matching l) toks.
Proof.
  induction toks as [|t toks IH]; simpl; [constructor|].
  destruct (sends EmptyString t) as [v|] eqn:E; [done|].
  intros Hf. constructor; [by apply sends_None | by apply IH].
Qed.

End RegexpFacts.

(* ===================================================================== *)
(** * The two flows around the channel *)
(* ===================================================================== *)

Section CorrelatorFacts.
Import Correlator.

Lemma inv_init lines : inv lines (init EmptyString lines).
Proof. left. simpl. auto. Qed.

Lemma inv_step lines st st' : inv lines st → step st st' → inv lines st'.
Proof.
  intros Hinv Hstep. destruct Hstep; simpl in *.
  - (* send *)
    destruct Hinv as [(Hd & Hid & Hm & Hs) | Hinv]; simpl in *; [|by right].
    left. subst id. simpl in Hs. rewrite H in Hs. done.
  - (* skip *)
    destruct Hinv as [(Hd & Hid & Hm & Hs) | Hinv]; simpl in *; [|by right].
    left. subst id. simpl in Hs. rewrite H in Hs. done.
  - (* handoff *)
    destruct Hinv as [(Hd & Hid & Hm & Hs) | (v' & _ & _ & [[? _]|[? _]])];
      simpl in *; try done.
    right. exists v. subst. auto.
  - destruct Hinv as [(Hd & Hid & Hm & Hs) | Hinv]; simpl in *; [|by right].
    left. done.
  - destruct Hinv as [(Hd & Hid & Hm & Hs) | Hinv]; simpl in *; [|by right].
    left. done.
  - destruct Hinv as [(Hd & Hid & Hm & Hs) | (v' & _ & _ & [[? _]|[? _]])];
      simpl in *; try done.
    left. auto.
  - destruct Hinv as [(Hd & Hid & Hm & Hs) | (v' & _ & _ & [[? _]|[? _]])];
      simpl in *; done.
  - destruct Hinv as [(Hd & Hid & Hm & Hs) | (v' & Hd & Hf & [[Hm _]|[? _]])];
      simpl in *; try done.
    + by destruct Hm.
    + injection Hm as ->. right. exists v'. auto.
Qed.

Lemma inv_reachable lines st : reachable EmptyString lines st → inv lines st.
Proof.
  unfold reachable. intros Hr.
  eapply (rtc_ind_r (R:=step) (λ st, inv lines st)); [apply inv_init | | exact Hr].
  intros y z _ Hstep IH. by apply (inv_step lines y z).
Qed.

(** When there is a first send, the two flows can reach the state in which
    the main flow holds it. *)
Lemma run_to_first_send t rest d0 e0 :
  ∀ v, firstSend (t :: rest) = Some v →
  ∃ sc e, rtc step (mkSt (AtToken t rest) Receiving EmptyString d0 e0)
                   (mkSt sc Populated v (d0 ++ [v]) e).
Proof.
  revert t e0. induction rest as [|l rest IH]; intros t e0 v; simpl.
  - destruct (sends EmptyString t) as [w|] eqn:E; [|done]. intros [= ->].
    eexists _, _. eapply rtc_l; [by apply step_send|].
    eapply rtc_l; [apply step_handoff|]. eapply rtc_l; [apply step_store|]. done.
  - destruct (sends EmptyString t) as [w|] eqn:E.
    + intros [= ->]. eexists _, _. eapply rtc_l; [by apply step_send|].
      eapply rtc_l; [apply step_handoff|]. eapply rtc_l; [apply step_store|]. done.
    + intros Hf. destruct (IH l (echo t e0) v Hf) as (sc & e & Hr).
      eexists _, _. eapply rtc_l; [by apply step_skip|].
      eapply rtc_l; [apply step_scan|]. done.
Qed.

End CorrelatorFacts.

(* ===================================================================== *)
(** * Reasoning about the methods *)
(* ===================================================================== *)

Section Monad.
Context {F : Type} `{Float32 F}.
Implicit Types (s : State F) (ks : list kind).

Lemma bind_Ret {A B} (m : M F A) (k : A → M F B) s a s1 :
  m s = (Ret a, s1) → bind m k s = k a s1.
Proof. unfold bind. by intros ->. Qed.

(** How a sequence ends: either its first part returns and the rest runs
    from there, or the first part does not return. *)
Lemma bind_inv {A B} (m : M F A) (k : A → M F B) s o s' :
  bind m k s = (o, s') →
  (∃ a s1, m s = (Ret a, s1) ∧ k a s1 = (o, s')) ∨
  (∃ o1, m s = (o1, s') ∧ (∀ a, o1 ≠ Ret a) ∧
         match o1 with
         | Ret _ => False
         | Fail e => o = Fail e
         | Panic msg => o = Panic msg
         | Hang => o = Hang
         | OutOfFuel => o = OutOfFuel
         end).
Proof.
  unfold bind. destruct (m s) as [[a|e|msg| |] s1]; intros E.
  - left. eauto.
  - right. injection E as <- <-. eexists; split; [done|]. done.
  - right. injection E as <- <-. eexists; split; [done|]. done.
  - right. injection E as <- <-. eexists; split; [done|]. done.
  - right. injection E as <- <-. eexists; split; [done|]. done.
Qed.

Lemma evolves_refl ks s : evolves ks s s.
Proof.
  split; [done|]. split; [done|]. exists []. by rewrite app_nil_r.
Qed.

Lemma evolves_trans ks s1 s2 s3 :
  evolves ks s1 s2 → evolves ks s2 s3 → evolves ks s1 s3.
Proof.
  intros (Hw1 & He1 & evs1 & Ht1 & Hf1) (Hw2 & He2 & evs2 & Ht2 & Hf2).
  split; [congruence|]. split; [congruence|].
  exists (evs1 ++ evs2). rewrite Ht2, Ht1, app_assoc. split; [done|].
  by apply Forall_app.
Qed.

Lemma evolves_weaken ks ks' s s' :
  ks ⊆ ks' → evolves ks s s' → evolves ks' s s'.
Proof.
  intros Hsub (Hw & He & evs & Ht & Hf). split; [done|]. split; [done|].
  exists evs. split; [done|].
  clear Ht. induction Hf as [|e evs' He' _ IH]; constructor; auto.
Qed.

Lemma evolves_event ks s e :
  kindOf e ∈ ks →
  ∀ o n sl g c p,
    evolves ks s (mkState o (world s) n sl g c p (trace s ++ [e])) ↔
    asGiven o = asGiven (options s).
Proof.
  intros Hk o n sl g c p. unfold evolves; simpl. split; [tauto|].
  intros He. split; [done|]. split; [done|]. exists [e]. split; [done|].
  by constructor.
Qed.

Lemma emits_only_weaken {A} ks ks' (m : M F A) :
  ks ⊆ ks' → emits_only ks m → emits_only ks' m.
Proof. intros Hsub Hm s o s' E. eapply evolves_weaken; [done|]. by eapply Hm. Qed.

Lemma emits_only_ret {A} ks (a : A) : emits_only ks (ret (F:=F) a).
Proof. intros s o s' [= <- <-]. apply evolves_refl. Qed.

Lemma emits_only_fail {A} ks e : emits_only ks (fail (F:=F) (A:=A) e).
Proof. intros s o s' [= <- <-]. apply evolves_refl. Qed.

Lemma emits_only_panic {A} ks msg : emits_only ks (panic (F:=F) (A:=A) msg).
Proof. intros s o s' [= <- <-]. apply evolves_refl. Qed.

Lemma emits_only_hang {A} ks : emits_only ks (hang (F:=F) (A:=A)).
Proof. intros s o s' [= <- <-]. apply evolves_refl. Qed.

Lemma emits_only_outOfFuel {A} ks : emits_only ks (outOfFuel (F:=F) (A:=A)).
Proof. intros s o s' [= <- <-]. apply evolves_refl. Qed.

Lemma emits_only_lift {A} ks (x : Outcome A) : emits_only ks (lift (F:=F) x).
Proof. intros s o s' [= <- <-]. apply evolves_refl. Qed.

Lemma emits_only_get_options ks : emits_only ks (get_options (F:=F)).
Proof. intros s o s' [= <- <-]. apply evolves_refl. Qed.

Lemma emits_only_ask ks : emits_only ks (ask (F:=F)).
Proof. intros s o s' [= <- <-]. apply evolves_refl. Qed.

Lemma emits_only_Now ks : emits_only ks (Now (F:=F)).
Proof. intros s o s' [= <- <-]. apply evolves_refl. Qed.

Lemma emits_only_orFail {A} ks (r : A + error) wrap : emits_only ks (orFail (F:=F) r wrap).
Proof. destruct r; [apply emits_only_ret | apply emits_only_fail]. Qed.

Lemma emits_only_failIf ks r wrap : emits_only ks (failIf (F:=F) r wrap).
Proof. destruct r; [apply emits_only_fail | apply emits_only_ret]. Qed.

Lemma emits_only_bind {A B} ks (m : M F A) (k : A → M F B) :
  emits_only ks m → (∀ a, emits_only ks (k a)) → emits_only ks (bind m k).
Proof.
  intros Hm Hk s o s' E.
  apply bind_inv in E as [(a & s1 & E1 & E2) | (o1 & E1 & _)].
  - eapply evolves_trans; [by eapply Hm | by eapply Hk].
  - by eapply Hm.
Qed.

Lemma emits_only_wrapFail {A} ks wrap (m : M F A) :
  emits_only ks m → emits_only ks (wrapFail wrap m).
Proof.
  intros Hm s o s'. unfold wrapFail.
  destruct (m s) as [[a|e|msg| |] s1] eqn:E; intros [= <- <-]; by eapply Hm.
Qed.

Lemma emits_only_withDefer {A} ks (f : M F unit) (m : M F A) :
  emits_only ks f → emits_only ks m → emits_only ks (withDefer f m).
Proof.
  intros Hf Hm s o s'. unfold withDefer.
  destruct (m s) as [[a|e|msg| |] s1] eqn:E; intros [= <- <-];
    try (by eapply Hm);
    (eapply evolves_trans; [by eapply Hm | eapply Hf; apply surjective_pairing]).
Qed.

Lemma emits_only_loop {X} ks fuel cond (body : X → M F X) x :
  (∀ x, emits_only ks (body x)) → emits_only ks (loop fuel cond body x).
Proof.
  intros Hb. revert x. induction fuel as [|fuel IH]; intros x; simpl.
  - destruct (cond x); [apply emits_only_outOfFuel | apply emits_only_ret].
  - destruct (cond x); [|apply emits_only_ret].
    apply emits_only_bind; [apply Hb | apply IH].
Qed.

Lemma emits_only_emitEvent ks e : kindOf e ∈ ks → emits_only ks (emitEvent (F:=F) e).
Proof. intros Hk s o s' [= <- <-]. by apply evolves_event. Qed.

Lemma emits_only_Sleep ks d : KSleep ∈ ks → emits_only ks (Sleep (F:=F) d).
Proof. intros Hk s o s' [= <- <-]. by apply (evolves_event ks s (EvSleep d)). Qed.

Lemma emits_only_GetRayJob ks n : KGetRayJob ∈ ks → emits_only ks (GetRayJob (F:=F) n).
Proof. intros Hk s o s' [= <- <-]. by apply (evolves_event ks s (EvGetRayJob n)). Qed.

Lemma emits_only_GetCluster ks n : KGetCluster ∈ ks → emits_only ks (GetCluster (F:=F) n).
Proof. intros Hk s o s' [= <- <-]. by apply (evolves_event ks s (EvGetCluster n)). Qed.

Lemma emits_only_Do ks : KDo ∈ ks → emits_only ks (Do (F:=F)).
Proof. intros Hk s o s' [= <- <-]. by apply (evolves_event ks s EvDo). Qed.

Lemma emits_only_modify_options ks (f : SubmitJobOptions F → SubmitJobOptions F) :
  (∀ o, asGiven (f o) = asGiven o) → emits_only ks (modify_options f).
Proof.
  intros Hf s o s' [= <- <-]. split; [done|]. split; [apply Hf|].
  exists []. by rewrite app_nil_r.
Qed.

End Monad.

Ltac kind_in := solve [repeat constructor].

Ltac emits_step :=
  lazymatch goal with
  | |- emits_only _ (bind _ _) => apply emits_only_bind; [|intros ?]
  | |- emits_only _ (ret _) => apply emits_only_ret
  | |- emits_only _ (fail _) => apply emits_only_fail
  | |- emits_only _ (panic _) => apply emits_only_panic
  | |- emits_only _ hang => apply emits_only_hang
  | |- emits_only _ outOfFuel => apply emits_only_outOfFuel
  | |- emits_only _ (lift _) => apply emits_only_lift
  | |- emits_only _ get_options => apply emits_only_get_options
  | |- emits_only _ ask => apply emits_only_ask
  | |- emits_only _ Now => apply emits_only_Now
  | |- emits_only _ (orFail _ _) => apply emits_only_orFail
  | |- emits_only _ (failIf _ _) => apply emits_only_failIf
  | |- emits_only _ (wrapFail _ _) => apply emits_only_wrapFail
  | |- emits_only _ (withDefer _ _) => apply emits_only_withDefer
  | |- emits_only _ (loop _ _ _ _) => apply emits_only_loop; intros ?
  | |- emits_only _ (emitEvent _) => apply emits_only_emitEvent; kind_in
  | |- emits_only _ (Sleep _) => apply emits_only_Sleep; kind_in
  | |- emits_only _ (GetRayJob _) => apply emits_only_GetRayJob; kind_in
  | |- emits_only _ (GetCluster _) => apply emits_only_GetCluster; kind_in
  | |- emits_only _ Do => apply emits_only_Do; kind_in
  | |- emits_only _ (modify_options _) => apply emits_only_modify_options; by intros []
  | |- emits_only _ (if ?c then _ else _) => destruct c
  | |- emits_only _ (match ?x with _ => _ end) => destruct x
  end.

Ltac emits := repeat emits_step.

Section Footprints.
Context {F : Type} `{Float32 F}.

Lemma Complete_emits : emits_only [] (Complete (F:=F)).
Proof. unfold Complete. emits. Qed.

Lemma runtimeEnvHasWorkingDir_emits p : emits_only [] (runtimeEnvHasWorkingDir (F:=F) p).
Proof. unfold runtimeEnvHasWorkingDir. emits. Qed.

Lemma Validate_emits : emits_only [] (Validate (F:=F)).
Proof.
  unfold Validate, validateRuntimeEnv, checkStat, validateSubmissionMode,
    validateRuntimeEnvYAML.
  emits; apply runtimeEnvHasWorkingDir_emits.
Qed.

(** The builder leaves the state as it is. *)
Lemma raySubmitCmd_state (s : State F) : snd (raySubmitCmd s) = s.
Proof.
  unfold raySubmitCmd, bind, get_options.
  destruct (shlex.Split (entryPoint (options s))) as [toks [e|]]; reflexivity.
Qed.

Lemma raySubmitCmd_emits ks : emits_only ks (raySubmitCmd (F:=F)).
Proof.
  intros s o s' E. pose proof (raySubmitCmd_state s) as Hs.
  rewrite E in Hs. simpl in Hs. subst s'. apply evolves_refl.
Qed.

Lemma createRayJob_emits : emits_only [KPrint; KCreate] (createRayJob (F:=F)).
Proof. unfold createRayJob, theRayJob, assignRayJob. emits. Qed.

Lemma awaitClusterName_emits fuel :
  emits_only [KGetRayJob; KSleep] (awaitClusterName (F:=F) fuel).
Proof. unfold awaitClusterName, theRayJob, assignRayJob. emits. Qed.

Lemma waitForCluster_emits fuel :
  emits_only [KPrint; KSleep; KGetCluster] (waitForCluster (F:=F) fuel).
Proof. unfold waitForCluster, clusterLoopBody. emits. Qed.

Lemma cleanUpAfterTimeout_emits :
  emits_only [KPrint; KDelete] (cleanUpAfterTimeout (F:=F)).
Proof. unfold cleanUpAfterTimeout, theRayJob. emits. Qed.

Lemma waitForPortForward_emits fuel :
  emits_only [KPrint; KSleep; KDo; KBodyClose] (waitForPortForward (F:=F) fuel).
Proof. unfold waitForPortForward, portforwardLoopBody. emits. Qed.

Lemma submitAndAnnotate_emits :
  emits_only [KPrint; KStart; KGetRayJob; KUpdate; KWait] (submitAndAnnotate (F:=F)).
Proof.
  unfold submitAndAnnotate, awaitJobID, theRayJob, assignRayJob. emits.
  apply raySubmitCmd_emits.
Qed.

End Footprints.

(* ===================================================================== *)
(** * Polling under a deadline *)
(* ===================================================================== *)

Lemma iterationTime_ge w latency i j : pollInterval ≤ iterationTime w latency i j.
Proof. unfold iterationTime. lia. Qed.

Lemma pollInterval_pos : 0 < pollInterval.
Proof. done. Qed.

Lemma elapsedAfter_ge w latency i j k :
  Z.of_nat k * pollInterval ≤ elapsedAfter w latency i j k.
Proof.
  induction k as [|k IH]; simpl elapsedAfter; [lia|].
  pose proof (iterationTime_ge w latency (i + k) (j + k)). lia.
Qed.

Lemma elapsedAfter_mono w latency i j k k' :
  (k ≤ k')%nat → elapsedAfter w latency i j k ≤ elapsedAfter w latency i j k'.
Proof.
  induction 1 as [|k' _ IH]; [lia|]. simpl elapsedAfter.
  pose proof (iterationTime_ge w latency (i + k') (j + k')).
  pose proof pollInterval_pos. lia.
Qed.

(** A loop that has made [k] iterations within a deadline of [t] seconds
    has made fewer than [maxPolls t]. *)
Lemma polls_bound w latency i j k t :
  0 ≤ t → elapsedAfter w latency i j k ≤ t * Second → (S k ≤ maxPolls t)%nat.
Proof.
  intros Ht Hk. pose proof (elapsedAfter_ge w latency i j k) as Hge.
  unfold maxPolls. apply le_n_S.
  assert (Z.of_nat k ≤ (t * Second + pollInterval - 1) / pollInterval); [|lia].
  apply Z.div_le_lower_bound; [done|]. pose proof pollInterval_pos. lia.
Qed.

Section Polling.
Context {F : Type} `{Float32 F}.
Variables (T : Z) (body : bool * Z → M F (bool * Z))
          (fetches : State F → nat) (latency : World → nat → N)
          (verdict : World → nat → option bool).
Hypothesis T_nonneg : 0 ≤ T.
Hypothesis body_Ret : ∀ x s x' s',
  body x s = (Ret x', s') →
  world s' = world s ∧ sleeps s' = S (sleeps s) ∧ fetches s' = S (fetches s) ∧
  now s' = now s + iterationTime (world s) latency (sleeps s) (fetches s) ∧
  snd x' = now s'.
Hypothesis body_fuel : ∀ x s, fst (body x s) ≠ OutOfFuel.
Hypothesis body_verdict : ∀ x s b,
  verdict (world s) (fetches s) = Some b → fst x = false →
  ∃ s', body x s = (Ret (b, now s'), s').

Variable s0 : State F.

#[local] Abbreviation cond := (cond T s0).
#[local] Abbreviation E := (elapsedAfter (world s0) latency (sleeps s0) (fetches s0)).
#[local] Abbreviation J := (pollInv fetches latency s0).

Lemma J_step k x s x' s' :
  J k x s → body x s = (Ret x', s') → J (S k) x' s'.
Proof.
  intros (Hw & Hsl & Hf & Hx & Hn) Hb.
  apply body_Ret in Hb as (Hw' & Hsl' & Hf' & Hn' & Hx').
  unfold pollInv in *. simpl elapsedAfter.
  rewrite Hw', Hsl', Hf', Hx', Hn', Hw, Hsl, Hf, Hn.
  repeat split; lia.
Qed.

Lemma cond_true k x s : J k x s → cond x = true → fst x = false ∧ E k ≤ T * Second.
Proof.
  intros (_ & _ & _ & Hx & Hn). unfold cond, Seconds_le.
  rewrite andb_true_iff, negb_true_iff, Z.leb_le. intros [? ?]. split; [done|lia].
Qed.

Lemma cond_false k x s : J k x s → cond x = false → fst x = true ∨ T * Second < E k.
Proof.
  intros (_ & _ & _ & Hx & Hn). unfold cond, Seconds_le.
  rewrite andb_false_iff, negb_false_iff, Z.leb_gt. intros [? | ?]; [by left | right; lia].
Qed.

Lemma loop_cond_false fuel x s : cond x = false → loop fuel cond body x s = (Ret x, s).
Proof. intros Hc. destruct fuel; simpl; by rewrite Hc. Qed.

Lemma loop_Ret fuel : ∀ k x s x' s',
  J k x s → loop fuel cond body x s = (Ret x', s') →
  ∃ n, J n x' s' ∧ cond x' = false ∧
       (n = k ∧ x' = x ∧ s' = s ∨ ∃ m, n = S m ∧ (k ≤ m)%nat ∧ E m ≤ T * Second).
Proof.
  induction fuel as [|fuel IH]; intros k x s x' s' HJ; simpl;
    destruct (cond x) eqn:Hc.
  - unfold outOfFuel. intros [=].
  - intros [= <- <-]. exists k. split; [done|]. split; [done|]. by left.
  - intros Hl. apply bind_inv in Hl as [(x1 & s1 & Hb & Hl) | (o1 & _ & Hne & Ho)];
      [|by destruct o1].
    destruct (IH (S k) x1 s1 x' s' (J_step _ _ _ _ _ HJ Hb) Hl)
      as (n & HJ' & Hc' & [(-> & _ & _) | (m & -> & Hm & HE)]).
    + exists (S k). split; [done|]. split; [done|]. right. exists k.
      split; [done|]. split; [lia|]. by apply (cond_true k x s).
    + exists (S m). split; [done|]. split; [done|]. right. exists m.
      split; [done|]. split; [lia | done].
  - intros [= <- <-]. exists k. split; [done|]. split; [done|]. by left.
Qed.

Lemma loop_terminates fuel : ∀ k x s,
  J k x s → (maxPolls T ≤ fuel + k)%nat →
  fst (loop fuel cond body x s) ≠ OutOfFuel.
Proof.
  induction fuel as [|fuel IH]; intros k x s HJ Hf; simpl;
    destruct (cond x) eqn:Hc.
  - destruct (cond_true k x s HJ Hc) as [_ HE].
    pose proof (polls_bound _ _ _ _ _ _ T_nonneg HE). lia.
  - done.
  - unfold bind. pose proof (body_fuel x s) as Hbf.
    destruct (body x s) as [[x1| | | |] s1] eqn:Hb; simpl; try done.
    apply (IH (S k)); [by eapply J_step | lia].
  - done.
Qed.

Lemma verdict_at k x s :
  J k x s → verdict (world s) (fetches s) = verdict (world s0) (fetches s0 + k).
Proof. by intros (-> & _ & -> & _). Qed.

Lemma loop_ready fuel : ∀ k n x s,
  J k x s → fst x = false → (k ≤ n)%nat →
  (∀ j, (k ≤ j < n)%nat → verdict (world s0) (fetches s0 + j) = Some false) →
  verdict (world s0) (fetches s0 + n) = Some true →
  E n ≤ T * Second → (n - k < fuel)%nat →
  ∃ s', loop fuel cond body x s = (Ret (true, now s'), s') ∧
        J (S n) (true, now s') s'.
Proof.
  induction fuel as [|fuel IH]; intros k n x s HJ Hx Hkn Hfalse Htrue HE Hfuel; [lia|].
  simpl. assert (cond x = true) as ->.
  { destruct HJ as (_ & _ & _ & Hsx & Hn). unfold cond, Seconds_le.
    rewrite Hx. simpl. apply Z.leb_le.
    pose proof (elapsedAfter_mono (world s0) latency (sleeps s0) (fetches s0) k n Hkn).
    lia. }
  destruct (decide (k = n)) as [->|Hne].
  - destruct (body_verdict x s true) as (s1 & Hbody); [|done|].
    { by rewrite (verdict_at n x s). }
    rewrite (bind_Ret _ _ _ _ _ Hbody), loop_cond_false; [|done].
    exists s1. split; [done|]. by eapply J_step.
  - destruct (body_verdict x s false) as (s1 & Hbody); [|done|].
    { rewrite (verdict_at k x s); [|done]. apply Hfalse. lia. }
    rewrite (bind_Ret _ _ _ _ _ Hbody).
    apply (IH (S k)); try done; try lia.
    + by eapply J_step.
    + intros j Hj. apply Hfalse. lia.
Qed.

(** When the fetch [n] makes the body end without returning, after only
    negative verdicts, the loop ends the same way at that fetch. *)
Lemma loop_aborts fuel (o : Outcome (bool * Z)) : ∀ k n x s,
  J k x s → fst x = false → (k ≤ n)%nat →
  (∀ j, (k ≤ j < n)%nat → verdict (world s0) (fetches s0 + j) = Some false) →
  E n ≤ T * Second → (n - k < fuel)%nat →
  (∀ a, o ≠ Ret a) →
  (∀ x s, J n x s → fst x = false →
          fst (body x s) = o ∧ fetches (snd (body x s)) = S (fetches s)) →
  ∃ s', loop fuel cond body x s = (o, s') ∧ fetches s' = (fetches s0 + S n)%nat.
Proof.
  induction fuel as [|fuel IH]; intros k n x s HJ Hx Hkn Hfalse HE Hfuel Ho Hbody; [lia|].
  simpl. assert (cond x = true) as ->.
  { destruct HJ as (_ & _ & _ & Hsx & Hn). unfold cond, Seconds_le.
    rewrite Hx. simpl. apply Z.leb_le.
    pose proof (elapsedAfter_mono (world s0) latency (sleeps s0) (fetches s0) k n Hkn).
    lia. }
  destruct (decide (k = n)) as [->|Hne].
  - destruct (Hbody x s HJ Hx) as [Hout Hf]. unfold bind.
    destruct (body x s) as [o1 s1]. simpl in *. subst o1.
    exists s1. destruct HJ as (_ & _ & Hfs & _).
    split; [|lia]. destruct o; congruence.
  - destruct (body_verdict x s false) as (s1 & Hb); [|done|].
    { rewrite (verdict_at k x s); [|done]. apply Hfalse. lia. }
    rewrite (bind_Ret _ _ _ _ _ Hb).
    apply (IH (S k) n); try done; try lia.
    + by eapply J_step.
    + intros j Hj. apply Hfalse. lia.
Qed.

Lemma loop_never fuel : ∀ k x s,
  J k x s → fst x = false →
  (∀ j, (k ≤ j)%nat → verdict (world s0) (fetches s0 + j) = Some false) →
  (maxPolls T ≤ fuel + k)%nat →
  ∃ t s', loop fuel cond body x s = (Ret (false, t), s').
Proof.
  induction fuel as [|fuel IH]; intros k x s HJ Hx Hfalse Hfuel; simpl;
    destruct (cond x) eqn:Hc.
  - destruct (cond_true k x s HJ Hc) as [_ HE].
    pose proof (polls_bound _ _ _ _ _ _ T_nonneg HE). lia.
  - destruct x as [b t]. simpl in Hx. subst b. eauto.
  - destruct (body_verdict x s false) as (s1 & Hbody); [|done|].
    { rewrite (verdict_at k x s); [|done]. apply Hfalse. lia. }
    rewrite (bind_Ret _ _ _ _ _ Hbody).
    apply (IH (S k)); try done; try lia.
    + by eapply J_step.
    + intros j Hj. apply Hfalse. lia.
  - destruct x as [b t]. simpl in Hx. subst b. eauto.
Qed.

Lemma J_init : J 0 (false, now s0) s0.
Proof. unfold pollInv. simpl. repeat split; lia. Qed.

(** What the loop has done when it returns. *)
Theorem poll_returns fuel ready t s' :
  loop fuel cond body (false, now s0) s0 = (Ret (ready, t), s') →
  ∃ n, (1 ≤ n ≤ maxPolls T)%nat ∧
       world s' = world s0 ∧
       fetches s' = (fetches s0 + n)%nat ∧
       sleeps s' = (sleeps s0 + n)%nat ∧
       t = now s' ∧
       now s' - now s0 = E n ∧
       E (n - 1) ≤ T * Second ∧
       (ready = false → T * Second < E n).
Proof.
  intros Hl. destruct (loop_Ret fuel 0 _ _ _ _ J_init Hl)
    as (n & HJ & Hc & [(-> & Hx & _) | (m & -> & _ & HE)]).
  - injection Hx as -> ->. unfold cond, Seconds_le in Hc. simpl in Hc.
    rewrite Z.sub_diag in Hc. apply Z.leb_gt in Hc.
    unfold Second in Hc. lia.
  - exists (S m). pose proof (polls_bound _ _ _ _ _ _ T_nonneg HE).
    destruct HJ as (Hw & Hsl & Hf & Hx & Hn). simpl in Hx.
    replace (S m - 1)%nat with m by lia.
    repeat split; try done; try lia.
    intros ->. by destruct (cond_false (S m) (false, t) s') as [?|?].
Qed.

End Polling.

Section Loops.
Context {F : Type} `{Float32 F}.
Implicit Types (s : State F).

Lemma clusterLoopBody_Ret x s x' s' :
  clusterLoopBody x s = (Ret x', s') →
  world s' = world s ∧ sleeps s' = S (sleeps s) ∧
  getClusters s' = S (getClusters s) ∧
  now s' = now s + iterationTime (world s) w_GetClusterTime (sleeps s) (getClusters s) ∧
  snd x' = now s'.
Proof.
  unfold clusterLoopBody, bind, Sleep, get_options, GetCluster, orFail, lift,
    emitEvent, Now, ret, fail, iterationTime. simpl.
  destruct (w_GetCluster (world s) (getClusters s)) as [c|e]; [|done].
  destruct (isRayClusterReady c) as [[b [e|]]| | | |]; try done;
    intros [= <- <-]; simpl; repeat split; lia.
Qed.

Lemma clusterLoopBody_fuel x s : fst (clusterLoopBody x s) ≠ OutOfFuel.
Proof.
  unfold clusterLoopBody, bind, Sleep, get_options, GetCluster, orFail, lift,
    emitEvent, Now, ret, fail. simpl.
  destruct (w_GetCluster (world s) (getClusters s)) as [c|e]; [|done].
  unfold isRayClusterReady, andThen, assertMap.
  destruct (valueAt (Object c) "status"); try done.
  match goal with |- context [if ?b then _ else _] => destruct b end; done.
Qed.

Lemma clusterLoopBody_verdict x s b :
  clusterVerdict (world s) (getClusters s) = Some b → fst x = false →
  ∃ s', clusterLoopBody x s = (Ret (b, now s'), s').
Proof.
  unfold clusterVerdict, clusterLoopBody, bind, Sleep, get_options, GetCluster,
    orFail, lift, emitEvent, Now, ret, fail. simpl.
  destruct (w_GetCluster (world s) (getClusters s)) as [c|e]; [|done].
  destruct (isRayClusterReady c) as [[b' [e|]]| | | |]; try done;
    intros [= <-] _; simpl;
    match goal with |- ∃ s', (_, ?st) = _ => by exists st end.
Qed.

Lemma portforwardLoopBody_Ret x s x' s' :
  portforwardLoopBody x s = (Ret x', s') →
  world s' = world s ∧ sleeps s' = S (sleeps s) ∧
  probes s' = S (probes s) ∧
  now s' = now s + iterationTime (world s) w_DoTime (sleeps s) (probes s) ∧
  snd x' = now s'.
Proof.
  unfold portforwardLoopBody, bind, Sleep, Do, emitEvent, Now, ret, panic,
    iterationTime. simpl.
  destruct (w_Do (world s) (probes s)) as [[resp|] [e|]]; try done;
    intros [= <- <-]; simpl; repeat split; lia.
Qed.

Lemma portforwardLoopBody_fuel x s : fst (portforwardLoopBody x s) ≠ OutOfFuel.
Proof.
  unfold portforwardLoopBody, bind, Sleep, Do, emitEvent, Now, ret, panic. simpl.
  destruct (w_Do (world s) (probes s)) as [[resp|] [e|]]; done.
Qed.

Lemma portforwardLoopBody_verdict x s b :
  probeVerdict (world s) (probes s) = Some b → fst x = false →
  ∃ s', portforwardLoopBody x s = (Ret (b, now s'), s').
Proof.
  unfold probeVerdict, portforwardLoopBody, bind, Sleep, Do, emitEvent, Now,
    ret, panic. simpl.
  destruct (w_Do (world s) (probes s)) as [[resp|] [e|]]; try done;
    simpl; intros [= <-] ->;
    destruct ((200 <=? StatusCode resp) && (StatusCode resp <? 300));
    match goal with |- ∃ s', (_, ?st) = _ => by exists st end.
Qed.

(** [waitForCluster] is its loop, run after two lines are printed. *)
Lemma waitForCluster_loop fuel s :
  waitForCluster fuel s =
  let s1 := logged s (clusterBanner s) in
  match loop fuel (cond clusterTimeout s1) clusterLoopBody (false, now s1) s1 with
  | (Ret x, s') => (Ret (fst x), s')
  | (Fail e, s') => (Fail e, s')
  | (Panic msg, s') => (Panic msg, s')
  | (Hang, s') => (Hang, s')
  | (OutOfFuel, s') => (OutOfFuel, s')
  end.
Proof.
  unfold waitForCluster, bind at 1 2 3 4, Now, get_options, emitEvent. simpl.
  rewrite <- app_assoc. simpl. unfold bind, ret, logged, clusterBanner. simpl.
  reflexivity.
Qed.

Lemma waitForPortForward_loop fuel s :
  waitForPortForward fuel s =
  match w_NewRequest (world s) with
  | Some e =>
      (Fail (Wrap "Error occurred when trying to create request to probe cluster endpoint: " e), s)
  | None =>
      let s1 := logged s probeBanner in
      match loop fuel (cond portforwardtimeout s1) portforwardLoopBody (false, now s1) s1 with
      | (Ret x, s') => (Ret (fst x), s')
      | (Fail e, s') => (Fail e, s')
      | (Panic msg, s') => (Panic msg, s')
      | (Hang, s') => (Hang, s')
      | (OutOfFuel, s') => (OutOfFuel, s')
      end
  end.
Proof.
  unfold waitForPortForward, bind at 1 2 3 4, ask, Now, failIf, emitEvent. simpl.
  destruct (w_NewRequest (world s)); [reflexivity|]. simpl.
  unfold bind, ret, logged, probeBanner. simpl. reflexivity.
Qed.

Lemma poll_intro (T : Z) (body : bool * Z → M F (bool * Z))
  (fetches : State F → nat) latency verdict (pre : State F → Prop)
  (run : nat → M F bool) (banner : State F → list Event) :
  0 ≤ T →
  (∀ x s x' s', body x s = (Ret x', s') →
     world s' = world s ∧ sleeps s' = S (sleeps s) ∧ fetches s' = S (fetches s) ∧
     now s' = now s + iterationTime (world s) latency (sleeps s) (fetches s) ∧
     snd x' = now s') →
  (∀ x s, fst (body x s) ≠ OutOfFuel) →
  (∀ x s b, verdict (world s) (fetches s) = Some b → fst x = false →
     ∃ s', body x s = (Ret (b, now s'), s')) →
  (∀ s evs, fetches (logged s evs) = fetches s) →
  (∀ fuel s,
     (pre s ∧
      run fuel s =
      match loop fuel (cond T (logged s (banner s))) body (false, now s)
              (logged s (banner s)) with
      | (Ret x, s') => (Ret (fst x), s')
      | (Fail e, s') => (Fail e, s')
      | (Panic msg, s') => (Panic msg, s')
      | (Hang, s') => (Hang, s')
      | (OutOfFuel, s') => (OutOfFuel, s')
      end) ∨
     (¬ pre s ∧ ∃ e s', run fuel s = (Fail e, s'))) →
  pollsUntilDeadline T fetches latency verdict pre run.
Proof.
  intros HT Hret Hfuel Hver Hfetch Hrun fuel s E.
  set (s1 := logged s (banner s)).
  assert (fetches s1 = fetches s) as Hf1 by apply Hfetch.
  assert (E = elapsedAfter (world s1) latency (sleeps s1) (fetches s1)) as HE.
  { unfold E. by rewrite Hf1. }
  destruct (Hrun fuel s) as [[Hpre ->] | [Hnpre (e & s' & ->)]]; fold s1.
  2: { split; [done|]. split; [done|]. split; intros; done. }
  split; [|split; [|split]].
  - intros Hm.
    pose proof (loop_terminates T body fetches latency HT Hret Hfuel s1 fuel 0
                  (false, now s1) s1 (J_init _ _ _) ltac:(lia)) as Hterm.
    change (now s) with (now s1).
    destruct (loop fuel (cond T s1) body (false, now s1) s1) as [[x| | | |] s2]; done.
  - intros ready s'. change (now s) with (now s1).
    destruct (loop fuel (cond T s1) body (false, now s1) s1) as [[[r t]| | | |] s2] eqn:Hl;
      try done.
    intros [= <- <-]. simpl.
    destruct (poll_returns T body fetches latency HT Hret s1 fuel r t s2 Hl)
      as (n & Hn & Hw & Hf & Hsl & Ht & Hnow & Hlast & Htimeout).
    exists n. split; [done|]. split; [congruence|].
    change (now s1) with (now s) in Hnow. split; [by rewrite HE|].
    intros ->. specialize (Htimeout eq_refl). split; [by rewrite Hnow|].
    rewrite Hnow. destruct n as [|m]; [lia|].
    replace (S m - 1)%nat with m in * by lia. simpl elapsedAfter.
    change (world s1) with (world s) in *. change (sleeps s1) with (sleeps s) in *.
    rewrite Hf1 in *. lia.
  - intros _ Hnever Hm. change (now s) with (now s1).
    destruct (loop_never T body fetches latency verdict HT Hret Hver s1 fuel 0
                (false, now s1) s1 (J_init _ _ _) eq_refl) as (t & s' & ->).
    + intros j _. rewrite Hf1. apply Hnever.
    + lia.
    + eauto.
  - intros _ n Hfalse Htrue HEn Hn. change (now s) with (now s1).
    destruct (loop_ready T body fetches latency verdict Hret Hver s1 fuel 0 n
                (false, now s1) s1 (J_init _ _ _) eq_refl ltac:(lia)) as (s' & -> & HJ).
    + intros j Hj. rewrite Hf1. apply Hfalse. lia.
    + by rewrite Hf1.
    + by rewrite <- HE.
    + lia.
    + exists s'. split; [done|]. destruct HJ as (_ & _ & -> & _). rewrite Hf1. lia.
Qed.

End Loops.

Lemma clusterTimeout_nonneg : 0 ≤ clusterTimeout.
Proof. done. Qed.

Lemma portforwardtimeout_nonneg : 0 ≤ portforwardtimeout.
Proof. done. Qed.

Ltac state_eq :=
  repeat match goal with
         | |- (_, _) = (_, _) => f_equal
         | |- Ret _ = Ret _ => f_equal
         | |- mkState _ _ _ _ _ _ _ _ = mkState _ _ _ _ _ _ _ _ => f_equal
         | |- @eq Z _ _ => lia
         | |- @eq (list Event) _ _ => by rewrite <- ?app_assoc, ?append_assoc
         end.

Section Deadlines.
Context {F : Type} `{Float32 F}.
Implicit Types (s : State F).

Lemma waitForCluster_polls :
  pollsUntilDeadline (F:=F) clusterTimeout getClusters w_GetClusterTime clusterVerdict
    (λ _, True) waitForCluster.
Proof.
  apply (poll_intro clusterTimeout clusterLoopBody getClusters w_GetClusterTime
           clusterVerdict (λ _, True) waitForCluster clusterBanner).
  - apply clusterTimeout_nonneg.
  - apply clusterLoopBody_Ret.
  - apply clusterLoopBody_fuel.
  - apply clusterLoopBody_verdict.
  - done.
  - intros fuel s. left. split; [done|]. apply waitForCluster_loop.
Qed.

Lemma waitForPortForward_polls :
  pollsUntilDeadline (F:=F) portforwardtimeout probes w_DoTime probeVerdict
    (λ s, w_NewRequest (world s) = None) waitForPortForward.
Proof.
  apply (poll_intro portforwardtimeout portforwardLoopBody probes w_DoTime
           probeVerdict _ waitForPortForward (λ _, probeBanner)).
  - apply portforwardtimeout_nonneg.
  - apply portforwardLoopBody_Ret.
  - apply portforwardLoopBody_fuel.
  - apply portforwardLoopBody_verdict.
  - done.
  - intros fuel s. rewrite waitForPortForward_loop.
    destruct (w_NewRequest (world s)) as [e|]; [right | left]; eauto.
Qed.

(** A fetch or a probe that makes the body of a loop end without
    returning ends the loop, and so the method, at that fetch. *)
Lemma waitForCluster_aborts fuel s n (o : Outcome (bool * Z)) (o' : Outcome bool) :
  (∀ j, (j < n)%nat → clusterVerdict (world s) (getClusters s + j) = Some false) →
  elapsedAfter (world s) w_GetClusterTime (sleeps s) (getClusters s) n
    ≤ clusterTimeout * Second →
  (n < fuel)%nat →
  (∀ x s1, world s1 = world s → getClusters s1 = (getClusters s + n)%nat →
           fst (clusterLoopBody x s1) = o ∧
           getClusters (snd (clusterLoopBody x s1)) = S (getClusters s1)) →
  match o, o' with
  | Fail e, Fail e' => e = e'
  | Panic m, Panic m' => m = m'
  | _, _ => False
  end →
  ∃ s', waitForCluster fuel s = (o', s') ∧ getClusters s' = (getClusters s + S n)%nat.
Proof.
  intros Hfalse HE Hfuel Hbody Ho. rewrite waitForCluster_loop. cbv zeta.
  set (s1 := logged s (clusterBanner s)).
  destruct (loop_aborts clusterTimeout clusterLoopBody getClusters w_GetClusterTime
              clusterVerdict clusterLoopBody_Ret clusterLoopBody_verdict s1 fuel o
              0 n (false, now s1) s1 (J_init _ _ _) eq_refl ltac:(lia))
    as (s' & -> & Hf).
  - intros j Hj. apply Hfalse. lia.
  - done.
  - lia.
  - intros a ->. by destruct o'.
  - intros x s2 (Hw & _ & Hg & _) _. by apply Hbody.
  - destruct o, o'; try done; subst; by exists s'.
Qed.

Lemma waitForPortForward_aborts fuel s n (o : Outcome (bool * Z)) (o' : Outcome bool) :
  w_NewRequest (world s) = None →
  (∀ j, (j < n)%nat → probeVerdict (world s) (probes s + j) = Some false) →
  elapsedAfter (world s) w_DoTime (sleeps s) (probes s) n
    ≤ portforwardtimeout * Second →
  (n < fuel)%nat →
  (∀ x s1, world s1 = world s → probes s1 = (probes s + n)%nat →
           fst (portforwardLoopBody x s1) = o ∧
           probes (snd (portforwardLoopBody x s1)) = S (probes s1)) →
  match o, o' with
  | Fail e, Fail e' => e = e'
  | Panic m, Panic m' => m = m'
  | _, _ => False
  end →
  ∃ s', waitForPortForward fuel s = (o', s') ∧ probes s' = (probes s + S n)%nat.
Proof.
  intros Hreq Hfalse HE Hfuel Hbody Ho. rewrite waitForPortForward_loop, Hreq. cbv zeta.
  set (s1 := logged s probeBanner).
  destruct (loop_aborts portforwardtimeout portforwardLoopBody probes w_DoTime
              probeVerdict portforwardLoopBody_Ret portforwardLoopBody_verdict s1 fuel o
              0 n (false, now s1) s1 (J_init _ _ _) eq_refl ltac:(lia))
    as (s' & -> & Hf).
  - intros j Hj. apply Hfalse. lia.
  - done.
  - lia.
  - intros a ->. by destruct o'.
  - intros x s2 (Hw & _ & Hg & _) _. by apply Hbody.
  - destruct o, o'; try done; subst; by exists s'.
Qed.

(** The body of the cluster loop when the fetch fails. *)
Lemma clusterLoopBody_fetch_error x s e :
  w_GetCluster (world s) (getClusters s) = inr e →
  clusterLoopBody x s =
  (Fail (Wrap "Failed to get cluster information with error: " e),
   mkState (options s) (world s)
     (now s + iterationTime (world s) w_GetClusterTime (sleeps s) (getClusters s))
     (S (sleeps s)) (getRayJobs s) (S (getClusters s)) (probes s)
     (trace s ++ [EvSleep pollInterval; EvGetCluster (cluster (options s))])).
Proof.
  intros He. unfold clusterLoopBody, bind, Sleep, get_options, GetCluster, orFail,
    fail, iterationTime. simpl. rewrite He. simpl. state_eq.
Qed.

(** The body of the cluster loop when the predicate returns an error. *)
Lemma clusterLoopBody_undetermined x s c err :
  w_GetCluster (world s) (getClusters s) = inl c →
  isRayClusterReady c = Ret (false, Some err) →
  clusterLoopBody x s =
  (Ret (false, now s + iterationTime (world s) w_GetClusterTime (sleeps s) (getClusters s)),
   mkState (options s) (world s)
     (now s + iterationTime (world s) w_GetClusterTime (sleeps s) (getClusters s))
     (S (sleeps s)) (getRayJobs s) (S (getClusters s)) (probes s)
     (trace s ++ [EvSleep pollInterval; EvGetCluster (cluster (options s));
                  EvPrint ("Cluster is not ready: " +:+ Error err +:+ nl)])).
Proof.
  intros Hc Hr. unfold clusterLoopBody, bind, Sleep, get_options, GetCluster, orFail,
    lift, emitEvent, Now, ret, iterationTime. simpl. rewrite Hc. simpl. rewrite Hr. simpl.
  state_eq.
Qed.

(** The body of the cluster loop when the predicate panics. *)
Lemma clusterLoopBody_panic x s c msg :
  w_GetCluster (world s) (getClusters s) = inl c →
  isRayClusterReady c = Panic msg →
  fst (clusterLoopBody x s) = Panic msg ∧
  getClusters (snd (clusterLoopBody x s)) = S (getClusters s).
Proof.
  intros Hc Hr. unfold clusterLoopBody, bind, Sleep, get_options, GetCluster, orFail,
    lift, ret. simpl. rewrite Hc. simpl. by rewrite Hr.
Qed.

(** The body of the tunnel loop when the probe has no response. *)
Lemma portforwardLoopBody_no_response x s err :
  fst (w_Do (world s) (probes s)) = None →
  snd (w_Do (world s) (probes s)) = Some err →
  portforwardLoopBody x s =
  (Panic "invalid memory address or nil pointer dereference",
   mkState (options s) (world s)
     (now s + iterationTime (world s) w_DoTime (sleeps s) (probes s))
     (S (sleeps s)) (getRayJobs s) (getClusters s) (S (probes s))
     (trace s ++ [EvSleep pollInterval; EvDo;
                  EvPrint ("Error occurred when waiting for portforwarding: "
                           +:+ Error err +:+ nl)])).
Proof.
  unfold portforwardLoopBody, bind, Sleep, Do, emitEvent, panic, iterationTime. simpl.
  destruct (w_Do (world s) (probes s)) as [r e]. simpl. intros -> ->. simpl.
  state_eq.
Qed.

End Deadlines.

(* ===================================================================== *)
(** * The readiness predicate (C6) *)
(* ===================================================================== *)

(** With a status that is a map, the predicate is the disjunction of its
    two signals, the conditions counting only as a Go slice of
    conditions. *)
Lemma isRayClusterReady_with_status (c : Unstructured) (status : gmap string value) :
  Object c !! "status" = Some (VMap status) →
  isRayClusterReady c =
  if match asConditions (valueAt status "conditions") with
     | Some cs => IsStatusConditionTrue cs "Ready"
     | None => false
     end
     || match asString (valueAt status "state") with
        | Some st => String.eqb st "ready"
        | None => false
        end
  then Ret (true, None)
  else Ret (false, Some (New "Cannot determine cluster state")).
Proof.
  intros Hs.
  assert (valueAt (Object c) "status" = VMap status) as Hv.
  { unfold valueAt. by rewrite Hs. }
  unfold isRayClusterReady. rewrite Hv. unfold andThen, assertMap.
  destruct (asConditions (valueAt status "conditions")) as [cs|];
    destruct (asString (valueAt status "state")) as [st|];
    try destruct (IsStatusConditionTrue cs "Ready");
    try destruct (String.eqb st "ready"); reflexivity.
Qed.

(** C6 (the code departs from the claim).  The predicate does not return
    false with the undetermined-state error whenever neither signal is
    there, and does not return true whenever the Ready condition is true:
    for a cluster without a status it panics, in the loop too, and for a
    cluster as the API server returns it, with a true Ready condition in
    its decoded conditions and the state pending, it returns false with
    the error; only conditions held as a Go slice of conditions count. *)
Theorem isRayClusterReady_misses_signals :
  isRayClusterReady Examples.rayClusterNoStatus
    = Panic "interface conversion: interface {} is nil, not map[string]interface {}" ∧
  fst (waitForCluster 61 (Examples.validated Examples.statusPending))
    = Panic "interface conversion: interface {} is nil, not map[string]interface {}" ∧
  isRayClusterReady Examples.rayClusterDecoded
    = Ret (false, Some (New "Cannot determine cluster state")) ∧
  fst (Run 61 (Examples.validated Examples.readyByCondition))
    = Fail (New "Timed out waiting for cluster") ∧
  isRayClusterReady Examples.rayClusterTyped = Ret (true, None).
Proof. repeat split; vm_compute; reflexivity. Qed.

(* ===================================================================== *)
(** * The probe of the tunnel (C4) *)
(* ===================================================================== *)

(** C4 (the code departs from the claim).  A transport error of the probe
    is printed, but the probe is not retried: the response is nil and the
    read of its status code panics.  Here the connection is refused at the
    first probe, 2 seconds into a deadline of 60: the loop, and [Run] with
    it, end in a nil pointer dereference after that one probe. *)
Theorem probe_transport_error_panics :
  let r := waitForPortForward 31 (Examples.validated Examples.refused) in
  fst r = Panic "invalid memory address or nil pointer dereference" ∧
  probes (snd r) = 1%nat ∧
  now (snd r) = pollInterval ∧
  newEvents (Examples.validated Examples.refused) (snd r) =
    [EvPrint "Waiting for portforwarding...";
     EvSleep pollInterval; EvDo;
     EvPrint ("Error occurred when waiting for portforwarding: "
              +:+ "dial tcp 127.0.0.1:8265: connect: connection refused" +:+ nl)] ∧
  fst (Run 61 (Examples.validated Examples.refused))
    = Panic "invalid memory address or nil pointer dereference".
Proof. repeat split; vm_compute; reflexivity. Qed.

(* ===================================================================== *)
(** * Errors of the fetches (C3) *)
(* ===================================================================== *)

(** C3 as stated fails: the first fetch of the cluster returns an error, 2
    seconds into a deadline of 120; the error is not printed and the fetch
    is not repeated, it ends the loop as a failure of [Run]. *)
Lemma readiness_fetch_error_not_retried :
  let r := waitForCluster 61 (Examples.validated Examples.fetchFails) in
  fst r = Fail (Wrap "Failed to get cluster information with error: "
                  (New "connection refused")) ∧
  getClusters (snd r) = 1%nat ∧
  now (snd r) = pollInterval ∧
  now (snd r) < clusterTimeout * Second ∧
  newEvents (Examples.validated Examples.fetchFails) (snd r) =
    clusterBanner (Examples.validated Examples.fetchFails)
    ++ [EvSleep pollInterval; EvGetCluster EmptyString].
Proof. repeat split; vm_compute; reflexivity. Qed.

(** The loop that waits for the status of the RayJob, when its fetch
    fails. *)
Lemma awaitClusterName_fetch_error {F} `{Float32 F} (fuel : nat) (s : State F)
  (rayJob : Unstructured) (e : error) :
  RayJob (options s) = Some rayJob →
  nonEmpty (GetName rayJob) = true →
  valueAt (Object rayJob) "status" = VNil →
  w_GetRayJob (world s) (getRayJobs s) = inr e →
  (0 < fuel)%nat →
  ∃ s', awaitClusterName fuel s = (Fail (New "Failed to get Ray Job status"), s') ∧
        getRayJobs s' = S (getRayJobs s).
Proof.
  intros Hj Hn Hst He Hfuel. destruct fuel as [|fuel]; [lia|].
  unfold awaitClusterName. cbn [loop].
  unfold theRayJob, assignRayJob, GetRayJob, bind, get_options,
    modify_options, orFail, ret, fail.
  rewrite Hj, Hn, Hst. cbn [isNil]. cbv beta iota. simpl.
  rewrite He. eexists. split; reflexivity.
Qed.

(** C3 (amended).  In the loop that waits for the cluster, an error of the
    fetch of the cluster ends [Run] at once, at whichever fetch it comes:
    it is wrapped and returned, and no further fetch is made, just as an
    error of the fetch in the loop that waits for the status of the RayJob
    does.  What is printed and retried is the error of the readiness
    predicate. *)
Theorem readiness_fetch_error_is_fatal {F} `{Float32 F}
  (fuel : nat) (s : State F) (e : error) :
  (* an error at the fetch n, reached after negative verdicts *)
  (∀ n,
     (∀ j, (j < n)%nat → clusterVerdict (world s) (getClusters s + j) = Some false) →
     elapsedAfter (world s) w_GetClusterTime (sleeps s) (getClusters s) n
       ≤ clusterTimeout * Second →
     (n < fuel)%nat →
     w_GetCluster (world s) (getClusters s + n) = inr e →
     ∃ s', waitForCluster fuel s
             = (Fail (Wrap "Failed to get cluster information with error: " e), s') ∧
           getClusters s' = (getClusters s + S n)%nat) ∧
  (* an error of the predicate: printed, and the loop goes on *)
  (∀ x c err,
     w_GetCluster (world s) (getClusters s) = inl c →
     isRayClusterReady c = Ret (false, Some err) →
     ∃ s', clusterLoopBody x s = (Ret (false, now s'), s') ∧
           newEvents s s' =
             [EvSleep pollInterval; EvGetCluster (cluster (options s));
              EvPrint ("Cluster is not ready: " +:+ Error err +:+ nl)]) ∧
  (* an error of the fetch of the RayJob, while its status is awaited *)
  (∀ rayJob,
     RayJob (options s) = Some rayJob →
     nonEmpty (GetName rayJob) = true →
     valueAt (Object rayJob) "status" = VNil →
     w_GetRayJob (world s) (getRayJobs s) = inr e →
     (0 < fuel)%nat →
     ∃ s', awaitClusterName fuel s = (Fail (New "Failed to get Ray Job status"), s') ∧
           getRayJobs s' = S (getRayJobs s)).
Proof.
  split; [|split].
  - intros n Hfalse HE Hfuel He.
    apply (waitForCluster_aborts fuel s n
             (Fail (Wrap "Failed to get cluster information with error: " e)));
      try done.
    intros x s1 Hw Hg. rewrite (clusterLoopBody_fetch_error x s1 e); [done|].
    by rewrite Hw, Hg.
  - intros x c err Hc Hr. rewrite (clusterLoopBody_undetermined x s c err Hc Hr).
    match goal with |- ∃ s', (_, ?st) = _ ∧ _ => exists st end.
    split; [reflexivity|]. unfold newEvents. simpl.
    by rewrite drop_app_length.
  - intros rayJob. apply awaitClusterName_fetch_error.
Qed.

(** At the inputs of the examples: the third fetch of a cluster that is
    still pending fails. *)
Lemma readiness_fetch_error_is_fatal_witness :
  ∃ s', waitForCluster 61 (Examples.validated Examples.failsAtThird)
          = (Fail (Wrap "Failed to get cluster information with error: "
                     (New "connection refused")), s') ∧
        getClusters s' = 3%nat.
Proof.
  destruct (readiness_fetch_error_is_fatal 61
              (Examples.validated Examples.failsAtThird) (New "connection refused"))
    as [Hfetch _].
  apply (Hfetch 2%nat).
  - intros [|[|j]] Hj; [reflexivity | reflexivity | lia].
  - vm_compute. discriminate.
  - lia.
  - reflexivity.
Defined.

(* ===================================================================== *)
(** * The deadlines of the two loops (C8) *)
(* ===================================================================== *)

(** C8 as stated fails: the overrun is not bounded by one poll interval.
    The cluster never becomes ready and each of its fetches takes a
    second: the loop gives up 123 seconds after it started, 3 seconds
    after the deadline of 120, the interval being 2. *)
Lemma overrun_exceeds_one_interval :
  let s := Examples.validated Examples.neverReadySlow in
  let r := waitForCluster 61 s in
  fst r = Ret false ∧
  now (snd r) - now s = 123 * Second ∧
  clusterTimeout * Second + pollInterval < now (snd r) - now s.
Proof. repeat split; vm_compute; reflexivity. Qed.

(** C8 (amended).  Both loops, with the deadlines of 120 and of 60
    seconds, satisfy [pollsUntilDeadline]: given fuel for 61 (resp. 31)
    iterations the loop ends; when it returns it has fetched at least
    once and at most 61 (resp. 31) times; when it returns "not ready" the
    time elapsed exceeds the deadline, by no more than the time of its last
    iteration, which is the poll interval, what the sleep oversleeps and
    the time of the fetch; when the predicate never holds it returns "not
    ready"; and when the predicate first holds at a fetch whose iteration
    starts within the deadline, it returns "ready" right after that
    fetch. *)
Theorem poll_loops_deadline {F} `{Float32 F} :
  pollsUntilDeadline (F:=F) clusterTimeout getClusters w_GetClusterTime
    clusterVerdict (λ _, True) waitForCluster ∧
  pollsUntilDeadline (F:=F) portforwardtimeout probes w_DoTime
    probeVerdict (λ s, w_NewRequest (world s) = None) waitForPortForward ∧
  maxPolls clusterTimeout = 61%nat ∧
  maxPolls portforwardtimeout = 31%nat.
Proof.
  split; [apply waitForCluster_polls|].
  split; [apply waitForPortForward_polls|].
  split; reflexivity.
Qed.

(** At the inputs of the examples: the cluster is ready at its fourth
    fetch, 8 seconds in, and the tunnel never answers with a 2xx status. *)
Lemma poll_loops_deadline_witness :
  (∃ s', waitForCluster 61 (Examples.validated Examples.calm) = (Ret true, s') ∧
         getClusters s' = 4%nat) ∧
  (∃ s', waitForPortForward 31 (Examples.validated Examples.neverReachable)
           = (Ret false, s')).
Proof.
  destruct (poll_loops_deadline (F:=Z)) as (Hcluster & Htunnel & _).
  split.
  - destruct (Hcluster 61%nat (Examples.validated Examples.calm))
      as (_ & _ & _ & Hready).
    apply (Hready I 3%nat).
    + intros [|[|[|j]]] Hj; [reflexivity | reflexivity | reflexivity | lia].
    + reflexivity.
    + vm_compute. discriminate.
    + lia.
  - destruct (Htunnel 31%nat (Examples.validated Examples.neverReachable))
      as (_ & _ & Hnever & _).
    apply Hnever.
    + reflexivity.
    + intros j. reflexivity.
    + vm_compute. lia.
Defined.

(* ===================================================================== *)
(** * The command builder (C7, C9) *)
(* ===================================================================== *)

Lemma appendIf_flag (c : bool) (cmd args : list string) :
  appendIf c cmd args = cmd ++ flag c args.
Proof. destruct c; simpl; [done | by rewrite app_nil_r]. Qed.

Section ShlexFacts.
Import shlex.

Lemma ClassifyRune_quote (c : ascii) :
  ClassifyRune c = nonEscapingQuoteRuneClass ↔ c = "'"%char.
Proof.
  unfold ClassifyRune. split.
  - repeat match goal with
           | |- context [Ascii.eqb c ?x] => destruct (Ascii.eqb_spec c x); simpl
           end; try done.
  - intros ->. reflexivity.
Qed.

Lemma scan_quoting_cons ty v c rest :
  scan quotingState ty v (String c rest) =
  match ClassifyRune c with
  | nonEscapingQuoteRuneClass => scan inWordState ty v rest
  | _ => scan quotingState ty (snoc v c) rest
  end.
Proof. reflexivity. Qed.

(** Inside single quotes everything up to the closing quote is taken as
    it is. *)
Lemma scan_quoting (w : string) : ∀ ty v rest,
  free_of "'" w →
  scan quotingState ty v (w +:+ String "'" rest) = scan inWordState ty (v +:+ w) rest.
Proof.
  induction w as [|x w IH]; intros ty v rest Hfree; sapp.
  - rewrite scan_quoting_cons. by rewrite append_nil_r.
  - destruct Hfree as [Hx Hw]. rewrite scan_quoting_cons.
    rewrite (IH ty (snoc v x) rest Hw). unfold snoc. rewrite append_assoc. sapp.
    destruct (ClassifyRune x) eqn:Hc; try reflexivity.
    by apply ClassifyRune_quote in Hc.
Qed.

(** A quote that is not closed is an error. *)
Lemma scan_quoting_eof (w : string) : ∀ ty v,
  free_of "'" w →
  scan quotingState ty v w = ([], Some (New "EOF found when expecting closing quote")).
Proof.
  induction w as [|x w IH]; intros ty v Hfree; [reflexivity|].
  destruct Hfree as [Hx Hw]. rewrite scan_quoting_cons.
  rewrite (IH ty (snoc v x) Hw).
  destruct (ClassifyRune x) eqn:Hc; try reflexivity.
  by apply ClassifyRune_quote in Hc.
Qed.

Lemma scan_quoted_word ty v w rest :
  free_of "'" w →
  scan startState ty v (quoted w +:+ rest) = scan inWordState WordToken w rest.
Proof.
  intros Hfree. unfold quoted. sapp.
  change (scan startState ty v (String "'" ((w +:+ "'") +:+ rest)))
    with (scan quotingState WordToken EmptyString ((w +:+ "'") +:+ rest)).
  rewrite append_assoc. sapp. by rewrite scan_quoting.
Qed.

Lemma Join_cons_cons (a b : string) (l : list string) sep :
  Join (a :: b :: l) sep = a +:+ sep +:+ Join (b :: l) sep.
Proof. reflexivity. Qed.

(** Arguments written between single quotes come out as they are, one
    token each, whatever spaces they contain. *)
Lemma Split_quoted (words : list string) : ∀ ty v,
  Forall (free_of "'") words →
  scan startState ty v (Join (List.map quoted words) " ") = (words, None).
Proof.
  induction words as [|w [|w' ws] IH]; intros ty v Hall.
  - reflexivity.
  - inversion Hall as [|? ? Hw _]; subst. simpl List.map. simpl Join.
    rewrite <- (append_nil_r (quoted w)), scan_quoted_word; [|done]. reflexivity.
  - inversion Hall as [|? ? Hw Hrest]; subst.
    change (List.map quoted (w :: w' :: ws))
      with (quoted w :: quoted w' :: List.map quoted ws).
    rewrite Join_cons_cons, scan_quoted_word; [|done]. sapp.
    change (scan inWordState WordToken w (String " " (Join (quoted w' :: List.map quoted ws) " ")))
      with (emit WordToken w
              (scan startState WordToken EmptyString (Join (List.map quoted (w' :: ws)) " "))).
    by rewrite IH.
Qed.

(** The same arguments followed by one whose quote is not closed: a parse
    error. *)
Lemma Split_unclosed (words : list string) (w : string) : ∀ ty v,
  Forall (free_of "'") words → free_of "'" w →
  scan startState ty v (Join (List.map quoted words ++ ["'" +:+ w]) " ")
  = (words, Some (New "EOF found when expecting closing quote")).
Proof.
  induction words as [|w0 ws IH]; intros ty v Hall Hw.
  - simpl List.map. simpl app. simpl Join. sapp.
    change (scan startState ty v (String "'" w))
      with (scan quotingState WordToken EmptyString w).
    by rewrite scan_quoting_eof.
  - inversion Hall as [|? ? Hw0 Hrest]; subst.
    change (List.map quoted (w0 :: ws) ++ ["'" +:+ w])
      with (quoted w0 :: (List.map quoted ws ++ ["'" +:+ w])).
    destruct (List.map quoted ws ++ ["'" +:+ w]) as [|b l] eqn:El.
    { by destruct (List.map quoted ws). }
    rewrite Join_cons_cons, scan_quoted_word; [|done]. sapp.
    change (scan inWordState WordToken w0 (String " " (Join (b :: l) " ")))
      with (emit WordToken w0 (scan startState WordToken EmptyString (Join (b :: l) " "))).
    by rewrite IH.
Qed.

End ShlexFacts.

(** The vector that the builder returns. *)
Lemma raySubmitCmd_eq {F} `{Float32 F} (s : State F) :
  raySubmitCmd s =
  (match shlex.Split (entryPoint (options s)) with
   | (entryPointSanitized, None) =>
       Ret (["ray"; "job"; "submit"; "--address"; dashboardAddr]
            ++ flag (nonEmpty (runtimeEnv (options s)))
                 ["--runtime-env"; runtimeEnv (options s)]
            ++ flag (nonEmpty (runtimeEnvJson (options s)))
                 ["--runtime-env-json"; runtimeEnvJson (options s)]
            ++ flag (nonEmpty (submissionID (options s)))
                 ["--submission-id"; submissionID (options s)]
            ++ flag (f32_gt_zero (entryPointCPU (options s)))
                 ["--entrypoint-num-cpus"; f32_format (entryPointCPU (options s))]
            ++ flag (f32_gt_zero (entryPointGPU (options s)))
                 ["--entrypoint-num-gpus"; f32_format (entryPointGPU (options s))]
            ++ flag (0 <? entryPointMemory (options s))
                 ["--entrypoint-memory"; format_int (entryPointMemory (options s))]
            ++ flag (nonEmpty (entryPointResource (options s)))
                 ["--entrypoint-resource"; entryPointResource (options s)]
            ++ flag (nonEmpty (metadataJson (options s)))
                 ["--metadata-json"; metadataJson (options s)]
            ++ flag (noWait (options s)) ["--no-wait"]
            ++ flag (nonEmpty (headers (options s))) ["--headers"; headers (options s)]
            ++ flag (nonEmpty (verify (options s))) ["--verify"; verify (options s)]
            ++ flag (nonEmpty (logStyle (options s))) ["--log-style"; logStyle (options s)]
            ++ flag (nonEmpty (logColor (options s))) ["--log-color"; logColor (options s)]
            ++ ["--working-dir"; workingDir (options s)]
            ++ ["--"]
            ++ entryPointSanitized)
   | (_, Some err) => Fail err
   end, s).
Proof.
  unfold raySubmitCmd, bind, get_options. cbv zeta.
  destruct (shlex.Split (entryPoint (options s))) as [toks [err|]]; [reflexivity|].
  unfold ret. rewrite !appendIf_flag, <- !app_assoc. reflexivity.
Qed.

(** C9.  The builder is pure.  It leaves the state as it is: the options,
    the world, the clock and the trace, so that it causes no event; its
    result is the same in two states with the same options; and called
    twice in a row it returns the same vector twice, or fails the first
    time. *)
Theorem raySubmitCmd_is_pure {F} `{Float32 F} (s : State F) :
  snd (raySubmitCmd s) = s ∧
  (∀ s2 : State F, options s2 = options s →
                   fst (raySubmitCmd s2) = fst (raySubmitCmd s)) ∧
  (let* a := raySubmitCmd in let* b := raySubmitCmd in ret (a, b)) s =
  (match fst (raySubmitCmd s) with
   | Ret a => Ret (a, a)
   | Fail e => Fail e
   | Panic msg => Panic msg
   | Hang => Hang
   | OutOfFuel => OutOfFuel
   end, s).
Proof.
  split; [apply raySubmitCmd_state|]. split.
  - intros s2 Ho. rewrite !raySubmitCmd_eq, Ho. reflexivity.
  - pose proof (raySubmitCmd_state s) as Hs.
    destruct (raySubmitCmd s) as [o s1] eqn:E. simpl in Hs. subst s1.
    unfold bind. rewrite E. destruct o; try reflexivity. by rewrite E.
Qed.

(** At the inputs of the examples: before and after a whole run, whose
    states differ in all but the options the builder reads. *)
Lemma raySubmitCmd_is_pure_witness :
  fst (raySubmitCmd (Examples.initial Examples.refused Examples.goodOptions))
  = fst (raySubmitCmd (Examples.initial Examples.calm Examples.goodOptions)).
Proof.
  destruct (raySubmitCmd_is_pure (Examples.initial Examples.calm Examples.goodOptions))
    as (_ & Hsame & _).
  apply Hsame. reflexivity.
Defined.

(* ===================================================================== *)
(** * Run, phase by phase *)
(* ===================================================================== *)

Ltac kind_in_allBut := unfold allBut, allKinds; simpl; solve [repeat constructor].

Ltac kinds_subset :=
  let k := fresh "k" in
  let Hk := fresh "Hk" in
  intros k Hk;
  repeat (apply elem_of_cons in Hk as [->|Hk]; [kind_in_allBut|]);
  by apply elem_of_nil in Hk.

Ltac kind_not_in :=
  let Hk := fresh "Hk" in
  intros Hk;
  repeat (apply elem_of_cons in Hk as [Hk|Hk]; [discriminate Hk|]);
  by apply elem_of_nil in Hk.

Section RunFacts.
Context {F : Type} `{Float32 F}.
Implicit Types (s : State F).

Lemma bind_Ret_inv {A B} (m : M F A) (k : A → M F B) s b s' :
  bind m k s = (Ret b, s') →
  ∃ a s1, m s = (Ret a, s1) ∧ k a s1 = (Ret b, s').
Proof.
  intros E. apply bind_inv in E as [(a & s1 & E1 & E2) | (o1 & _ & _ & Ho)]; [eauto|].
  by destruct o1.
Qed.

Lemma evolves_newEvents ks s s' :
  evolves ks s s' → Forall (λ e, kindOf e ∈ ks) (newEvents s s').
Proof.
  intros (_ & _ & evs & Ht & Hf). unfold newEvents.
  by rewrite Ht, drop_app_length.
Qed.

Lemma evolves_no_event ks s s' e :
  evolves ks s s' → kindOf e ∉ ks → e ∉ newEvents s s'.
Proof.
  intros Hev Hk Hin. apply evolves_newEvents in Hev.
  induction Hev as [|e' evs He' _ IH]; [by apply elem_of_nil in Hin|].
  apply elem_of_cons in Hin as [->|Hin]; auto.
Qed.

Lemma evolves_nil s s' : evolves [] s s' → trace s' = trace s.
Proof.
  intros (_ & _ & evs & Ht & Hf). destruct Hf as [|e evs He _].
  - by rewrite app_nil_r in Ht.
  - by apply elem_of_nil in He.
Qed.

(** A loop keeps what each turn of its body keeps. *)
Lemma loop_preserves {X} (P : State F → Prop) fuel cond (body : X → M F X) :
  (∀ x s o s', P s → body x s = (o, s') → P s') →
  ∀ x s o s', P s → loop fuel cond body x s = (o, s') → P s'.
Proof.
  intros Hb. induction fuel as [|fuel IH]; intros x s o s' HP; simpl;
    destruct (cond x).
  - by intros [= <- <-].
  - by intros [= <- <-].
  - intros E. apply bind_inv in E as [(x1 & s1 & E1 & E2) | (o1 & E1 & _)].
    + eapply IH; [|exact E2]. by eapply Hb.
    + by eapply Hb.
  - by intros [= <- <-].
Qed.

(** A loop that returns has kept what each returning turn keeps. *)
Lemma loop_Ret_preserves {X} (P : X → State F → Prop) fuel cond (body : X → M F X) :
  (∀ x s x' s', P x s → body x s = (Ret x', s') → P x' s') →
  ∀ x s x' s', P x s → loop fuel cond body x s = (Ret x', s') → P x' s'.
Proof.
  intros Hb. induction fuel as [|fuel IH]; intros x s x' s' HP; simpl;
    destruct (cond x).
  - by intros [=].
  - by intros [= <- <-].
  - intros E. apply bind_Ret_inv in E as (x1 & s1 & E1 & E2).
    eapply IH; [|exact E2]. by eapply Hb.
  - by intros [= <- <-].
Qed.

Lemma createRayJob_Ret s s1 :
  createRayJob s = (Ret tt, s1) →
  ∃ rayJob created,
    RayJob (options s) = Some rayJob ∧
    w_Create (world s) rayJob = inl created ∧
    RayJob (options s1) = Some created ∧
    trace s1 = trace s ++ [EvCreate rayJob;
                           EvPrint ("Submitted RayJob " +:+ GetName created +:+ "." +:+ nl)].
Proof.
  unfold createRayJob, theRayJob, assignRayJob, bind, ask, failIf, get_options,
    emitEvent, modify_options, orFail, ret, fail, panic.
  destruct (w_NewClient (world s)); [done|].
  destruct (RayJob (options s)) as [rayJob|]; [|done]. simpl.
  destruct (w_Create (world s) rayJob) as [created|e] eqn:Hc; [|done]. simpl.
  intros [= <-]. exists rayJob, created. simpl. by rewrite <- app_assoc.
Qed.




Lemma cleanUpAfterTimeout_eq s rayJob :
  RayJob (options s) = Some rayJob →
  cleanUpAfterTimeout s =
  match w_Delete (world s) with
  | None =>
      (Fail (New "Timed out waiting for cluster"),
       logged s [EvPrint ("Deleting RayJob..." +:+ nl);
                 EvDelete (GetName rayJob);
                 EvPrint ("Cleaned Up RayJob: " +:+ GetName rayJob +:+ nl)])
  | Some e =>
      (Fail (Wrap "Failed to clean up ray job after time out.: " e),
       logged s [EvPrint ("Deleting RayJob..." +:+ nl); EvDelete (GetName rayJob)])
  end.
Proof.
  intros Hj.
  unfold cleanUpAfterTimeout, theRayJob, bind, ask, get_options, emitEvent, failIf,
    ret, fail, logged. rewrite Hj. simpl.
  destruct (w_Delete (world s)); simpl; by rewrite <- !app_assoc.
Qed.

(** [cleanUpAfterTimeout] never ends well. *)
Lemma cleanUpAfterTimeout_outcome s o s' :
  cleanUpAfterTimeout s = (o, s') →
  o = Fail (New "Timed out waiting for cluster") ∨
  (∃ e, o = Fail (Wrap "Failed to clean up ray job after time out.: " e)) ∨
  (∃ msg, o = Panic msg).
Proof.
  destruct (RayJob (options s)) as [rayJob|] eqn:Hj.
  - rewrite (cleanUpAfterTimeout_eq s rayJob Hj).
    destruct (w_Delete (world s)); intros [= <- <-]; eauto.
  - unfold cleanUpAfterTimeout, theRayJob, bind, ask, get_options, panic.
    rewrite Hj. intros [= <- <-]. eauto.
Qed.

Lemma connectAndSubmit_emits fuel :
  emits_only (allBut KDelete) (connectAndSubmit (F:=F) fuel).
Proof.
  unfold connectAndSubmit. emits.
  - eapply emits_only_weaken; [|apply waitForPortForward_emits].
    kinds_subset.
  - eapply emits_only_weaken; [|apply submitAndAnnotate_emits].
    kinds_subset.
Qed.

End RunFacts.

(* ===================================================================== *)
(** * The compensating delete (C2) *)
(* ===================================================================== *)

Section Compensation.
Context {F : Type} `{Float32 F}.
Implicit Types (s : State F).

(** How a run of [Run] goes: through its first three phases and into one
    of the two branches, or it ends in one of the three phases. *)
Lemma Run_phases fuel s o s' :
  Run fuel s = (o, s') →
  (∃ sa sb ready sc,
     createRayJob s = (Ret tt, sa) ∧
     awaitClusterName fuel sa = (Ret tt, sb) ∧
     waitForCluster fuel sb = (Ret ready, sc) ∧
     (if ready then connectAndSubmit fuel sc else cleanUpAfterTimeout sc) = (o, s')) ∨
  (evolves [KPrint; KCreate; KGetRayJob; KSleep; KGetCluster] s s' ∧ ∀ a, o ≠ Ret a).
Proof.
  unfold Run. intros E.
  pose proof (createRayJob_emits (F:=F)) as H1.
  pose proof (awaitClusterName_emits (F:=F) fuel) as H2.
  pose proof (waitForCluster_emits (F:=F) fuel) as H3.
  assert ([KPrint; KCreate] ⊆ [KPrint; KCreate; KGetRayJob; KSleep; KGetCluster]) as S1
    by kinds_subset.
  assert ([KGetRayJob; KSleep] ⊆ [KPrint; KCreate; KGetRayJob; KSleep; KGetCluster]) as S2
    by kinds_subset.
  assert ([KPrint; KSleep; KGetCluster]
            ⊆ [KPrint; KCreate; KGetRayJob; KSleep; KGetCluster]) as S3
    by kinds_subset.
  apply bind_inv in E as [([] & sa & Ea & E) | (o1 & Ea & Hne & Ho)].
  2: { right. split; [eapply evolves_weaken; [exact S1 | by eapply H1]|].
       intros a ->. by destruct o1. }
  apply bind_inv in E as [([] & sb & Eb & E) | (o1 & Eb & Hne & Ho)].
  2: { right. split.
       - eapply evolves_trans; eapply evolves_weaken; [exact S1 | by eapply H1 | exact S2 | by eapply H2].
       - intros a ->. by destruct o1. }
  apply bind_inv in E as [(ready & sc & Ec & E) | (o1 & Ec & Hne & Ho)].
  2: { right. split.
       - eapply evolves_trans; [eapply evolves_weaken; [exact S1 | by eapply H1]|].
         eapply evolves_trans; eapply evolves_weaken; [exact S2 | by eapply H2 | exact S3 | by eapply H3].
       - intros a ->. by destruct o1. }
  left. exists sa, sb, ready, sc. repeat split; try done. by destruct ready.
Qed.



End Compensation.


(* ===================================================================== *)
(** * Validate (C5, C10) *)
(* ===================================================================== *)

Section Validation.
Context {F : Type} `{Float32 F}.
Implicit Types (s : State F).

Lemma nonEmpty_true (x : string) : nonEmpty x = true ↔ x ≠ EmptyString.
Proof. destruct x; simpl; split; done. Qed.

Lemma valueAt_VMap (m : gmap string value) key (sub : gmap string value) :
  valueAt m key = VMap sub ↔ m !! key = Some (VMap sub).
Proof.
  unfold valueAt. destruct (m !! key) as [v|]; simpl; split; try done.
  - by intros ->.
  - by intros [= ->].
Qed.

Lemma validateSubmissionMode_Ret (rayJob : Unstructured) s s' :
  validateSubmissionMode rayJob s = (Ret tt, s') → s' = s ∧ acceptedMode rayJob.
Proof.
  unfold validateSubmissionMode, bind, lift, assertMap, acceptedMode.
  destruct (valueAt (Object rayJob) "spec") as [| | | |spec| |] eqn:Hspec; try done.
  apply valueAt_VMap in Hspec.
  destruct (spec !! "submissionMode") as [[| | |m| | |]|] eqn:Hmode; try done.
  simpl. destruct (String.eqb_spec m "InteractiveMode") as [->|]; [|done].
  intros [= <-]. eauto.
Qed.

Lemma validateRuntimeEnvYAML_Ret (rayJob : Unstructured) s s' :
  validateRuntimeEnvYAML rayJob s = (Ret tt, s') →
  RayJob (options s') = RayJob (options s) ∧
  workingDir (options s') = workingDir (options s).
Proof.
  unfold validateRuntimeEnvYAML, bind, ask, get_options, lift, orFail,
    modify_options, ret, fail.
  destruct (assertMap (valueAt (Object rayJob) "spec")) as [spec| | | |]; try done.
  destruct (asString (valueAt spec "runtimeEnvYAML")) as [y|]; [|by intros [= <-]].
  destruct (_ && _); [|by intros [= <-]].
  destruct (w_YAMLToJSON (world s) y); [|done]. by intros [= <-].
Qed.

Lemma checkStat_Ret r a b s s' :
  checkStat r a b s = (Ret tt, s') → s' = s ∧ r = StatInfo true.
Proof.
  unfold checkStat, fail, ret. destruct r as [e|e|[|]]; try done.
  by intros [= <-].
Qed.

Lemma validateRuntimeEnv_emits : emits_only [] (validateRuntimeEnv (F:=F)).
Proof.
  unfold validateRuntimeEnv, checkStat. emits. apply runtimeEnvHasWorkingDir_emits.
Qed.

(** What [Validate] has established when it returns no error. *)
Lemma Validate_Ret s s' :
  Validate s = (Ret tt, s') →
  ∃ rayJob wd,
    RayJob (options s') = Some rayJob ∧ acceptedMode rayJob ∧
    wd ≠ EmptyString ∧ workingDir (options s') = w_Clean (world s) wd.
Proof.
  unfold Validate. intros E.
  apply bind_Ret_inv in E as (w & sa & Ea & E). injection Ea as <- <-.
  apply bind_Ret_inv in E as (ctx & sb & Eb & E).
  assert (sb = s) as ->.
  { unfold orFail in Eb. destruct (w_RawConfig (world s)); [by injection Eb|done]. }
  clear Eb. destruct (negb (nonEmpty ctx)); [done|].
  apply bind_Ret_inv in E as ([] & s1 & E1 & E).
  apply bind_Ret_inv in E as (o1 & sc & Ec & E). injection Ec as <- <-.
  apply bind_Ret_inv in E as ([] & sd & Ed & E).
  apply checkStat_Ret in Ed as [-> _].
  apply bind_Ret_inv in E as ([] & s2 & E2 & E).
  apply bind_Ret_inv in E as (rayJob & se & Ee & E).
  assert (se = s2 ∧ RayJob (options s2) = Some rayJob) as [-> Hj].
  { unfold modify_options in E2. injection E2 as <-. unfold orFail in Ee.
    destruct (w_decodeRayJobYaml (world s) (fileName (options s1))); [|done].
    by injection Ee as <- <-. }
  clear Ee. apply bind_Ret_inv in E as ([] & sf & Ef & E).
  apply validateSubmissionMode_Ret in Ef as [-> Hmode].
  apply bind_Ret_inv in E as ([] & s3 & E3 & E).
  apply validateRuntimeEnvYAML_Ret in E3 as [Hj3 Hwd3].
  apply bind_Ret_inv in E as (o3 & sg & Eg & E). injection Eg as <- <-.
  destruct (nonEmpty (workingDir (options s3))) eqn:Hwd; [|done]. simpl in E.
  unfold modify_options in E. injection E as <-. simpl.
  exists rayJob, (workingDir (options s3)). rewrite Hj3, Hj.
  repeat split; try done. by apply nonEmpty_true.
Qed.

(** A runtime env file without a string at [working_dir]. *)
Lemma Validate_runtime_env_panic s ctx m :
  w_RawConfig (world s) = inl ctx → nonEmpty ctx = true →
  nonEmpty (runtimeEnv (options s)) = true →
  w_Stat (world s) (runtimeEnv (options s)) = StatInfo true →
  w_ReadYaml (world s) (runtimeEnv (options s)) = inl m →
  asString (valueAt m "working_dir") = None →
  ∃ msg, Validate s = (Panic msg, s).
Proof.
  intros Hc Hctx Henv Hstat Hread Hdir.
  unfold Validate, validateRuntimeEnv, runtimeEnvHasWorkingDir, checkStat, wrapFail,
    bind, ask, get_options, orFail, lift, ret.
  rewrite Hc, Hctx. simpl. rewrite Henv, Hstat. simpl. rewrite Hread.
  destruct (valueAt m "working_dir"); try done; simpl; eauto.
Qed.

(** A RayJob file without a mapping at [spec]. *)
Lemma Validate_spec_panic s s1 ctx rayJob :
  w_RawConfig (world s) = inl ctx → nonEmpty ctx = true →
  validateRuntimeEnv s = (Ret tt, s1) →
  w_Stat (world s) (fileName (options s1)) = StatInfo true →
  w_decodeRayJobYaml (world s) (fileName (options s1)) = inl rayJob →
  (∀ spec, valueAt (Object rayJob) "spec" ≠ VMap spec) →
  ∃ msg s', Validate s = (Panic msg, s').
Proof.
  intros Hc Hctx Henv Hstat Hdec Hspec.
  pose proof (validateRuntimeEnv_emits s _ s1 Henv) as (Hw & _).
  unfold Validate.
  erewrite bind_Ret; [|reflexivity].
  erewrite bind_Ret; [|rewrite Hc; reflexivity].
  rewrite Hctx. cbv beta iota delta [negb].
  rewrite (bind_Ret _ _ _ _ _ Henv).
  erewrite bind_Ret; [|reflexivity].
  erewrite bind_Ret; [|rewrite Hstat; reflexivity].
  erewrite bind_Ret; [|reflexivity].
  erewrite bind_Ret; [|unfold modify_options; simpl; rewrite Hdec; reflexivity].
  unfold bind, validateSubmissionMode, bind, lift, assertMap.
  destruct (valueAt (Object rayJob) "spec") as [| | | |spec| |] eqn:E; eauto.
  by destruct (Hspec spec).
Qed.

(** C10.  [Validate] panics, and returns no error, once the kubeconfig has
    a current context, (1) when the runtime env file is a regular file
    that parses to a map with no string at [working_dir], be the key
    absent or its value of another type, and (2) when, after the runtime
    env file is dealt with, the RayJob file is a regular file that decodes
    to an object with no mapping at [spec], be the key absent or its value
    of another type. *)
Theorem Validate_panics (s : State F) (ctx : string) :
  w_RawConfig (world s) = inl ctx → nonEmpty ctx = true →
  (∀ m,
     nonEmpty (runtimeEnv (options s)) = true →
     w_Stat (world s) (runtimeEnv (options s)) = StatInfo true →
     w_ReadYaml (world s) (runtimeEnv (options s)) = inl m →
     asString (valueAt m "working_dir") = None →
     ∃ msg, Validate s = (Panic msg, s)) ∧
  (∀ s1 rayJob,
     validateRuntimeEnv s = (Ret tt, s1) →
     w_Stat (world s) (fileName (options s1)) = StatInfo true →
     w_decodeRayJobYaml (world s) (fileName (options s1)) = inl rayJob →
     (∀ spec, valueAt (Object rayJob) "spec" ≠ VMap spec) →
     ∃ msg s', Validate s = (Panic msg, s')).
Proof.
  intros Hc Hctx. split.
  - intros m. by apply Validate_runtime_env_panic with (ctx := ctx).
  - intros s1 rayJob. by apply Validate_spec_panic with (ctx := ctx).
Qed.

End Validation.

(** At the inputs of the examples: a runtime env file that only lists pip
    packages, and a RayJob file that has only metadata. *)
Lemma Validate_panics_witness :
  (∃ msg, Validate (Examples.initial Examples.runtimeEnvWithoutDir
                      (Examples.optionsWith "env.yaml" "python x.py"))
          = (Panic msg, Examples.initial Examples.runtimeEnvWithoutDir
                          (Examples.optionsWith "env.yaml" "python x.py"))) ∧
  (∃ msg s', Validate (Examples.initial Examples.rayJobWithoutSpec Examples.goodOptions)
             = (Panic msg, s')).
Proof.
  split.
  - destruct (Validate_panics
                (Examples.initial Examples.runtimeEnvWithoutDir
                   (Examples.optionsWith "env.yaml" "python x.py")) "kind-kind")
      as [Henv _]; [reflexivity | reflexivity |].
    apply (Henv {[ "pip" := VSlice [VString "requests"] ]}); reflexivity.
  - destruct (Validate_panics
                (Examples.initial Examples.rayJobWithoutSpec Examples.goodOptions)
                "kind-kind")
      as [_ Hspec]; [reflexivity | reflexivity |].
    apply (Hspec (Examples.initial Examples.rayJobWithoutSpec Examples.goodOptions)
             (mkUnstructured
                {[ "metadata" := VMap {[ "name" := VString "rayjob-sample" ]} ]}));
      try reflexivity.
    intros spec. vm_compute. discriminate.
Defined.

(* ===================================================================== *)
(** * When the errors of configuration surface (C5, C7) *)
(* ===================================================================== *)

Section Malformed.
Context {F : Type} `{Float32 F}.
Implicit Types (s : State F).

Lemma malformed_evolves ks s s' : evolves ks s s' → malformed s → malformed s'.
Proof.
  intros (_ & Hg & _) Hm. unfold malformed, asGiven in *.
  injection Hg as -> _. done.
Qed.

Lemma never_returns_bind_l {A B} ks (m : M F A) (k : A → M F B) :
  never_returns ks m → never_returns ks (bind m k).
Proof.
  intros Hm s o s' Hs E.
  apply bind_inv in E as [(a & s1 & E1 & E2) | (o1 & E1 & Hne & Ho)].
  - destruct (Hm s _ s1 Hs E1) as [Hret _]. by destruct (Hret a).
  - destruct (Hm s _ s' Hs E1) as [_ Hev]. split; [|done].
    intros b ->. by destruct o1.
Qed.

Lemma never_returns_bind_r {A B} ks (m : M F A) (k : A → M F B) :
  emits_only ks m → (∀ a, never_returns ks (k a)) → never_returns ks (bind m k).
Proof.
  intros Hm Hk s o s' Hs E.
  apply bind_inv in E as [(a & s1 & E1 & E2) | (o1 & E1 & Hne & Ho)].
  - pose proof (Hm s _ s1 E1) as Hev1.
    destruct (Hk a s1 o s' (malformed_evolves _ _ _ Hev1 Hs) E2) as [Hret Hev2].
    split; [done|]. by eapply evolves_trans.
  - split; [|by eapply Hm]. intros b ->. by destruct o1.
Qed.

Lemma never_returns_fail {A} ks e : never_returns ks (fail (F:=F) (A:=A) e).
Proof. intros s o s' _ [= <- <-]. split; [done | apply evolves_refl]. Qed.

Lemma never_returns_withDefer {A} ks (f : M F unit) (m : M F A) :
  emits_only ks f → never_returns ks m → never_returns ks (withDefer f m).
Proof.
  intros Hf Hm s o s' Hs. unfold withDefer.
  destruct (m s) as [o1 s1] eqn:E. destruct (Hm s o1 s1 Hs E) as [Hret Hev].
  destruct o1; intros [= <- <-]; try done;
    (split; [done|]; eapply evolves_trans; [done|]; eapply Hf; apply surjective_pairing).
Qed.

(** The submission ends at the builder when the entrypoint does not
    tokenize. *)
Lemma submitAndAnnotate_malformed s :
  malformed s →
  ∃ e, snd (shlex.Split (entryPoint (options s))) = Some e ∧
       submitAndAnnotate s
       = (Fail (Wrap "failed to create Ray submit command with error: " e), s).
Proof.
  unfold malformed. intros Hm.
  destruct (shlex.Split (entryPoint (options s))) as [toks [e|]] eqn:E; [|done].
  exists e. split; [done|].
  unfold submitAndAnnotate, bind at 1, ask. unfold bind at 1, wrapFail.
  rewrite raySubmitCmd_eq, E. reflexivity.
Qed.

Lemma submitAndAnnotate_never_returns ks : never_returns ks (submitAndAnnotate (F:=F)).
Proof.
  intros s o s' Hs E. destruct (submitAndAnnotate_malformed s Hs) as (e & _ & E').
  rewrite E' in E. injection E as <- <-. split; [done | apply evolves_refl].
Qed.

Lemma connectAndSubmit_never_returns fuel :
  never_returns (allBut KStart) (connectAndSubmit (F:=F) fuel).
Proof.
  unfold connectAndSubmit.
  apply never_returns_bind_r; [emits | intros w].
  apply never_returns_bind_r; [emits | intros o].
  apply never_returns_bind_r; [apply emits_only_emitEvent; kind_in_allBut | intros _].
  apply never_returns_bind_r; [emits | intros svcName].
  apply never_returns_withDefer; [apply emits_only_emitEvent; kind_in_allBut|].
  apply never_returns_bind_r; [apply emits_only_emitEvent; kind_in_allBut | intros _].
  apply never_returns_bind_r; [apply emits_only_emitEvent; kind_in_allBut | intros _].
  apply never_returns_bind_r; [|intros ready].
  { eapply emits_only_weaken; [|apply waitForPortForward_emits]. kinds_subset. }
  destruct (negb ready); [apply never_returns_fail|].
  apply never_returns_bind_r; [apply emits_only_emitEvent; kind_in_allBut | intros _].
  apply submitAndAnnotate_never_returns.
Qed.

(** With an entrypoint that does not tokenize, [Run] returns an error or
    panics, and no process is started. *)
Lemma Run_never_returns fuel : never_returns (allBut KStart) (Run (F:=F) fuel).
Proof.
  intros s o s' Hs E.
  apply Run_phases in E as [(sa & sb & ready & sc & Ea & Eb & Ec & E) | [Hev Hret]].
  - assert (evolves (allBut KStart) s sc) as Hsc.
    { apply (evolves_trans _ s sa); [|apply (evolves_trans _ sa sb)].
      - eapply evolves_weaken; [|by eapply createRayJob_emits]. kinds_subset.
      - eapply evolves_weaken; [|by eapply awaitClusterName_emits]. kinds_subset.
      - eapply evolves_weaken; [|by eapply waitForCluster_emits]. kinds_subset. }
    destruct ready.
    + destruct (connectAndSubmit_never_returns fuel sc o s'
                  (malformed_evolves _ _ _ Hsc Hs) E) as [Hret Hev].
      split; [done|]. by eapply evolves_trans.
    + split.
      * intros a ->. by destruct (cleanUpAfterTimeout_outcome sc _ s' E)
                       as [? | [[e ?] | [msg ?]]].
      * eapply evolves_trans; [done|].
        eapply evolves_weaken; [|by eapply cleanUpAfterTimeout_emits]. kinds_subset.
  - split; [done|]. eapply evolves_weaken; [|done]. kinds_subset.
Qed.

Lemma RunE_never_returns fuel : never_returns (allBut KStart) (RunE (F:=F) fuel).
Proof.
  unfold RunE.
  apply never_returns_bind_r; [|intros _].
  { eapply emits_only_weaken; [|apply Complete_emits]. kinds_subset. }
  apply never_returns_bind_r; [|intros _].
  { eapply emits_only_weaken; [|apply Validate_emits]. kinds_subset. }
  apply Run_never_returns.
Qed.

End Malformed.

(** C5 as stated fails for the quoting of the entrypoint: every call
    succeeds, the entrypoint opens a quote that it does not close; the
    parse error surfaces after the RayJob is created, its cluster awaited
    and the tunnel opened.  The events are those of the run but for what
    it prints. *)
Lemma malformed_quoting_surfaces_after_create :
  let s := Examples.initial Examples.calm Examples.unclosedQuote in
  let r := RunE 61 s in
  fst r = Fail (Wrap "failed to create Ray submit command with error: "
                  (New "EOF found when expecting closing quote")) ∧
  List.filter (λ k, bool_decide (k ≠ KPrint)) (List.map kindOf (newEvents s (snd r))) =
    [KCreate; KGetRayJob; KSleep;
     KSleep; KGetCluster; KSleep; KGetCluster; KSleep; KGetCluster; KSleep; KGetCluster;
     KGetRayHeadSvcName; KPortForward;
     KSleep; KDo; KBodyClose; KSleep; KDo; KBodyClose; KSleep; KDo; KBodyClose;
     KCancel].
Proof. split; vm_compute; reflexivity. Qed.

(** C7.  The builder returns the base command with the address of the
    tunnel endpoint, then each optional flag in the order of the source,
    there only when its value is not empty, is greater than zero or is
    set, then the working directory, then the separator, then the tokens
    of the entrypoint; and when the entrypoint does not tokenize it
    returns the parse error and no vector.  Arguments between single
    quotes are one token each whatever spaces they hold; a quote that is
    not closed is a parse error; and with such an entrypoint [Run] returns
    an error without starting the process. *)
Theorem raySubmitCmd_vector {F} `{Float32 F} (s : State F) :
  raySubmitCmd s =
  (match shlex.Split (entryPoint (options s)) with
   | (entryPointSanitized, None) =>
       Ret (["ray"; "job"; "submit"; "--address"; dashboardAddr]
            ++ flag (nonEmpty (runtimeEnv (options s)))
                 ["--runtime-env"; runtimeEnv (options s)]
            ++ flag (nonEmpty (runtimeEnvJson (options s)))
                 ["--runtime-env-json"; runtimeEnvJson (options s)]
            ++ flag (nonEmpty (submissionID (options s)))
                 ["--submission-id"; submissionID (options s)]
            ++ flag (f32_gt_zero (entryPointCPU (options s)))
                 ["--entrypoint-num-cpus"; f32_format (entryPointCPU (options s))]
            ++ flag (f32_gt_zero (entryPointGPU (options s)))
                 ["--entrypoint-num-gpus"; f32_format (entryPointGPU (options s))]
            ++ flag (0 <? entryPointMemory (options s))
                 ["--entrypoint-memory"; format_int (entryPointMemory (options s))]
            ++ flag (nonEmpty (entryPointResource (options s)))
                 ["--entrypoint-resource"; entryPointResource (options s)]
            ++ flag (nonEmpty (metadataJson (options s)))
                 ["--metadata-json"; metadataJson (options s)]
            ++ flag (noWait (options s)) ["--no-wait"]
            ++ flag (nonEmpty (headers (options s))) ["--headers"; headers (options s)]
            ++ flag (nonEmpty (verify (options s))) ["--verify"; verify (options s)]
            ++ flag (nonEmpty (logStyle (options s))) ["--log-style"; logStyle (options s)]
            ++ flag (nonEmpty (logColor (options s))) ["--log-color"; logColor (options s)]
            ++ ["--working-dir"; workingDir (options s)]
            ++ ["--"]
            ++ entryPointSanitized)
   | (_, Some err) => Fail err
   end, s) ∧
  (∀ words,
     Forall (free_of "'") words →
     shlex.Split (Join (List.map shlex.quoted words) " ") = (words, None)) ∧
  (∀ words w,
     Forall (free_of "'") words → free_of "'" w →
     shlex.Split (Join (List.map shlex.quoted words ++ ["'" +:+ w]) " ")
     = (words, Some (New "EOF found when expecting closing quote"))) ∧
  (∀ fuel o s',
     malformed s → Run fuel s = (o, s') →
     o ≠ Ret tt ∧ ∀ argv, EvStart argv ∉ newEvents s s').
Proof.
  split; [apply raySubmitCmd_eq|]. split; [|split].
  - intros words Hall. by apply Split_quoted.
  - intros words w Hall Hw. by apply Split_unclosed.
  - intros fuel o s' Hm E. destruct (Run_never_returns fuel s o s' Hm E) as [Hret Hev].
    split; [done|]. intros argv. apply (evolves_no_event _ _ _ _ Hev).
    unfold allBut, allKinds. simpl. by kind_not_in.
Qed.

(** At the inputs of the examples: a script whose name holds a space. *)
Lemma raySubmitCmd_vector_witness :
  shlex.Split "'python' 'my script.py' '--msg' 'hello world'"
  = (["python"; "my script.py"; "--msg"; "hello world"], None).
Proof.
  destruct (raySubmitCmd_vector (Examples.initial Examples.calm Examples.goodOptions))
    as (_ & Hquoted & _).
  apply (Hquoted ["python"; "my script.py"; "--msg"; "hello world"]).
  repeat constructor; discriminate.
Defined.

(* ===================================================================== *)
(** * The identifier that is written into the annotation (C1) *)
(* ===================================================================== *)

Section Annotation.
Context {F : Type} `{Float32 F}.
Implicit Types (s : State F).

Lemma kinds_all (ks : list kind) : ks ⊆ allKinds.
Proof. intros k _. unfold allKinds. destruct k; repeat constructor. Qed.

Lemma newEvents_trans ks ks' s s1 s' :
  evolves ks s s1 → evolves ks' s1 s' →
  newEvents s s' = newEvents s s1 ++ newEvents s1 s'.
Proof.
  intros (_ & _ & evs1 & Ht1 & _) (_ & _ & evs2 & Ht2 & _). unfold newEvents.
  rewrite Ht2, (drop_app_length (trace s1)).
  rewrite Ht1, <- app_assoc, !drop_app_length. done.
Qed.

(** An event of a kind that the first part of a sequence does not cause
    is caused by the rest, the first part having returned. *)
Lemma bind_event {A B} ks ks' (m : M F A) (k : A → M F B) e s o s' :
  emits_only ks m → (∀ a, emits_only ks' (k a)) → kindOf e ∉ ks →
  bind m k s = (o, s') → e ∈ newEvents s s' →
  ∃ a s1, m s = (Ret a, s1) ∧ k a s1 = (o, s') ∧ e ∈ newEvents s1 s'.
Proof.
  intros Hm Hk Hne E Hin.
  apply bind_inv in E as [(a & s1 & E1 & E2) | (o1 & E1 & _ & _)].
  - exists a, s1. split; [done|]. split; [done|].
    pose proof (Hm s _ s1 E1) as Hev1. pose proof (Hk a s1 _ s' E2) as Hev2.
    rewrite (newEvents_trans _ _ _ _ _ Hev1 Hev2) in Hin.
    apply elem_of_app in Hin as [Hin|Hin]; [|done].
    by destruct (evolves_no_event _ _ _ e Hev1 Hne).
  - by destruct (evolves_no_event _ _ _ e (Hm s _ s' E1) Hne).
Qed.

Lemma withDefer_event {A} ks ks' (f : M F unit) (m : M F A) e s o s' :
  emits_only ks f → emits_only ks' m → kindOf e ∉ ks →
  withDefer f m s = (o, s') → e ∈ newEvents s s' →
  ∃ o1 s1, m s = (o1, s1) ∧ e ∈ newEvents s s1.
Proof.
  intros Hf Hm Hne. unfold withDefer.
  destruct (m s) as [o1 s1] eqn:E. intros E' Hin. exists o1, s1. split; [done|].
  pose proof (Hm s _ s1 E) as Hev1.
  destruct o1; injection E' as <- <-; try done;
    (pose proof (Hf s1 _ _ (surjective_pairing _)) as Hev2;
     rewrite (newEvents_trans _ _ _ _ _ Hev1 Hev2) in Hin;
     apply elem_of_app in Hin as [Hin|Hin]; [done|];
     by destruct (evolves_no_event _ _ _ e Hev2 Hne)).
Qed.

Ltac not_update Hin :=
  unfold newEvents in Hin; simpl in Hin;
  rewrite <- ?app_assoc in Hin; simpl in Hin;
  rewrite ?drop_app_length, ?drop_all in Hin;
  repeat (apply elem_of_cons in Hin as [Hin|Hin]; [discriminate Hin|]);
  by apply elem_of_nil in Hin.

(** The update that the submission makes carries the identifier that the
    main flow waited for. *)
Lemma submitAndAnnotate_update s o s' u :
  submissionID (options s) = EmptyString →
  submitAndAnnotate s = (o, s') → EvUpdate u ∈ newEvents s s' →
  ∃ id fetched,
    firstSend (tokens (w_stdout (world s))) = Some id ∧
    u = SetAnnotations (<[submissionIdKey := id]> (default ∅ (GetAnnotations fetched)))
          fetched.
Proof.
  intros Hid E Hin. revert E.
  unfold submitAndAnnotate, awaitJobID, theRayJob, assignRayJob, GetRayJob, wrapFail,
    bind, ask, get_options, emitEvent, failIf, modify_options, orFail, ret, fail,
    panic, hang.
  rewrite raySubmitCmd_eq.
  destruct (shlex.Split (entryPoint (options s))) as [toks [e|]].
  { simpl. intros [= <- <-]. not_update Hin. }
  simpl. destruct (w_StdoutPipe (world s)).
  { simpl. intros [= <- <-]. not_update Hin. }
  destruct (w_StderrPipe (world s)).
  { simpl. intros [= <- <-]. not_update Hin. }
  simpl. rewrite Hid. simpl.
  destruct (firstSend (w_stdout (world s))) as [id|] eqn:Hsent.
  2: { simpl. intros [= <- <-]. not_update Hin. }
  simpl. destruct (RayJob (options s)) as [rayJob|].
  2: { simpl. intros [= <- <-]. not_update Hin. }
  simpl. destruct (w_GetRayJob (world s) (getRayJobs s)) as [fetched|e].
  2: { simpl. intros [= <- <-]. not_update Hin. }
  simpl. intros E. exists id, fetched. split; [done|].
  destruct (w_Update (world s) _) eqn:Hu; simpl in E.
  - injection E as <- <-.
    unfold newEvents in Hin; simpl in Hin.
    rewrite <- ?app_assoc in Hin; simpl in Hin. rewrite drop_app_length in Hin.
    repeat (apply elem_of_cons in Hin as [Hin|Hin];
            [first [discriminate Hin | by injection Hin]|]).
    by apply elem_of_nil in Hin.
  - destruct (w_Wait (world s)); injection E as <- <-;
      unfold newEvents in Hin; simpl in Hin;
      rewrite <- ?app_assoc in Hin; simpl in Hin; rewrite drop_app_length in Hin;
      repeat (apply elem_of_cons in Hin as [Hin|Hin];
              [first [discriminate Hin | by injection Hin]|]);
      by apply elem_of_nil in Hin.
Qed.

Lemma connectAndSubmit_update fuel s o s' u :
  submissionID (options s) = EmptyString →
  connectAndSubmit fuel s = (o, s') → EvUpdate u ∈ newEvents s s' →
  ∃ id fetched,
    firstSend (tokens (w_stdout (world s))) = Some id ∧
    u = SetAnnotations (<[submissionIdKey := id]> (default ∅ (GetAnnotations fetched)))
          fetched.
Proof.
  intros Hid E Hin. unfold connectAndSubmit in E.
  assert (KUpdate ∉ [KPrint; KSleep; KDo; KBodyClose; KGetRayHeadSvcName;
                     KPortForward; KCancel]) as Hno by kind_not_in.
  set (ks := [KPrint; KSleep; KDo; KBodyClose; KGetRayHeadSvcName;
              KPortForward; KCancel]) in *.
  assert (emits_only allKinds (submitAndAnnotate (F:=F))) as Hsub.
  { eapply emits_only_weaken; [apply kinds_all | apply submitAndAnnotate_emits]. }
  assert (∀ fuel, emits_only ks (waitForPortForward (F:=F) fuel)) as Hwait.
  { intros f. eapply emits_only_weaken; [|apply waitForPortForward_emits].
    intros k Hk. repeat (apply elem_of_cons in Hk as [->|Hk]; [solve [repeat constructor]|]).
    by apply elem_of_nil in Hk. }
  assert (∀ e, kindOf e ∈ ks → emits_only ks (emitEvent (F:=F) e)) as Hemit.
  { intros e He. by apply emits_only_emitEvent. }
  apply (bind_event ks allKinds _ _ (EvUpdate u)) in E as (w & s1 & E1 & E & Hin1); try done.
  2: { emits. }
  2: { intros a. emits; try (eapply emits_only_weaken; [apply kinds_all | apply waitForPortForward_emits]);
       done. }
  injection E1 as <- <-.
  apply (bind_event ks allKinds _ _ (EvUpdate u)) in E as (o0 & s1 & E1 & E & Hin2); try done.
  2: { emits. }
  2: { intros a. emits; try (eapply emits_only_weaken; [apply kinds_all | apply waitForPortForward_emits]);
       done. }
  injection E1 as <- <-.
  apply (bind_event ks allKinds _ _ (EvUpdate u)) in E as ([] & s1 & E1 & E & Hin3); try done.
  2: { apply Hemit. repeat constructor. }
  2: { intros a. emits; try (eapply emits_only_weaken; [apply kinds_all | apply waitForPortForward_emits]);
       done. }
  assert (evolves ks s s1) as Hev1 by (eapply emits_only_emitEvent; [|exact E1]; solve [repeat constructor]).
  apply (bind_event ks allKinds _ _ (EvUpdate u)) in E as (svcName & s2 & E2 & E & Hin4); try done.
  2: { emits. }
  2: { intros a. emits; try (eapply emits_only_weaken; [apply kinds_all | apply waitForPortForward_emits]);
       done. }
  assert (s2 = s1) as ->.
  { unfold orFail in E2. destruct (w_GetRayHeadSvcName _); [|done].
    by injection E2 as _ ->. }
  apply (withDefer_event ks allKinds _ _ (EvUpdate u)) in E as (o1 & s3 & E & Hin5); try done.
  2: { apply Hemit. repeat constructor. }
  2: { emits; try (eapply emits_only_weaken; [apply kinds_all | apply waitForPortForward_emits]);
       done. }
  apply (bind_event ks allKinds _ _ (EvUpdate u)) in E as ([] & s4 & E4 & E & Hin6); try done.
  2: { apply Hemit. repeat constructor. }
  2: { intros a. emits; try (eapply emits_only_weaken; [apply kinds_all | apply waitForPortForward_emits]);
       done. }
  assert (evolves ks s1 s4) as Hev4 by (eapply emits_only_emitEvent; [|exact E4]; solve [repeat constructor]).
  apply (bind_event ks allKinds _ _ (EvUpdate u)) in E as ([] & s5 & E5 & E & Hin7); try done.
  2: { apply Hemit. repeat constructor. }
  2: { intros a. emits; try (eapply emits_only_weaken; [apply kinds_all | apply waitForPortForward_emits]);
       done. }
  assert (evolves ks s4 s5) as Hev5 by (eapply emits_only_emitEvent; [|exact E5]; solve [repeat constructor]).
  apply (bind_event ks allKinds _ _ (EvUpdate u)) in E as (ready & s6 & E6 & E & Hin8); try done.
  2: { intros a. emits; done. }
  pose proof (Hwait fuel s5 _ s6 E6) as Hev6.
  destruct (negb ready).
  { injection E as <- <-. unfold newEvents in Hin8. rewrite drop_all in Hin8.
    by apply elem_of_nil in Hin8. }
  apply (bind_event ks allKinds _ _ (EvUpdate u)) in E as ([] & s7 & E7 & E & Hin9); try done.
  2: { apply Hemit. repeat constructor. }
  assert (evolves ks s6 s7) as Hev7 by (eapply emits_only_emitEvent; [|exact E7]; solve [repeat constructor]).
  assert (evolves ks s s7) as Hev.
  { repeat (eapply evolves_trans; [eassumption|]). apply evolves_refl. }
  destruct Hev as (Hw & Hg & _).
  destruct (submitAndAnnotate_update s7 o1 s3 u) as (id & fetched & Hf & Hu); try done.
  { unfold asGiven in Hg. injection Hg as _ ->. done. }
  exists id, fetched. by rewrite <- Hw.
Qed.

(** The update that a run makes carries the first identifier that the
    goroutine of stdout sends. *)
Lemma Run_update fuel s o s' u :
  submissionID (options s) = EmptyString →
  Run fuel s = (o, s') → EvUpdate u ∈ newEvents s s' →
  ∃ id fetched,
    firstSend (tokens (w_stdout (world s))) = Some id ∧
    u = SetAnnotations (<[submissionIdKey := id]> (default ∅ (GetAnnotations fetched)))
          fetched.
Proof.
  intros Hid E Hin.
  apply Run_phases in E as [(sa & sb & ready & sc & Ea & Eb & Ec & E) | [Hev _]].
  2: { destruct (evolves_no_event _ _ _ (EvUpdate u) Hev); [by kind_not_in | done]. }
  assert (evolves [KPrint; KCreate; KGetRayJob; KSleep; KGetCluster] s sc) as Hsc.
  { apply (evolves_trans _ s sa); [|apply (evolves_trans _ sa sb)].
    - eapply evolves_weaken; [|by eapply createRayJob_emits]. kinds_subset.
    - eapply evolves_weaken; [|by eapply awaitClusterName_emits]. kinds_subset.
    - eapply evolves_weaken; [|by eapply waitForCluster_emits]. kinds_subset. }
  assert (EvUpdate u ∈ newEvents sc s') as Hin'.
  { assert (evolves allKinds sc s') as Hev'.
    { destruct ready.
      - eapply evolves_weaken; [apply kinds_all | by eapply connectAndSubmit_emits].
      - eapply evolves_weaken; [apply kinds_all | by eapply cleanUpAfterTimeout_emits]. }
    rewrite (newEvents_trans _ _ _ _ _ Hsc Hev') in Hin.
    apply elem_of_app in Hin as [Hin|Hin]; [|done].
    destruct (evolves_no_event _ _ _ (EvUpdate u) Hsc); [by kind_not_in | done]. }
  destruct Hsc as (Hw & Hg & _).
  destruct ready.
  - destruct (connectAndSubmit_update fuel sc o s' u) as (id & fetched & Hf & Hu);
      try done.
    { unfold asGiven in Hg. injection Hg as _ ->. done. }
    exists id, fetched. by rewrite <- Hw.
  - destruct (evolves_no_event _ _ _ (EvUpdate u)
                (cleanUpAfterTimeout_emits sc _ s' E)); [by kind_not_in | done].
Qed.

End Annotation.

Section FirstMatch.

Lemma append_inj_length (p p' r r' : string) :
  String.length p = String.length p' → p +:+ r = p' +:+ r' → p = p' ∧ r = r'.
Proof.
  revert p'. induction p as [|x p IH]; intros [|y p'] Hl E; sapp; simpl in *;
    try done.
  injection Hl as Hl. injection E as -> E. by destruct (IH p' Hl E) as [-> ->].
Qed.

(** A line has one first identifier at most. *)
Lemma firstQuoted_unique line id id' :
  firstQuoted line id → firstQuoted line id' → id = id'.
Proof.
  intros (pre & Hq & Hmin) (pre' & Hq' & Hmin').
  pose proof (Hmin _ _ Hq') as Hle. pose proof (Hmin' _ _ Hq) as Hle'.
  destruct Hq as (post & E & Hfree & _). destruct Hq' as (post' & E' & Hfree' & _).
  rewrite E in E'. apply append_inj_length in E' as [_ E']; [|lia].
  sapp. injection E' as E'. by apply cut_unique in E' as [-> _].
Qed.

Lemma sends_firstQuoted t id : firstQuoted t id → sends EmptyString t = Some id.
Proof.
  intros Hq. destruct (sends EmptyString t) as [v|] eqn:E.
  - f_equal. apply (firstQuoted_unique t); [by apply sends_Some | done].
  - apply sends_None in E. destruct E. by exists id.
Qed.

Lemma sends_not_matching t : ¬ matching t → sends EmptyString t = None.
Proof.
  intros Hn. destruct (sends EmptyString t) as [v|] eqn:E; [|done].
  destruct Hn. exists v. by apply sends_Some.
Qed.

(** The first send is the identifier of the earliest line that has one. *)
Lemma firstSend_intro before line after id :
  Forall (λ l, ¬ matching l) before → firstQuoted line id →
  firstSend (tokens (before ++ line :: after)) = Some id.
Proof.
  intros Hb Hq. unfold tokens. simpl firstSend.
  change (sends EmptyString EmptyString) with (@None string). cbv iota.
  induction Hb as [|l before Hl _ IH]; simpl.
  - by rewrite (sends_firstQuoted _ _ Hq).
  - by rewrite (sends_not_matching _ Hl).
Qed.

Lemma firstSend_lines lines id :
  firstSend (tokens lines) = Some id →
  ∃ before line after,
    lines = before ++ line :: after ∧
    Forall (λ l, ¬ matching l) before ∧
    line ≠ EmptyString ∧ firstQuoted line id.
Proof.
  intros Hf. apply firstSend_Some in Hf as (before & line & after & E & Hb & Hq).
  assert (line ≠ EmptyString) as Hne.
  { intros ->. destruct Hq as (pre & Hq & _). by apply quotedAt_not_empty in Hq. }
  destruct before as [|t before]; unfold tokens in E; simpl in E.
  - injection E as E _. by destruct Hne.
  - injection E as _ ->. apply List.Forall_inv_tail in Hb.
    by exists before, line, after.
Qed.

End FirstMatch.

(** C1.  Without a submission ID, whatever the interleaving of the
    goroutine of stdout and the main flow, at most one value passes the
    channel; the value that passes is the first substring between single
    quotes that contains the marker, taken from the earliest line of
    stdout that has one, and that line is not empty; once the main flow
    has gone past the receive it holds that value.  When a line has such a
    substring the two flows can reach that state.  Every update that [Run]
    makes then writes that value at the key of the submission ID.  For the
    three lines of the example the annotation written is
    [raysubmit_abc123]. *)
Theorem job_id_first_match_wins :
  (∀ lines st,
     Correlator.reachable EmptyString lines st →
     (length (Correlator.delivered st) ≤ 1)%nat ∧
     (∀ id, id ∈ Correlator.delivered st →
        ∃ before line after,
          lines = before ++ line :: after ∧
          Forall (λ l, ¬ matching l) before ∧
          line ≠ EmptyString ∧ firstQuoted line id) ∧
     (Correlator.main st = Correlator.Populated →
        Correlator.delivered st = [Correlator.rayJobID st])) ∧
  (∀ before line after id,
     Forall (λ l, ¬ matching l) before → firstQuoted line id →
     ∃ st, Correlator.reachable EmptyString (before ++ line :: after) st ∧
           Correlator.main st = Correlator.Populated ∧
           Correlator.rayJobID st = id) ∧
  (∀ F (HF : Float32 F) fuel (s : State F) o s' u,
     submissionID (options s) = EmptyString →
     Run fuel s = (o, s') → EvUpdate u ∈ newEvents s s' →
     ∃ id fetched before line after,
       w_stdout (world s) = before ++ line :: after ∧
       Forall (λ l, ¬ matching l) before ∧
       line ≠ EmptyString ∧ firstQuoted line id ∧
       u = SetAnnotations
             (<[submissionIdKey := id]> (default ∅ (GetAnnotations fetched))) fetched) ∧
  w_stdout Examples.calm =
    ["starting"; "Job 'raysubmit_abc123' submitted"; "Job 'raysubmit_xyz999' submitted"] ∧
  annotationsWritten (trace (snd (Run 61 (Examples.validated Examples.calm))))
  = [Some "raysubmit_abc123"].
Proof.
  split; [|split; [|split; [|split]]].
  - intros lines st Hr. apply inv_reachable in Hr.
    destruct Hr as [(Hd & Hid & Hm & _) | (v & Hd & Hf & Hm)].
    + rewrite Hd. split; [simpl; lia|]. split.
      * intros id Hin. by apply elem_of_nil in Hin.
      * intros Hp. destruct Hm as [Hm|Hm]; by rewrite Hm in Hp.
    + rewrite Hd. split; [simpl; lia|]. split.
      * intros id Hin. apply list_elem_of_singleton in Hin as ->.
        by apply firstSend_lines.
      * intros Hp. destruct Hm as [[Hm _] | [_ ->]]; [by rewrite Hm in Hp | done].
  - intros before line after id Hb Hq.
    pose proof (firstSend_intro before line after id Hb Hq) as Hf.
    destruct (run_to_first_send EmptyString (before ++ line :: after) [] []
                id Hf) as (sc & e & Hrun).
    exists (Correlator.mkSt sc Correlator.Populated id ([] ++ [id]) e).
    split; [|by split].
    unfold Correlator.reachable, Correlator.init, tokens.
    eapply rtc_l; [apply Correlator.step_check_empty | exact Hrun].
  - intros F HF fuel s o s' u Hid E Hin.
    destruct (Run_update fuel s o s' u Hid E Hin) as (id & fetched & Hf & Hu).
    apply firstSend_lines in Hf as (before & line & after & El & Hb & Hne & Hq).
    by exists id, fetched, before, line, after.
  - reflexivity.
  - vm_compute. reflexivity.
Qed.

(** At the lines of the example: the two flows reach the state in which
    the main flow holds the identifier of the second line, and that is
    all that has passed the channel. *)
Lemma job_id_first_match_wins_witness :
  ∃ st, Correlator.reachable EmptyString Examples.stdoutLines st ∧
        Correlator.main st = Correlator.Populated ∧
        Correlator.delivered st = ["raysubmit_abc123"].
Proof.
  destruct job_id_first_match_wins as (Hsafe & Hlive & _).
  destruct (Hlive ["starting"] "Job 'raysubmit_abc123' submitted"
              ["Job 'raysubmit_xyz999' submitted"] "raysubmit_abc123")
    as (st & Hr & Hm & Hid).
  - constructor; [|constructor]. apply sends_None. vm_compute. reflexivity.
  - apply sends_Some. vm_compute. reflexivity.
  - exists st. split; [exact Hr|]. split; [exact Hm|].
    destruct (Hsafe _ _ Hr) as (_ & _ & Hp). rewrite (Hp Hm), Hid. reflexivity.
Defined.

(* ===================================================================== *)
(** * The closure of the command *)
(* ===================================================================== *)

Section CommandFacts.
Context {F : Type} `{Float32 F}.
Implicit Types (s : State F).

Lemma scan_plain_word ty (v w rest : string) :
  plainRunes w →
  shlex.scan shlex.inWordState ty v (w +:+ rest)
  = shlex.scan shlex.inWordState ty (v +:+ w) rest.
Proof.
  revert v. induction w as [|c w IH]; intros v Hw; sapp.
  - by rewrite append_nil_r.
  - apply List.Forall_cons_iff in Hw as [Hc Hw]. simpl. rewrite Hc.
    rewrite (IH _ Hw). unfold shlex.snoc. by rewrite append_assoc.
Qed.

Lemma scan_plain_start (w rest : string) :
  plain w →
  shlex.scan shlex.startState shlex.WordToken EmptyString (w +:+ rest)
  = shlex.scan shlex.inWordState shlex.WordToken w rest.
Proof.
  intros [Hne Hw]. destruct w as [|c w]; [done|].
  apply List.Forall_cons_iff in Hw as [Hc Hw]. sapp. simpl. rewrite Hc.
  by rewrite (scan_plain_word _ _ _ _ Hw).
Qed.

(** Words that hold nothing special, joined by spaces, are read back as
    they are. *)
Lemma Split_plain (words : list string) :
  Forall plain words → shlex.Split (Join words " ") = (words, None).
Proof.
  induction words as [|w words IH]; intros Hall; [done|].
  apply List.Forall_cons_iff in Hall as [Hw Hall].
  destruct words as [|w' words].
  - simpl. unfold shlex.Split. rewrite <- (append_nil_r w) at 1.
    rewrite (scan_plain_start _ _ Hw). destruct Hw as [_ _]. done.
  - rewrite Join_cons_cons. unfold shlex.Split.
    rewrite (scan_plain_start _ _ Hw). sapp.
    change (shlex.scan shlex.inWordState shlex.WordToken w
              (String " " (Join (w' :: words) " ")))
      with (shlex.emit shlex.WordToken w (shlex.Split (Join (w' :: words) " "))).
    by rewrite (IH Hall).
Qed.

(** X1.  Without the dash, or with a bound beyond the arguments, the closure
    panics at the slice expression: the options are as they were and
    nothing has been called. *)
Theorem commandRunE_slice_bounds (args : list string) (n : Z) (fuel : nat) s :
  n < 0 ∨ Z.of_nat (length args) < n →
  ∃ msg, commandRunE args n fuel s = (Panic msg, s) ∧
         (n < 0 → msg = "slice bounds out of range [" +:+ format_int n +:+ ":]").
Proof.
  intros Hn. unfold commandRunE, setEntryPoint, bind, lift, sliceFrom.
  destruct (n <? 0) eqn:E1.
  - eexists. split; [reflexivity | done].
  - apply Z.ltb_ge in E1. destruct Hn as [Hn|Hn]; [lia|].
    apply Z.ltb_lt in Hn. rewrite Hn. eexists. split; [reflexivity | lia].
Qed.

(** X2.  The entrypoint that the builder tokenizes is the arguments after the
    dash joined by spaces: the tokens are the words of that string, so
    plain arguments come back as they are and an argument that holds a
    space comes back as several. *)
Theorem entryPoint_is_retokenized (args : list string) (n : Z) (words : list string) s :
  0 ≤ n ≤ Z.of_nat (length args) →
  Join (drop (Z.to_nat n) args) " " = Join words " " →
  Forall plain words →
  ∃ s1 pre,
    setEntryPoint args n s = (Ret tt, s1) ∧
    entryPoint (options s1) = Join (drop (Z.to_nat n) args) " " ∧
    raySubmitCmd s1
    = (Ret (pre ++ ["--working-dir"; workingDir (options s)] ++ "--" :: words), s1).
Proof.
  intros Hn Hj Hw.
  set (s1 := snd (setEntryPoint args n s)).
  assert (setEntryPoint args n s = (Ret tt, s1)
          ∧ entryPoint (options s1) = Join (drop (Z.to_nat n) args) " "
          ∧ workingDir (options s1) = workingDir (options s)) as (E1 & E2 & E3).
  { subst s1. unfold setEntryPoint, bind, lift, sliceFrom, modify_options.
    assert ((n <? 0) = false) as -> by (apply Z.ltb_ge; lia).
    assert ((Z.of_nat (length args) <? n) = false) as -> by (apply Z.ltb_ge; lia).
    done. }
  exists s1. rewrite raySubmitCmd_eq, E2, E3, Hj, (Split_plain _ Hw).
  rewrite !app_assoc.
  rewrite <- (app_assoc _ _ words), <- (app_assoc _ ["--working-dir"; _]).
  eexists. split; [done|]. split; [done|]. reflexivity.
Qed.

End CommandFacts.

(** At the inputs of the examples: the command line without a dash. *)
Lemma commandRunE_slice_bounds_witness :
  commandRunE ["python"; "my_script.py"] (-1) 61
    (Examples.initial Examples.calm Examples.goodOptions)
  = (Panic "slice bounds out of range [-1:]",
     Examples.initial Examples.calm Examples.goodOptions).
Proof.
  destruct (commandRunE_slice_bounds ["python"; "my_script.py"] (-1) 61
              (Examples.initial Examples.calm Examples.goodOptions))
    as (msg & -> & Hmsg); [lia|].
  rewrite Hmsg; [reflexivity | lia].
Defined.

(** At the inputs of the examples: the name of the script holds a space,
    and comes back as two tokens. *)
Lemma entryPoint_is_retokenized_witness :
  ∃ s1 pre,
    setEntryPoint ["python"; "my script.py"] 0
      (Examples.initial Examples.calm Examples.goodOptions) = (Ret tt, s1) ∧
    fst (raySubmitCmd s1)
    = Ret (pre ++ ["--working-dir"; "/tmp/wd"] ++ ["--"; "python"; "my"; "script.py"]).
Proof.
  destruct (entryPoint_is_retokenized ["python"; "my script.py"] 0
              ["python"; "my"; "script.py"]
              (Examples.initial Examples.calm Examples.goodOptions))
    as (s1 & pre & E1 & _ & E2).
  - simpl. lia.
  - reflexivity.
  - repeat constructor; discriminate.
  - exists s1, pre. split; [exact E1|]. rewrite E2. reflexivity.
Defined.

(* ===================================================================== *)
(** * Properties of the state that a method keeps *)
(* ===================================================================== *)

Section Keeps.
Context {F : Type} `{Float32 F}.
Implicit Types (s : State F) (P : State F → Prop).

Lemma keeps_total {A} P (m : M F A) : (∀ s, P s → P (snd (m s))) → keeps P m.
Proof. intros Hm s o s' HP E. specialize (Hm s HP). by rewrite E in Hm. Qed.

Lemma keeps_orFail {A} P (r : A + error) wrap : keeps P (orFail (F:=F) r wrap).
Proof. apply keeps_total. intros s HP. by destruct r. Qed.

Lemma keeps_failIf P r wrap : keeps P (failIf (F:=F) r wrap).
Proof. apply keeps_total. intros s HP. by destruct r. Qed.

Lemma keeps_lift {A} P (x : Outcome A) : keeps P (lift (F:=F) x).
Proof. by apply keeps_total. Qed.

Lemma keeps_bind {A B} P (m : M F A) (k : A → M F B) :
  keeps P m → (∀ a, keeps P (k a)) → keeps P (bind m k).
Proof.
  intros Hm Hk s o s' HP E.
  apply bind_inv in E as [(a & s1 & E1 & E2) | (o1 & E1 & _)].
  - eapply Hk; [|exact E2]. by eapply Hm.
  - by eapply Hm.
Qed.

Lemma keeps_wrapFail {A} P wrap (m : M F A) : keeps P m → keeps P (wrapFail wrap m).
Proof.
  intros Hm s o s' HP. unfold wrapFail. destruct (m s) as [o1 s1] eqn:E.
  specialize (Hm s o1 s1 HP E). by destruct o1; intros [= <- <-].
Qed.

Lemma keeps_withDefer {A} P (f : M F unit) (m : M F A) :
  keeps P f → keeps P m → keeps P (withDefer f m).
Proof.
  intros Hf Hm s o s' HP. unfold withDefer. destruct (m s) as [o1 s1] eqn:E.
  specialize (Hm s o1 s1 HP E).
  destruct o1; intros [= <- <-]; try done;
    by apply (Hf s1 (fst (f s1)) (snd (f s1)) Hm), surjective_pairing.
Qed.

Lemma keeps_loop {X} P fuel cond (body : X → M F X) :
  (∀ x, keeps P (body x)) → ∀ x, keeps P (loop fuel cond body x).
Proof.
  intros Hb x s o s' HP E. revert E. by apply loop_preserves; [apply Hb|].
Qed.

End Keeps.

Ltac keeps_step :=
  lazymatch goal with
  | |- keeps _ (bind _ _) => apply keeps_bind; [|intros ?]
  | |- keeps _ (wrapFail _ _) => apply keeps_wrapFail
  | |- keeps _ (withDefer _ _) => apply keeps_withDefer
  | |- keeps _ (loop _ _ _ _) => apply keeps_loop; intros ?
  | |- keeps _ (orFail _ _) => apply keeps_orFail
  | |- keeps _ (failIf _ _) => apply keeps_failIf
  | |- keeps _ (lift _) => apply keeps_lift
  | |- keeps _ (if ?c then _ else _) => destruct c
  | |- keeps _ (match ?x with _ => _ end) => destruct x
  end.

(* ===================================================================== *)
(** * What Validate leaves in the options *)
(* ===================================================================== *)

Section ValidateFacts.
Context {F : Type} `{Float32 F}.
Implicit Types (s : State F).

(** The state [s] with other options. *)
Lemma state_eta s :
  s = mkState (options s) (world s) (now s) (sleeps s) (getRayJobs s)
        (getClusters s) (probes s) (trace s).
Proof. by destruct s. Qed.

Lemma validatedFields_id (o : SubmitJobOptions F) :
  validatedFields o (RayJob o) (workingDir o) (runtimeEnvJson o) = o.
Proof. by destruct o. Qed.

(** The runtime env file, when [Validate] gets past it: the working
    directory is the one given, or else the one of the file. *)
Lemma validateRuntimeEnv_Ret s s1 :
  validateRuntimeEnv s = (Ret tt, s1) →
  ∃ wd1,
    s1 = mkState (set_workingDir wd1 (options s)) (world s) (now s) (sleeps s)
           (getRayJobs s) (getClusters s) (probes s) (trace s) ∧
    (workingDir (options s) ≠ EmptyString → wd1 = workingDir (options s)) ∧
    (workingDir (options s) = EmptyString → wd1 ≠ EmptyString →
     ∃ m, runtimeEnv (options s) ≠ EmptyString ∧
          w_ReadYaml (world s) (runtimeEnv (options s)) = inl m ∧
          valueAt m "working_dir" = VString wd1).
Proof.
  assert (s = mkState (set_workingDir (workingDir (options s)) (options s)) (world s)
                (now s) (sleeps s) (getRayJobs s) (getClusters s) (probes s)
                (trace s)) as Hs.
  { destruct s as [o ? ? ? ? ? ? ?]. by destruct o. }
  unfold validateRuntimeEnv, bind, ask, get_options.
  destruct (nonEmpty (runtimeEnv (options s))) eqn:Henv.
  2: { intros [= <-]. exists (workingDir (options s)). split; [done|]. split; [done|].
       intros -> Hne. done. }
  unfold checkStat. destruct (w_Stat (world s) (runtimeEnv (options s))) as [e|e|[|]];
    try done. simpl.
  unfold wrapFail, runtimeEnvHasWorkingDir, bind, ask, orFail, lift, ret, fail.
  destruct (w_ReadYaml (world s) (runtimeEnv (options s))) as [m|e] eqn:Hread; [|done].
  destruct (valueAt m "working_dir") as [| | |d| | |] eqn:Hd; try done. simpl.
  destruct d as [|c d].
  { simpl. intros [= <-]. exists (workingDir (options s)). split; [done|].
    split; [done|]. intros -> Hne. done. }
  simpl. destruct (nonEmpty (workingDir (options s))) eqn:Hw; simpl.
  - intros [= <-]. exists (workingDir (options s)). split; [done|]. split; [done|].
    intros Hwd. by rewrite Hwd in Hw.
  - unfold modify_options. intros [= <-]. exists (String c d).
    split; [done|]. split.
    + intros Hne. apply nonEmpty_true in Hne. congruence.
    + intros _ _. exists m. split; [by apply nonEmpty_true | done].
Qed.

(** The inline runtime environment, when [Validate] gets past it. *)
Lemma validateRuntimeEnvYAML_state (rayJob : Unstructured) s s' :
  validateRuntimeEnvYAML rayJob s = (Ret tt, s') →
  ∃ spec json,
    valueAt (Object rayJob) "spec" = VMap spec ∧
    s' = mkState (set_runtimeEnvJson json (options s)) (world s) (now s) (sleeps s)
           (getRayJobs s) (getClusters s) (probes s) (trace s) ∧
    match asString (valueAt spec "runtimeEnvYAML") with
    | Some y =>
        if negb (nonEmpty (runtimeEnv (options s)))
           && negb (nonEmpty (runtimeEnvJson (options s)))
        then w_YAMLToJSON (world s) y = inl json
        else json = runtimeEnvJson (options s)
    | None => json = runtimeEnvJson (options s)
    end.
Proof.
  assert (s = mkState (set_runtimeEnvJson (runtimeEnvJson (options s)) (options s))
                (world s) (now s) (sleeps s) (getRayJobs s) (getClusters s) (probes s)
                (trace s)) as Hs.
  { destruct s as [o ? ? ? ? ? ? ?]. by destruct o. }
  unfold validateRuntimeEnvYAML, bind, ask, get_options, lift, orFail,
    modify_options, ret, fail.
  destruct (valueAt (Object rayJob) "spec") as [| | | |spec| |] eqn:Hspec; try done.
  simpl.
  destruct (asString (valueAt spec "runtimeEnvYAML")) as [y|] eqn:Hy.
  - destruct (negb (nonEmpty (runtimeEnv (options s)))
              && negb (nonEmpty (runtimeEnvJson (options s)))) eqn:Hc.
    + destruct (w_YAMLToJSON (world s) y) as [json|e] eqn:Hj; [|done].
      intros [= <-]. exists spec, json. rewrite ?Hy, ?Hc. done.
    + intros [= <-]. exists spec, (runtimeEnvJson (options s)). rewrite ?Hy, ?Hc. done.
  - intros [= <-]. exists spec, (runtimeEnvJson (options s)). rewrite ?Hy. done.
Qed.

(** The whole of what [Validate] has done when it returns no error. *)
Lemma Validate_Ret_state s s' :
  Validate s = (Ret tt, s') →
  ∃ rayJob spec wd json,
    s' = mkState (validatedFields (options s) (Some rayJob) (w_Clean (world s) wd) json)
           (world s) (now s) (sleeps s) (getRayJobs s) (getClusters s) (probes s)
           (trace s) ∧
    w_decodeRayJobYaml (world s) (fileName (options s)) = inl rayJob ∧
    valueAt (Object rayJob) "spec" = VMap spec ∧
    wd ≠ EmptyString ∧
    (workingDir (options s) ≠ EmptyString → wd = workingDir (options s)) ∧
    (workingDir (options s) = EmptyString →
     ∃ m, runtimeEnv (options s) ≠ EmptyString ∧
          w_ReadYaml (world s) (runtimeEnv (options s)) = inl m ∧
          valueAt m "working_dir" = VString wd) ∧
    match asString (valueAt spec "runtimeEnvYAML") with
    | Some y =>
        if negb (nonEmpty (runtimeEnv (options s)))
           && negb (nonEmpty (runtimeEnvJson (options s)))
        then w_YAMLToJSON (world s) y = inl json
        else json = runtimeEnvJson (options s)
    | None => json = runtimeEnvJson (options s)
    end.
Proof.
  unfold Validate. intros E.
  apply bind_Ret_inv in E as (w & sa & Ea & E). injection Ea as <- <-.
  apply bind_Ret_inv in E as (ctx & sb & Eb & E).
  assert (sb = s) as ->.
  { unfold orFail in Eb. destruct (w_RawConfig (world s)); [by injection Eb|done]. }
  clear Eb. destruct (negb (nonEmpty ctx)); [done|].
  apply bind_Ret_inv in E as ([] & s1 & E1 & E).
  apply validateRuntimeEnv_Ret in E1 as (wd1 & -> & Hgiven & Hfile).
  apply bind_Ret_inv in E as (o1 & sc & Ec & E). injection Ec as <- <-.
  apply bind_Ret_inv in E as ([] & sd & Ed & E).
  apply checkStat_Ret in Ed as [-> _].
  apply bind_Ret_inv in E as ([] & s2 & E2 & E).
  unfold modify_options in E2. injection E2 as <-.
  apply bind_Ret_inv in E as (rayJob & se & Ee & E).
  cbn [options world now sleeps getRayJobs getClusters probes trace] in *.
  assert (fileName (set_workingDir wd1 (options s)) = fileName (options s)) as Hfn
    by done.
  rewrite Hfn in *.
  destruct (w_decodeRayJobYaml (world s) (fileName (options s))) as [u|e] eqn:Hdec;
    [|done].
  unfold orFail, ret in Ee. injection Ee as <- <-.
  apply bind_Ret_inv in E as ([] & sf & Ef & E).
  apply validateSubmissionMode_Ret in Ef as [-> Hmode].
  apply bind_Ret_inv in E as ([] & s3 & E3 & E).
  apply validateRuntimeEnvYAML_state in E3 as (spec & json & Hspec & -> & Hjson).
  cbn [options world now sleeps getRayJobs getClusters probes trace] in *.
  apply bind_Ret_inv in E as (o3 & sg & Eg & E). injection Eg as <- <-.
  cbn [options] in E.
  assert (workingDir (set_runtimeEnvJson json (set_RayJob (Some u)
            (set_workingDir wd1 (options s)))) = wd1) as Hwd by done.
  rewrite Hwd in E.
  destruct (nonEmpty wd1) eqn:Hne; [|done]. simpl in E.
  unfold modify_options in E. injection E as <-.
  apply nonEmpty_true in Hne.
  exists u, spec, wd1, json.
  split; [reflexivity|].
  split; [done|]. split; [done|]. split; [done|]. split; [done|].
  split; [by auto|]. exact Hjson.
Qed.

(** X3.  The working directory that comes out of [Validate] is the one given
    on the command line, cleaned, whenever one is given; only when none is
    given is it the [working_dir] of the runtime env file, which then must
    exist, parse and hold a string that is not empty. *)
Theorem Validate_workingDir_precedence s s' :
  Validate s = (Ret tt, s') →
  (workingDir (options s) ≠ EmptyString →
   workingDir (options s') = w_Clean (world s) (workingDir (options s))) ∧
  (workingDir (options s) = EmptyString →
   ∃ m d, runtimeEnv (options s) ≠ EmptyString ∧
          w_ReadYaml (world s) (runtimeEnv (options s)) = inl m ∧
          valueAt m "working_dir" = VString d ∧ d ≠ EmptyString ∧
          workingDir (options s') = w_Clean (world s) d).
Proof.
  intros E.
  apply Validate_Ret_state in E
    as (rayJob & spec & wd & json & -> & _ & _ & Hne & Hgiven & Hfile & _).
  split.
  - intros Hwd. simpl. by rewrite (Hgiven Hwd).
  - intros Hwd. destruct (Hfile Hwd) as (m & Henv & Hread & Hd).
    by exists m, wd.
Qed.

(** X4.  The inline runtime environment of the RayJob is used only when neither
    a runtime env file nor a runtime env JSON is given: then
    [runtimeEnvJson] becomes the JSON of [spec.runtimeEnvYAML], when that is
    a string; in every other case [Validate] leaves [runtimeEnvJson] as it
    is.  The file given is never replaced. *)
Theorem Validate_runtimeEnvJson_precedence s s' :
  Validate s = (Ret tt, s') →
  runtimeEnv (options s') = runtimeEnv (options s) ∧
  ∃ rayJob spec,
    RayJob (options s') = Some rayJob ∧
    valueAt (Object rayJob) "spec" = VMap spec ∧
    ((runtimeEnv (options s) ≠ EmptyString ∨ runtimeEnvJson (options s) ≠ EmptyString
      ∨ asString (valueAt spec "runtimeEnvYAML") = None) →
     runtimeEnvJson (options s') = runtimeEnvJson (options s)) ∧
    (∀ y, runtimeEnv (options s) = EmptyString →
          runtimeEnvJson (options s) = EmptyString →
          valueAt spec "runtimeEnvYAML" = VString y →
          w_YAMLToJSON (world s) y = inl (runtimeEnvJson (options s'))).
Proof.
  intros E.
  apply Validate_Ret_state in E
    as (rayJob & spec & wd & json & -> & _ & Hspec & _ & _ & _ & Hjson).
  split; [done|]. exists rayJob, spec. split; [done|]. split; [done|]. simpl. split.
  - intros Hor. destruct (asString (valueAt spec "runtimeEnvYAML")) as [y|]; [|done].
    destruct Hor as [Hne | [Hne | ?]]; [| |done];
      apply nonEmpty_true in Hne; rewrite Hne in Hjson; simpl in Hjson;
      rewrite ?andb_false_r in Hjson; done.
  - intros y He Hj Hy. rewrite Hy, He, Hj in Hjson. simpl in Hjson. done.
Qed.

(** X5.  However it ends, [Validate] has assigned at most three fields of the
    options, the RayJob, the working directory and the runtime env JSON:
    the other options, the clock and the events are as before.  An error
    can leave some of the three assigned. *)
Theorem Validate_assigns_three_fields s o s' :
  Validate s = (o, s') →
  ∃ rayJob wd json,
    s' = mkState (validatedFields (options s) rayJob wd json)
           (world s) (now s) (sleeps s) (getRayJobs s) (getClusters s) (probes s)
           (trace s).
Proof.
  set (P := λ s' : State F, ∃ rayJob wd json,
              s' = mkState (validatedFields (options s) rayJob wd json)
                     (world s) (now s) (sleeps s) (getRayJobs s) (getClusters s)
                     (probes s) (trace s)).
  assert (keeps P (Validate (F:=F))) as Hk.
  { unfold Validate, validateRuntimeEnv, runtimeEnvHasWorkingDir, checkStat,
      validateSubmissionMode, validateRuntimeEnvYAML.
    repeat keeps_step;
      apply keeps_total; intros s1 (rayJob & wd & json & ->);
      unfold P; do 3 eexists; cbn; reflexivity. }
  intros E. apply (Hk s o s'); [|done].
  exists (RayJob (options s)), (workingDir (options s)), (runtimeEnvJson (options s)).
  rewrite validatedFields_id. apply state_eta.
Qed.

End ValidateFacts.

(** At the inputs of the examples: the runtime env file names a working
    directory; one is given on the command line, then none. *)
Lemma Validate_workingDir_precedence_witness :
  let w := Examples.worldWith (inl {[ "working_dir" := VString "/from/env" ]})
             (inl (Examples.rayJob None)) (Examples.readyAfter 3) (λ _, 0%N)
             (Examples.reachableAfter 2) in
  let given := Examples.initial w (Examples.optionsWith "env.yaml" "python x.py") in
  let notGiven :=
    Examples.initial w
      (set_workingDir EmptyString (Examples.optionsWith "env.yaml" "python x.py")) in
  workingDir (options (snd (Validate given))) = "/tmp/wd" ∧
  workingDir (options (snd (Validate notGiven))) = "/from/env".
Proof.
  intros w given notGiven. split.
  - destruct (Validate_workingDir_precedence given (snd (Validate given)))
      as [Hgiven _]; [vm_compute; reflexivity|].
    rewrite Hgiven; [reflexivity | discriminate].
  - destruct (Validate_workingDir_precedence notGiven (snd (Validate notGiven)))
      as [_ Hfile]; [vm_compute; reflexivity|].
    destruct Hfile as (m & d & _ & Hread & Hd & _ & ->); [reflexivity|].
    injection Hread as <-. vm_compute in Hd. injection Hd as <-. reflexivity.
Defined.

(** At the inputs of the examples: the RayJob has an inline runtime
    environment; no runtime env is given, then a JSON is. *)
Lemma Validate_runtimeEnvJson_precedence_witness :
  let inline :=
    mkUnstructured
      {[ "metadata" := VMap {[ "name" := VString "rayjob-sample" ]};
         "spec" := VMap {[ "submissionMode" := VString "InteractiveMode";
                           "runtimeEnvYAML" := VString "pip: [requests]" ]} ]} in
  let w := Examples.worldWith (inl ∅) (inl inline) (Examples.readyAfter 3) (λ _, 0%N)
             (Examples.reachableAfter 2) in
  let notGiven := Examples.initial w Examples.goodOptions in
  let given := Examples.initial w (set_runtimeEnvJson "{}" Examples.goodOptions) in
  runtimeEnvJson (options (snd (Validate notGiven))) = "pip: [requests]" ∧
  runtimeEnvJson (options (snd (Validate given))) = "{}".
Proof.
  intros inline w notGiven given. split.
  - destruct (Validate_runtimeEnvJson_precedence notGiven (snd (Validate notGiven)))
      as (_ & rayJob & spec & Hj & Hspec & _ & Hinline); [vm_compute; reflexivity|].
    vm_compute in Hj. injection Hj as <-. vm_compute in Hspec. injection Hspec as <-.
    specialize (Hinline "pip: [requests]" eq_refl eq_refl eq_refl).
    change (w_YAMLToJSON (world notGiven) "pip: [requests]")
      with (inl (B:=error) "pip: [requests]") in Hinline.
    congruence.
  - destruct (Validate_runtimeEnvJson_precedence given (snd (Validate given)))
      as (_ & rayJob & spec & _ & _ & Hkept & _); [vm_compute; reflexivity|].
    rewrite Hkept; [reflexivity|]. right. left. discriminate.
Defined.

(** At the inputs of the examples: the RayJob file has no [spec], and
    [Validate] panics with the RayJob assigned. *)
Lemma Validate_assigns_three_fields_witness :
  ∃ rayJob wd json,
    snd (Validate (Examples.initial Examples.rayJobWithoutSpec Examples.goodOptions))
    = mkState (validatedFields Examples.goodOptions rayJob wd json)
        Examples.rayJobWithoutSpec 0 0 0 0 0 [].
Proof.
  apply (Validate_assigns_three_fields
           (Examples.initial Examples.rayJobWithoutSpec Examples.goodOptions)
           (fst (Validate (Examples.initial Examples.rayJobWithoutSpec
                             Examples.goodOptions)))).
  apply surjective_pairing.
Defined.

(* ===================================================================== *)
(** * The submission mode and the readiness predicate *)
(* ===================================================================== *)

Section Rejections.
Context {F : Type} `{Float32 F}.
Implicit Types (s : State F).

(** X6.  Once the kubeconfig has a current context, the runtime env file is
    dealt with and the RayJob file is a regular file that decodes to an
    object with a mapping at [spec], [Validate] returns one of three
    errors unless the submission mode is the string [InteractiveMode]: one
    for a missing key, one for a null, one for any other value, a string or
    not.  The RayJob is assigned all the same. *)
Theorem Validate_rejects_submission_mode s s1 (ctx : string) rayJob spec :
  w_RawConfig (world s) = inl ctx → nonEmpty ctx = true →
  validateRuntimeEnv s = (Ret tt, s1) →
  w_Stat (world s) (fileName (options s)) = StatInfo true →
  w_decodeRayJobYaml (world s) (fileName (options s)) = inl rayJob →
  valueAt (Object rayJob) "spec" = VMap spec →
  spec !! "submissionMode" ≠ Some (VString "InteractiveMode") →
  ∃ s',
    Validate s =
    (Fail (New match spec !! "submissionMode" with
               | None => "RayJob does not have `submissionMode` field set"
               | Some VNil => "Submission mode must be set to 'InteractiveMode'"
               | Some _ => "Submission mode of the Ray Job is not supported"
               end), s') ∧
    RayJob (options s') = Some rayJob.
Proof.
  intros Hc Hctx Henv Hstat Hdec Hspec Hmode.
  pose proof (validateRuntimeEnv_Ret s s1 Henv) as (wd1 & Hs1 & _).
  assert (world s1 = world s ∧ fileName (options s1) = fileName (options s))
    as [Hw Hfn] by (by rewrite Hs1).
  unfold Validate.
  erewrite bind_Ret; [|reflexivity].
  erewrite bind_Ret; [|rewrite Hc; reflexivity].
  rewrite Hctx. cbv beta iota delta [negb].
  rewrite (bind_Ret _ _ _ _ _ Henv).
  erewrite bind_Ret; [|reflexivity].
  erewrite bind_Ret; [|rewrite Hfn, Hstat; reflexivity].
  erewrite bind_Ret; [|reflexivity].
  erewrite bind_Ret; [|unfold modify_options; simpl; rewrite Hfn, Hdec; reflexivity].
  unfold bind, validateSubmissionMode, bind, lift, assertMap. rewrite Hspec.
  destruct (spec !! "submissionMode") as [[| | |m| | |]|] eqn:Hm;
    try (eexists; split; reflexivity).
  simpl. destruct (String.eqb_spec m "InteractiveMode") as [->|Hne]; [done|].
  eexists; split; reflexivity.
Qed.

(** X7.  When the cluster has a mapping at [status], the predicate does not
    panic, and it returns true exactly when there is a true Ready
    condition in a Go slice of conditions or the state is the string
    [ready]; it returns no error with true, and its error with false. *)
Theorem isRayClusterReady_disjunction (c : Unstructured) (status : gmap string value) :
  Object c !! "status" = Some (VMap status) →
  ∃ ready : bool,
    isRayClusterReady c
    = Ret (ready,
           if ready : bool then None
           else Some (New "Cannot determine cluster state")) ∧
    (ready = true ↔
     (∃ conditions, valueAt status "conditions" = VConditions conditions ∧
                    IsStatusConditionTrue conditions "Ready" = true)
     ∨ valueAt status "state" = VString "ready").
Proof.
  intros Hs. rewrite (isRayClusterReady_with_status c status Hs).
  destruct (valueAt status "conditions") as [| | | | | |cs] eqn:Hc; simpl;
    destruct (valueAt status "state") as [| | |st| | |] eqn:Hst; simpl;
    try destruct (IsStatusConditionTrue cs "Ready") eqn:Hr; simpl;
    try destruct (String.eqb_spec st "ready") as [->|Hne]; simpl;
    try (exists true; split; [reflexivity|]; split; [intros _|done]; eauto; fail);
    try (exists false; split; [reflexivity|]; split; [done|];
         intros [(cs' & Hcs & Ht) | Hst']; congruence).
Qed.

End Rejections.

(** At the inputs of the examples: the RayJob file asks for the mode
    [K8sJobMode]. *)
Lemma Validate_rejects_submission_mode_witness :
  let other :=
    mkUnstructured
      {[ "metadata" := VMap {[ "name" := VString "rayjob-sample" ]};
         "spec" := VMap {[ "submissionMode" := VString "K8sJobMode" ]} ]} in
  let w := Examples.worldWith (inl ∅) (inl other) (Examples.readyAfter 3) (λ _, 0%N)
             (Examples.reachableAfter 2) in
  fst (Validate (Examples.initial w Examples.goodOptions))
  = Fail (New "Submission mode of the Ray Job is not supported").
Proof.
  intros other w.
  destruct (Validate_rejects_submission_mode (Examples.initial w Examples.goodOptions)
              (Examples.initial w Examples.goodOptions) "kind-kind" other
              {[ "submissionMode" := VString "K8sJobMode" ]})
    as (s' & -> & _); try reflexivity.
  vm_compute. discriminate.
Defined.

(** At the inputs of the examples: the state is [ready] and there are no
    conditions. *)
Lemma isRayClusterReady_disjunction_witness :
  isRayClusterReady (Examples.rayCluster "ready") = Ret (true, None).
Proof.
  destruct (isRayClusterReady_disjunction (Examples.rayCluster "ready")
              {[ "state" := VString "ready" ]}) as (ready & -> & Hiff);
    [reflexivity|].
  assert (ready = true) as ->; [|reflexivity].
  apply Hiff. right. reflexivity.
Defined.

(* ===================================================================== *)
(** * The wait for the status of the RayJob *)
(* ===================================================================== *)

Section StatusWait.
Context {F : Type} `{Float32 F}.
Implicit Types (s : State F).

Lemma bind_OutOfFuel {A B} (m : M F A) (k : A → M F B) s s' :
  m s = (OutOfFuel, s') → bind m k s = (OutOfFuel, s').
Proof. intros E. unfold bind. by rewrite E. Qed.

(** The loop of lines 241-247, while no fetch shows a status. *)
Lemma statusLoop_runs_on fuel : ∀ s (rayJob : Unstructured),
  valueAt (Object rayJob) "status" = VNil →
  (∀ n, ∃ u, w_GetRayJob (world s) (getRayJobs s + n) = inl u ∧
             valueAt (Object u) "status" = VNil) →
  ∃ s',
    loop fuel
      (λ rayJob, isNil (valueAt (Object rayJob) "status"))
      (λ rayJob,
         let* r := GetRayJob (GetName rayJob) in
         let* rayJob' := assignRayJob r (λ _, New "Failed to get Ray Job status") in
         do Sleep pollInterval then
         ret rayJob')
      rayJob s = (OutOfFuel, s') ∧
    getRayJobs s' = (getRayJobs s + fuel)%nat ∧
    sleeps s' = (sleeps s + fuel)%nat ∧
    Z.of_nat fuel * pollInterval ≤ now s' - now s.
Proof.
  induction fuel as [|fuel IH]; intros s rayJob Hst Hget; cbn [loop]; rewrite Hst;
    cbn [isNil].
  - exists s. unfold outOfFuel. split; [done|]. split; [lia|]. split; lia.
  - destruct (Hget 0%nat) as (u & Hu & Hust). rewrite Nat.add_0_r in Hu.
    set (s1 := mkState (set_RayJob (Some u) (options s)) (world s)
                 (now s + pollInterval + Z.of_N (w_oversleep (world s) (sleeps s)))
                 (S (sleeps s)) (S (getRayJobs s)) (getClusters s) (probes s)
                 ((trace s ++ [EvGetRayJob (GetName rayJob)]) ++ [EvSleep pollInterval])).
    destruct (IH s1 u Hust) as (s' & Hloop & Hg & Hsl & Hnow).
    { intros n. destruct (Hget (S n)) as (u' & Hu' & Hust').
      exists u'. split; [|done]. subst s1. cbn [world getRayJobs].
      by replace (S (getRayJobs s) + n)%nat with (getRayJobs s + S n)%nat by lia. }
    exists s'. split; [|subst s1; cbn [getRayJobs sleeps now] in *; repeat split; lia].
    erewrite bind_Ret; [exact Hloop|].
    unfold bind, GetRayJob, assignRayJob, modify_options, orFail, Sleep, ret.
    rewrite Hu. reflexivity.
Qed.

(** X8.  The loop that waits for the status of the RayJob has no deadline: as
    long as the RayJob fetched shows no status it goes on, a fetch and a
    sleep of two seconds at a time, whatever the number of iterations. *)
Theorem awaitClusterName_has_no_deadline (fuel : nat) s (rayJob : Unstructured) :
  RayJob (options s) = Some rayJob →
  nonEmpty (GetName rayJob) = true →
  valueAt (Object rayJob) "status" = VNil →
  (∀ n, ∃ u, w_GetRayJob (world s) (getRayJobs s + n) = inl u ∧
             valueAt (Object u) "status" = VNil) →
  ∃ s',
    awaitClusterName fuel s = (OutOfFuel, s') ∧
    getRayJobs s' = (getRayJobs s + fuel)%nat ∧
    sleeps s' = (sleeps s + fuel)%nat ∧
    Z.of_nat fuel * pollInterval ≤ now s' - now s.
Proof.
  intros Hj Hn Hst Hget.
  destruct (statusLoop_runs_on fuel s rayJob Hst Hget) as (s' & Hloop & Hrest).
  exists s'. split; [|done].
  unfold awaitClusterName.
  erewrite bind_Ret; [|unfold theRayJob, bind, get_options; rewrite Hj; reflexivity].
  rewrite Hn. by apply bind_OutOfFuel.
Qed.

(** X9.  When the wait returns, the options hold the RayJob fetched last, or
    the one created when that had a status already; its status is a
    mapping, and the cluster of the options is the string at
    [rayClusterName] there, which is not empty. *)
Theorem awaitClusterName_names_cluster (fuel : nat) s s' :
  awaitClusterName fuel s = (Ret tt, s') →
  ∃ rayJob status,
    RayJob (options s') = Some rayJob ∧
    (RayJob (options s) = Some rayJob ∧ getRayJobs s' = getRayJobs s
     ∨ ∃ n, getRayJobs s' = S n ∧ (getRayJobs s ≤ n)%nat ∧
            w_GetRayJob (world s) n = inl rayJob) ∧
    valueAt (Object rayJob) "status" = VMap status ∧
    valueAt status "rayClusterName" = VString (cluster (options s')) ∧
    cluster (options s') ≠ EmptyString.
Proof.
  unfold awaitClusterName. intros E.
  apply bind_Ret_inv in E as (rayJob0 & s2 & E1 & E).
  assert (s2 = s ∧ RayJob (options s) = Some rayJob0) as [-> Hj].
  { unfold theRayJob, bind, get_options in E1.
    destruct (RayJob (options s)) as [u|]; [|done]. by injection E1 as -> ->. }
  destruct (nonEmpty (GetName rayJob0)); [|done].
  apply bind_Ret_inv in E as (rayJob & s3 & Hloop & E).
  assert (RayJob (options s3) = Some rayJob ∧ world s3 = world s ∧
          (rayJob = rayJob0 ∧ getRayJobs s3 = getRayJobs s
           ∨ ∃ n, getRayJobs s3 = S n ∧ (getRayJobs s ≤ n)%nat ∧
                  w_GetRayJob (world s) n = inl rayJob)) as (Hj3 & Hw3 & Hlast).
  { revert Hloop.
    apply (loop_Ret_preserves
             (λ x s1, RayJob (options s1) = Some x ∧ world s1 = world s ∧
                      (x = rayJob0 ∧ getRayJobs s1 = getRayJobs s
                       ∨ ∃ n, getRayJobs s1 = S n ∧ (getRayJobs s ≤ n)%nat ∧
                              w_GetRayJob (world s) n = inl x))); [|by auto].
    clear. intros x s1 x' s1' (Hx & Hw & Hlast).
    unfold bind, GetRayJob, assignRayJob, modify_options, orFail, Sleep, ret, fail.
    simpl. destruct (w_GetRayJob (world s1) (getRayJobs s1)) as [u|e] eqn:Hu; [|done].
    simpl. intros [= <- <-]. simpl. split; [done|]. split; [done|].
    right. exists (getRayJobs s1). split; [done|]. rewrite <- Hw. split; [|done].
    destruct Hlast as [[_ ->] | (n & -> & Hle & _)]; lia. }
  apply bind_Ret_inv in E as (status & s4 & E4 & E).
  unfold lift in E4.
  destruct (valueAt (Object rayJob) "status") as [| | | |st| |] eqn:Hst; try done.
  injection E4 as <- <-.
  destruct (valueAt st "rayClusterName") as [| | |name| | |] eqn:Hname; try done.
  simpl in E. destruct (nonEmpty name) eqn:Hne; [|done]. simpl in E.
  unfold modify_options in E. injection E as <-. simpl.
  exists rayJob, st. split; [done|]. split.
  { destruct Hlast as [[-> Hg] | Hn]; [left | right]; done. }
  split; [done|]. split; [done|]. by apply nonEmpty_true.
Qed.

End StatusWait.

(** At the inputs of the examples: the operator never reports on the
    RayJob; after 1000 iterations the loop has slept 2000 seconds. *)
Lemma awaitClusterName_has_no_deadline_witness :
  let w := mkWorld id (inl "kind-kind") (λ _, StatInfo true) (λ _, inl ∅)
             (λ _, inl (Examples.rayJob None)) (λ y, inl y) None (λ u, inl u)
             (λ _, inl (Examples.rayJob None))
             (Examples.readyAfter 3) None (inl "raycluster-sample-head-svc")
             (λ _, None) None (Examples.reachableAfter 2) None None
             Examples.stdoutLines None (λ _, 0%N) (λ _, 0%N) (λ _, 0%N) in
  ∃ s', awaitClusterName 1000 (Examples.validated w) = (OutOfFuel, s') ∧
        getRayJobs s' = 1000%nat ∧
        2000 * Second ≤ now s'.
Proof.
  intros w.
  destruct (awaitClusterName_has_no_deadline 1000 (Examples.validated w)
              (Examples.rayJob None)) as (s' & E & Hg & _ & Hnow);
    [reflexivity | reflexivity | reflexivity | |].
  - intros n. exists (Examples.rayJob None). split; reflexivity.
  - exists s'. split; [exact E|]. split; [exact Hg|].
    change (now (Examples.validated w)) with 0 in Hnow.
    change (Z.of_nat 1000 * pollInterval) with (2000 * Second) in Hnow. lia.
Defined.

(** At the inputs of the examples: the first fetch shows the status. *)
Lemma awaitClusterName_names_cluster_witness :
  cluster (options (snd (awaitClusterName 61 (Examples.validated Examples.calm))))
  = "raycluster-sample".
Proof.
  destruct (awaitClusterName_names_cluster 61 (Examples.validated Examples.calm)
              (snd (awaitClusterName 61 (Examples.validated Examples.calm))))
    as (rayJob & status & Hj & _ & Hst & Hname & _); [vm_compute; reflexivity|].
  assert (RayJob (options (snd (awaitClusterName 61 (Examples.validated Examples.calm))))
          = Some Examples.rayJobWithCluster) as Hj' by (vm_compute; reflexivity).
  rewrite Hj' in Hj. injection Hj as <-.
  assert (valueAt (Object Examples.rayJobWithCluster) "status"
          = VMap {[ "rayClusterName" := VString "raycluster-sample" ]}) as Hst'
    by reflexivity.
  rewrite Hst' in Hst.
  assert (status = {[ "rayClusterName" := VString "raycluster-sample" ]}) as ->
    by congruence.
  change (valueAt {[ "rayClusterName" := VString "raycluster-sample" ]} "rayClusterName")
    with (VString "raycluster-sample") in Hname.
  congruence.
Defined.

(* ===================================================================== *)
(** * The submission, step by step *)
(* ===================================================================== *)

Section Submission.
Context {F : Type} `{Float32 F}.
Implicit Types (s : State F).

Lemma logged_logged s (a b : list Event) : logged (logged s a) b = logged s (a ++ b).
Proof. unfold logged. simpl. by rewrite <- app_assoc. Qed.

Lemma newEvents_logged s evs : newEvents s (logged s evs) = evs.
Proof. unfold newEvents, logged. simpl. by rewrite drop_app_length. Qed.

(** [submitAndAnnotate], case by case. *)
Lemma submitAndAnnotate_eq s :
  submitAndAnnotate s =
  match fst (raySubmitCmd s) with
  | Ret cmd =>
      let banner := EvPrint ("Ray command: [" +:+ Join cmd " " +:+ "]" +:+ nl) in
      match w_StdoutPipe (world s) with
      | Some e =>
          (Fail (Wrap "Error while setting up `ray job submit` stdout: " e),
           logged s [banner])
      | None =>
      match w_StderrPipe (world s) with
      | Some e =>
          (Fail (Wrap "Error while setting up `ray job submit` stderr: " e),
           logged s [banner])
      | None =>
      let started :=
        [banner; EvPrint ("Running ray submit job command..." +:+ nl); EvStart cmd] in
      match heldJobID s with
      | None => (Hang, logged s started)
      | Some rayJobID =>
      match RayJob (options s) with
      | None =>
          (Panic "invalid memory address or nil pointer dereference", logged s started)
      | Some rayJob =>
      let fetchedState (r : option Unstructured) (evs : list Event) :=
        mkState (set_RayJob r (options s)) (world s) (now s) (sleeps s)
          (S (getRayJobs s)) (getClusters s) (probes s)
          (trace s ++ started ++ EvGetRayJob (GetName rayJob) :: evs) in
      match w_GetRayJob (world s) (getRayJobs s) with
      | inr _ =>
          (Fail (New "Failed to get latest version of Ray Job"), fetchedState None [])
      | inl fetched =>
      let updated :=
        SetAnnotations
          (<[submissionIdKey := rayJobID]> (default ∅ (GetAnnotations fetched)))
          fetched in
      match w_Update (world s) updated with
      | Some e =>
          (Fail (Wrap "Error occurred when trying to add job ID to rayJob: " e),
           fetchedState (Some updated) [EvUpdate updated])
      | None =>
          (match w_Wait (world s) with
           | Some e => Fail (Wrap "Error occurred with ray job submit: " e)
           | None => Ret tt
           end,
           fetchedState (Some updated) [EvUpdate updated; EvWait])
      end end end end end end
  | Fail err =>
      (Fail (Wrap "failed to create Ray submit command with error: " err), s)
  | Panic msg => (Panic msg, s)
  | Hang => (Hang, s)
  | OutOfFuel => (OutOfFuel, s)
  end.
Proof.
  pose proof (raySubmitCmd_state s) as Hs.
  unfold submitAndAnnotate, wrapFail. unfold bind at 1, ask. unfold bind at 1.
  destruct (raySubmitCmd s) as [[cmd|e|m| |] s0]; simpl in Hs; subst s0; try reflexivity.
  cbv zeta. cbn [fst].
  unfold awaitJobID, heldJobID, theRayJob, assignRayJob, GetRayJob, bind, ask,
    get_options, emitEvent, failIf, modify_options, orFail, ret, fail, panic, hang, logged.
  destruct (w_StdoutPipe (world s)); [reflexivity|].
  destruct (w_StderrPipe (world s)); [reflexivity|].
  cbn [options world now sleeps getRayJobs getClusters probes trace].
  destruct (nonEmpty (submissionID (options s)));
    [|destruct (firstSend (tokens (w_stdout (world s)))); [|cbv beta iota; by state_eq]];
    (cbn [options world now sleeps getRayJobs getClusters probes trace];
     destruct (RayJob (options s)) as [rayJob|]; [|cbv beta iota; by state_eq];
     cbn [options world now sleeps getRayJobs getClusters probes trace];
     destruct (w_GetRayJob (world s) (getRayJobs s)) as [fetched|e'];
       [|cbv beta iota; by state_eq];
     cbn [options world now sleeps getRayJobs getClusters probes trace];
     destruct (w_Update (world s) _); [cbv beta iota; by state_eq|];
     cbn [options world now sleeps getRayJobs getClusters probes trace];
     destruct (w_Wait (world s)); cbv beta iota; by state_eq).
Qed.

(** [connectAndSubmit], case by case. *)
Lemma connectAndSubmit_eq fuel s :
  connectAndSubmit fuel s =
  let asked := EvGetRayHeadSvcName (cluster (options s)) in
  match w_GetRayHeadSvcName (world s) with
  | inr e => (Fail (Wrap "Failed to find service name: " e), logged s [asked])
  | inl svcName =>
      let opened :=
        [asked; EvPortForward ["service/" +:+ svcName; "8265:8265"];
         EvPrint ("Port Forwarding service " +:+ svcName +:+ nl)] in
      let cancelled (o : Outcome unit) (s' : State F) :=
        (o, if deferred o then logged s' [EvCancel] else s') in
      match waitForPortForward fuel (logged s opened) with
      | (Ret true, s1) =>
          let r := submitAndAnnotate
                     (logged s1 [EvPrint ("Portforwarding started on "
                                          +:+ dashboardAddr +:+ nl)]) in
          cancelled (fst r) (snd r)
      | (Ret false, s1) =>
          cancelled (Fail (New "Timed out waiting for port forwarding")) s1
      | (Fail e, s1) => cancelled (Fail e) s1
      | (Panic msg, s1) => cancelled (Panic msg) s1
      | (Hang, s1) => (Hang, s1)
      | (OutOfFuel, s1) => (OutOfFuel, s1)
      end
  end.
Proof.
  unfold connectAndSubmit, withDefer, bind, ask, get_options, orFail, emitEvent, ret,
    fail.
  cbv beta iota zeta.
  destruct (w_GetRayHeadSvcName (world s)) as [svcName|e]; [|reflexivity].
  cbn [options world now sleeps getRayJobs getClusters probes trace].
  assert (logged s [EvGetRayHeadSvcName (cluster (options s));
                    EvPortForward ["service/" +:+ svcName; "8265:8265"];
                    EvPrint ("Port Forwarding service " +:+ svcName +:+ nl)]
          = mkState (options s) (world s) (now s) (sleeps s) (getRayJobs s)
              (getClusters s) (probes s)
              (((trace s ++ [EvGetRayHeadSvcName (cluster (options s))]) ++
                [EvPortForward ["service/" +:+ svcName; "8265:8265"]]) ++
               [EvPrint ("Port Forwarding service " +:+ svcName +:+ nl)])) as ->
    by (unfold logged; by state_eq).
  destruct (waitForPortForward fuel _) as [[[|]|e|msg| |] s1]; try reflexivity.
  cbv beta iota delta [negb].
  change (mkState (options s1) (world s1) (now s1) (sleeps s1) (getRayJobs s1)
            (getClusters s1) (probes s1)
            (trace s1 ++ [EvPrint ("Portforwarding started on " +:+ dashboardAddr +:+ nl)]))
    with (logged s1 [EvPrint ("Portforwarding started on " +:+ dashboardAddr +:+ nl)]).
  destruct (submitAndAnnotate _) as [[[]|e|msg| |] s2]; reflexivity.
Qed.

End Submission.

(* ===================================================================== *)
(** * The ways of a run *)
(* ===================================================================== *)

Section Journal.
Context {F : Type} `{Float32 F}.
Implicit Types (s : State F).

Lemma evolves_logged ks s (evs : list Event) :
  Forall (λ e, kindOf e ∈ ks) evs → evolves ks s (logged s evs).
Proof. intros Hf. split; [done|]. split; [done|]. by exists evs. Qed.

Lemma in_newEvents_kind ks s s' e :
  evolves ks s s' → e ∈ newEvents s s' → kindOf e ∈ ks.
Proof.
  intros Hev Hin. apply evolves_newEvents in Hev.
  induction Hev as [|e' evs He' _ IH]; [by apply elem_of_nil in Hin|].
  apply elem_of_cons in Hin as [->|Hin]; auto.
Qed.

(** How a run of [Run] goes.  It ends before the tunnel; or the cluster
    is seen ready and the name of the head service is not found; or the
    tunnel is opened, and then the run ends in the wait for it or goes
    through the submission, the deferred cancel coming last unless the run
    blocks. *)
Lemma Run_journal fuel s o s' :
  Run fuel s = (o, s') →
  (evolves (clusterKinds ++ [KDelete]) s s' ∧ ∀ a, o ≠ Ret a) ∨
  ∃ sb sc,
    evolves clusterKinds s sb ∧ waitForCluster fuel sb = (Ret true, sc) ∧
    evolves clusterKinds s sc ∧
    (∃ rayJob evs0,
       RayJob (options s) = Some rayJob ∧
       trace sc = trace s ++ EvCreate rayJob :: evs0 ∧
       Forall (λ e, kindOf e ∈ readKinds) evs0) ∧
    ((∃ e, w_GetRayHeadSvcName (world s) = inr e ∧
           o = Fail (Wrap "Failed to find service name: " e) ∧
           s' = logged sc [EvGetRayHeadSvcName (cluster (options sc))]) ∨
     ∃ svcName s3,
       w_GetRayHeadSvcName (world s) = inl svcName ∧
       s' = (if deferred o then logged s3 [EvCancel] else s3) ∧
       ((evolves probeKinds (logged sc (opened sc svcName)) s3 ∧ ∀ a, o ≠ Ret a) ∨
        ∃ sx, waitForPortForward fuel (logged sc (opened sc svcName)) = (Ret true, sx) ∧
              submitAndAnnotate (logged sx [tunnelUp]) = (o, s3))).
Proof.
  intros E.
  apply Run_phases in E as [(sa & sb & ready & sc & Ea & Eb & Ec & E) | [Hev Hne]].
  2: { left. split; [|done]. eapply evolves_weaken; [|exact Hev].
       unfold clusterKinds. kinds_subset. }
  assert (evolves clusterKinds s sb) as Hsb.
  { apply (evolves_trans _ s sa).
    - eapply evolves_weaken; [|by eapply createRayJob_emits]. unfold clusterKinds.
      kinds_subset.
    - eapply evolves_weaken; [|by eapply awaitClusterName_emits]. unfold clusterKinds.
      kinds_subset. }
  assert (evolves clusterKinds s sc) as Hsc.
  { apply (evolves_trans _ s sb); [done|].
    eapply evolves_weaken; [|by eapply waitForCluster_emits]. unfold clusterKinds.
    kinds_subset. }
  destruct ready.
  2: { left. split.
       - apply (evolves_trans _ s sc).
         + eapply evolves_weaken; [|exact Hsc]. unfold clusterKinds. kinds_subset.
         + eapply evolves_weaken; [|by eapply cleanUpAfterTimeout_emits].
           unfold clusterKinds. kinds_subset.
       - intros a ->.
         apply cleanUpAfterTimeout_outcome in E as [? | [[e ?] | [msg ?]]]; done. }
  right. exists sb, sc. split; [done|]. split; [done|]. split; [done|].
  split.
  { destruct (createRayJob_Ret s sa Ea) as (rayJob & created & Hj & _ & _ & Hta).
    pose proof (awaitClusterName_emits fuel sa _ sb Eb) as (_ & _ & evs1 & Ht1 & Hf1).
    pose proof (waitForCluster_emits fuel sb _ sc Ec) as (_ & _ & evs2 & Ht2 & Hf2).
    exists rayJob,
      (EvPrint ("Submitted RayJob " +:+ GetName created +:+ "." +:+ nl) :: evs1 ++ evs2).
    split; [done|]. split.
    - rewrite Ht2, Ht1, Hta, <- !app_assoc. reflexivity.
    - constructor; [unfold readKinds; simpl; kind_in|]. apply Forall_app. split.
      + eapply List.Forall_impl; [|exact Hf1]. intros e He. simpl in He.
        unfold readKinds. revert He. generalize (kindOf e). kinds_subset.
      + eapply List.Forall_impl; [|exact Hf2]. intros e He. simpl in He.
        unfold readKinds. revert He. generalize (kindOf e). kinds_subset. }
  destruct Hsc as (Hw & _).
  rewrite connectAndSubmit_eq in E. cbv zeta in E. rewrite Hw in E.
  destruct (w_GetRayHeadSvcName (world s)) as [svcName|e].
  2: { left. exists e. injection E as <- <-. done. }
  right. exists svcName. fold (opened sc svcName) in E. fold tunnelUp in E.
  destruct (waitForPortForward fuel (logged sc (opened sc svcName)))
    as [[[|]|e|msg| |] sx] eqn:Ew.
  - destruct (submitAndAnnotate (logged sx [tunnelUp])) as [o3 s3] eqn:Es.
    simpl in E. injection E as <- <-. exists s3. split; [done|]. split; [done|]. right. by exists sx.
  - injection E as <- <-. exists sx. split; [done|]. split; [done|]. left.
    split; [by eapply waitForPortForward_emits|done].
  - injection E as <- <-. exists sx. split; [done|]. split; [done|]. left.
    split; [by eapply waitForPortForward_emits|done].
  - injection E as <- <-. exists sx. split; [done|]. split; [done|]. left.
    split; [by eapply waitForPortForward_emits|done].
  - injection E as <- <-. exists sx. split; [done|]. split; [done|]. left.
    split; [by eapply waitForPortForward_emits|done].
  - injection E as <- <-. exists sx. split; [done|]. split; [done|]. left.
    split; [by eapply waitForPortForward_emits|done].
Qed.

End Journal.

Section JournalFacts.
Context {F : Type} `{Float32 F}.
Implicit Types (s : State F).

Lemma newEvents_app s s' (evs : list Event) :
  trace s' = trace s ++ evs → newEvents s s' = evs.
Proof. intros Ht. unfold newEvents. by rewrite Ht, drop_app_length. Qed.

Lemma evolves_trace ks s s' : evolves ks s s' → trace s' = trace s ++ newEvents s s'.
Proof.
  intros (_ & _ & evs & Ht & _). by rewrite (newEvents_app _ _ _ Ht).
Qed.

Lemma newEvents_logged_after ks s s3 (evs : list Event) :
  evolves ks s s3 → newEvents s (logged s3 evs) = newEvents s s3 ++ evs.
Proof.
  intros Hev. apply newEvents_app. unfold logged. simpl.
  by rewrite (evolves_trace _ _ _ Hev), <- app_assoc.
Qed.

Lemma in_newEvents_split ks ks' s sm s' e :
  evolves ks s sm → evolves ks' sm s' → e ∈ newEvents s s' →
  kindOf e ∈ ks ∨ e ∈ newEvents sm s'.
Proof.
  intros H1 H2 Hin. rewrite (newEvents_trans _ _ _ _ _ H1 H2) in Hin.
  apply elem_of_app in Hin as [Hin|Hin]; [left|by right].
  by eapply in_newEvents_kind.
Qed.

Lemma evolves_app ks ks' s s' : evolves ks s s' → evolves (ks ++ ks') s s'.
Proof. apply evolves_weaken. intros k Hk. apply elem_of_app. by left. Qed.

Lemma evolves_app_r ks ks' s s' : evolves ks' s s' → evolves (ks ++ ks') s s'.
Proof. apply evolves_weaken. intros k Hk. apply elem_of_app. by right. Qed.

(** The state before the deferred cancel, in a run that opens the
    tunnel. *)
Lemma Run_tunnel fuel s o s' args :
  Run fuel s = (o, s') → EvPortForward args ∈ newEvents s s' →
  ∃ s3, evolves (allBut KCancel) s s3 ∧
        s' = (if deferred o then logged s3 [EvCancel] else s3).
Proof.
  intros E Hin.
  apply Run_journal in E
    as [[Hev _] | (sb & sc & Hsb & Ec & Hsc & _ & [(e & _ & -> & ->) | Hrun])].
  - apply (in_newEvents_kind _ _ _ _ Hev) in Hin. exfalso. revert Hin.
    unfold clusterKinds. simpl. kind_not_in.
  - rewrite (newEvents_logged_after _ _ _ _ Hsc) in Hin.
    apply elem_of_app in Hin as [Hin|Hin].
    + apply (in_newEvents_kind _ _ _ _ Hsc) in Hin. exfalso. revert Hin.
      unfold clusterKinds. simpl. kind_not_in.
    + apply elem_of_cons in Hin as [Hin|Hin]; [done|]. by apply elem_of_nil in Hin.
  - destruct Hrun as (svcName & s3 & _ & -> & Hrest). exists s3. split; [|done].
    assert (evolves (allBut KCancel) s (logged sc (opened sc svcName))) as Hop.
    { apply (evolves_trans _ s sc).
      - eapply evolves_weaken; [|exact Hsc]. unfold clusterKinds. kinds_subset.
      - apply evolves_logged. unfold opened. repeat constructor; kind_in_allBut. }
    destruct Hrest as [[Hev _] | (sx & Ew & Es)].
    + apply (evolves_trans _ _ _ _ Hop).
      eapply evolves_weaken; [|exact Hev]. unfold probeKinds. kinds_subset.
    + apply (evolves_trans _ _ _ _ Hop). apply (evolves_trans _ _ sx).
      * eapply evolves_weaken; [|by eapply waitForPortForward_emits]. kinds_subset.
      * apply (evolves_trans _ _ (logged sx [tunnelUp])).
        -- apply evolves_logged. repeat constructor; kind_in_allBut.
        -- eapply evolves_weaken; [|by eapply submitAndAnnotate_emits]. kinds_subset.
Qed.

(** X11.  Whenever [Run] has opened the tunnel, the deferred cancel is its last
    event, and there is no other cancel, unless the run blocks: then the
    tunnel is never cancelled. *)
Theorem Run_cancels_tunnel fuel s o s' args :
  Run fuel s = (o, s') → EvPortForward args ∈ newEvents s s' →
  if deferred o
  then ∃ evs, newEvents s s' = evs ++ [EvCancel] ∧ EvCancel ∉ evs
  else EvCancel ∉ newEvents s s'.
Proof.
  intros E Hin. destruct (Run_tunnel fuel s o s' args E Hin) as (s3 & Hev & ->).
  assert (EvCancel ∉ newEvents s s3) as Hno.
  { intros Hc. apply (in_newEvents_kind _ _ _ _ Hev) in Hc. revert Hc.
    unfold allBut, allKinds. simpl. kind_not_in. }
  destruct (deferred o); [|done].
  exists (newEvents s s3). split; [|done]. by eapply newEvents_logged_after.
Qed.

(** An event that only the submission causes: the cluster was seen
    ready, the tunnel has answered, and the event is one of
    [submitAndAnnotate]. *)
Lemma Run_submit_event fuel s o s' e :
  Run fuel s = (o, s') → e ∈ newEvents s s' → kindOf e ∈ submitKinds →
  ∃ sb sc svcName sx s3,
    evolves clusterKinds s sb ∧ waitForCluster fuel sb = (Ret true, sc) ∧
    evolves clusterKinds s sc ∧
    waitForPortForward fuel (logged sc (opened sc svcName)) = (Ret true, sx) ∧
    evolves (allBut KCancel) s (logged sx [tunnelUp]) ∧
    submitAndAnnotate (logged sx [tunnelUp]) = (o, s3) ∧
    s' = (if deferred o then logged s3 [EvCancel] else s3) ∧
    e ∈ newEvents (logged sx [tunnelUp]) s3.
Proof.
  intros E Hin Hk.
  assert (∀ ks : list kind, kindOf e ∈ ks → (∀ k, k ∈ submitKinds → k ∉ ks) → False) as Hquiet.
  { intros ks Hks Hd. by apply (Hd _ Hk). }
  assert (e ≠ EvCancel) as Hnc.
  { intros ->. revert Hk. unfold submitKinds. simpl. kind_not_in. }
  apply Run_journal in E
    as [[Hev _] | (sb & sc & Hsb & Ec & Hsc & _ & [(e' & _ & -> & ->) | Hrun])].
  - exfalso. apply (Hquiet _ (in_newEvents_kind _ _ _ _ Hev Hin)).
    intros k Hk'. unfold submitKinds in Hk'.
    repeat (apply elem_of_cons in Hk' as [->|Hk']; [unfold clusterKinds; simpl; kind_not_in|]).
    by apply elem_of_nil in Hk'.
  - exfalso. rewrite (newEvents_logged_after _ _ _ _ Hsc) in Hin.
    apply elem_of_app in Hin as [Hin|Hin].
    + apply (Hquiet _ (in_newEvents_kind _ _ _ _ Hsc Hin)).
      intros k Hk'. unfold submitKinds in Hk'.
      repeat (apply elem_of_cons in Hk' as [->|Hk']; [unfold clusterKinds; simpl; kind_not_in|]).
      by apply elem_of_nil in Hk'.
    + apply elem_of_cons in Hin as [->|Hin]; [|by apply elem_of_nil in Hin].
      revert Hk. unfold submitKinds. simpl. kind_not_in.
  - destruct Hrun as (svcName & s3 & _ & -> & Hrest).
    assert (evolves (allBut KCancel) s (logged sc (opened sc svcName))) as Hop.
    { apply (evolves_trans _ s sc).
      - eapply evolves_weaken; [|exact Hsc]. unfold clusterKinds. kinds_subset.
      - apply evolves_logged. unfold opened. repeat constructor; kind_in_allBut. }
    assert (evolves [KPrint; KCreate; KGetRayJob; KSleep; KGetCluster;
                     KGetRayHeadSvcName; KPortForward; KDo; KBodyClose]
              s (logged sc (opened sc svcName))) as Hop'.
    { apply (evolves_trans _ s sc).
      - eapply evolves_weaken; [|exact Hsc]. unfold clusterKinds. kinds_subset.
      - apply evolves_logged. unfold opened. repeat constructor. }
    destruct Hrest as [[Hev _] | (sx & Ew & Es)].
    + exfalso.
      assert (evolves [KPrint; KCreate; KGetRayJob; KSleep; KGetCluster;
                       KGetRayHeadSvcName; KPortForward; KDo; KBodyClose] s s3) as H3.
      { apply (evolves_trans _ _ _ _ Hop').
        eapply evolves_weaken; [|exact Hev]. unfold probeKinds. kinds_subset. }
      assert (e ∈ newEvents s s3) as Hin3.
      { destruct (deferred o); [|done].
        rewrite (newEvents_logged_after _ _ _ _ H3) in Hin.
        apply elem_of_app in Hin as [Hin|Hin]; [done|].
        apply elem_of_cons in Hin as [->|Hin]; [done|]. by apply elem_of_nil in Hin. }
      apply (Hquiet _ (in_newEvents_kind _ _ _ _ H3 Hin3)).
      intros k Hk'. unfold submitKinds in Hk'.
      repeat (apply elem_of_cons in Hk' as [->|Hk']; [kind_not_in|]).
      by apply elem_of_nil in Hk'.
    + pose proof (waitForPortForward_emits fuel _ _ _ Ew) as Hw.
      assert (evolves [KPrint; KCreate; KGetRayJob; KSleep; KGetCluster;
                       KGetRayHeadSvcName; KPortForward; KDo; KBodyClose]
                s (logged sx [tunnelUp])) as Hx.
      { apply (evolves_trans _ _ _ _ Hop'). apply (evolves_trans _ _ sx).
        - eapply evolves_weaken; [|exact Hw]. kinds_subset.
        - apply evolves_logged. repeat constructor. }
      pose proof (submitAndAnnotate_emits _ _ _ Es) as Hs3.
      exists sb, sc, svcName, sx, s3. repeat (split; [done|]). split.
      { eapply evolves_weaken; [|exact Hx]. kinds_subset. }
      split; [done|]. split; [done|].
      assert (e ∈ newEvents s s3) as Hin3.
      { destruct (deferred o); [|done].
        rewrite (newEvents_logged_after _ s s3 [EvCancel]
                   (evolves_trans _ _ _ _ (evolves_app _ _ _ _ Hx)
                      (evolves_app_r _ _ _ _ Hs3))) in Hin.
        apply elem_of_app in Hin as [Hin|Hin]; [done|].
        apply elem_of_cons in Hin as [->|Hin]; [done|]. by apply elem_of_nil in Hin. }
      destruct (in_newEvents_split _ _ _ _ _ _ Hx Hs3 Hin3) as [Hq|]; [|done].
      exfalso. apply (Hquiet _ Hq).
      intros k Hk'. unfold submitKinds in Hk'.
      repeat (apply elem_of_cons in Hk' as [->|Hk']; [kind_not_in|]).
      by apply elem_of_nil in Hk'.
Qed.

End JournalFacts.

(* ===================================================================== *)
(** * What a run submits, and when *)
(* ===================================================================== *)

Section SubmitFacts.
Context {F : Type} `{Float32 F}.
Implicit Types (s : State F).

Lemma heldJobID_evolves ks s s' : evolves ks s s' → heldJobID s' = heldJobID s.
Proof.
  intros (Hw & Hg & _). unfold heldJobID. rewrite Hw.
  unfold asGiven in Hg. injection Hg as _ ->. done.
Qed.

(** Without a submission ID and without a line of stdout that shows an
    identifier, the main flow holds none. *)
Lemma heldJobID_None s :
  submissionID (options s) = EmptyString →
  Forall (λ l, ¬ matching l) (w_stdout (world s)) →
  heldJobID s = None.
Proof.
  intros Hid Hall. unfold heldJobID, tokens. rewrite Hid. simpl.
  induction Hall as [|l lines Hl _ IH]; [done|]. simpl.
  by rewrite (sends_not_matching _ Hl).
Qed.

(** The events that only the submission causes, one by one. *)
Lemma submitAndAnnotate_submit_event s o s' e :
  submitAndAnnotate s = (o, s') → e ∈ newEvents s s' → kindOf e ∈ submitKinds →
  ∃ cmd,
    fst (raySubmitCmd s) = Ret cmd ∧
    match heldJobID s with
    | None => o = Hang ∧ e = EvStart cmd
    | Some id =>
        e = EvStart cmd ∨ e = EvWait ∨
        ∃ fetched,
          w_GetRayJob (world s) (getRayJobs s) = inl fetched ∧
          e = EvUpdate (SetAnnotations
                          (<[submissionIdKey := id]> (default ∅ (GetAnnotations fetched)))
                          fetched)
    end.
Proof.
  intros E Hin Hk. rewrite submitAndAnnotate_eq in E. cbv zeta in E.
  assert (∀ evs : list Event, e ∈ evs →
            Forall (λ e', kindOf e' ∈ submitKinds → e' = e → False) evs → False)
    as Hnone.
  { intros evs He Hf. induction Hf as [|e' evs' He' _ IH].
    - by apply elem_of_nil in He.
    - apply elem_of_cons in He as [->|He]; eauto. }
  destruct (fst (raySubmitCmd s)) as [cmd|err|msg| |];
    try (injection E as <- <-; unfold newEvents in Hin; rewrite drop_all in Hin;
         by apply elem_of_nil in Hin).
  exists cmd. split; [done|].
  destruct (w_StdoutPipe (world s)).
  { exfalso. injection E as <- <-. rewrite newEvents_logged in Hin.
    apply (Hnone _ Hin). repeat constructor.
    intros Hk' _. revert Hk'. unfold submitKinds. simpl. kind_not_in. }
  destruct (w_StderrPipe (world s)).
  { exfalso. injection E as <- <-. rewrite newEvents_logged in Hin.
    apply (Hnone _ Hin). repeat constructor.
    intros Hk' _. revert Hk'. unfold submitKinds. simpl. kind_not_in. }
  destruct (heldJobID s) as [id|].
  2: { injection E as <- <-. rewrite newEvents_logged in Hin. split; [done|].
       repeat (apply elem_of_cons in Hin as [->|Hin];
               [first [done | exfalso; revert Hk; unfold submitKinds; simpl; kind_not_in]|]).
       by apply elem_of_nil in Hin. }
  destruct (RayJob (options s)) as [rayJob|].
  2: { injection E as <- <-. rewrite newEvents_logged in Hin.
       repeat (apply elem_of_cons in Hin as [->|Hin];
               [first [by left | exfalso; revert Hk; unfold submitKinds; simpl; kind_not_in]|]).
       by apply elem_of_nil in Hin. }
  destruct (w_GetRayJob (world s) (getRayJobs s)) as [fetched|e'].
  2: { injection E as <- <-. unfold newEvents in Hin; cbn [trace] in Hin; rewrite drop_app_length in Hin.
       repeat (apply elem_of_cons in Hin as [->|Hin];
               [first [by left | exfalso; revert Hk; unfold submitKinds; simpl; kind_not_in]|]).
       by apply elem_of_nil in Hin. }
  destruct (w_Update (world s) _);
    injection E as <- <-; unfold newEvents in Hin; cbn [trace] in Hin; rewrite drop_app_length in Hin;
    repeat (apply elem_of_cons in Hin as [->|Hin];
            [first [by left | by right; left | by right; right; exists fetched
                   | exfalso; revert Hk; unfold submitKinds; simpl; kind_not_in]|]);
    by apply elem_of_nil in Hin.
Qed.

(** X13.  When [Run] updates the RayJob, the object it sends is the RayJob just
    fetched, with the identifier that the main flow holds at the key of
    the submission ID: the submission ID when one is given, whatever the
    process prints, and else the first identifier that stdout shows. *)
Theorem Run_annotates_held_id (fuel : nat) s o s' u :
  Run fuel s = (o, s') → EvUpdate u ∈ newEvents s s' →
  ∃ id fetched n,
    heldJobID s = Some id ∧
    (submissionID (options s) ≠ EmptyString → id = submissionID (options s)) ∧
    w_GetRayJob (world s) n = inl fetched ∧
    u = SetAnnotations
          (<[submissionIdKey := id]> (default ∅ (GetAnnotations fetched))) fetched.
Proof.
  intros E Hin.
  destruct (Run_submit_event fuel s o s' (EvUpdate u) E Hin)
    as (sb & sc & svcName & sx & s3 & _ & _ & _ & _ & Hx & Es & _ & Hin3).
  { unfold submitKinds. simpl. kind_in. }
  destruct (submitAndAnnotate_submit_event _ _ _ _ Es Hin3) as (cmd & _ & Hcase).
  { unfold submitKinds. simpl. kind_in. }
  rewrite (heldJobID_evolves _ _ _ Hx) in Hcase.
  destruct (heldJobID s) as [id|] eqn:Hid; [|by destruct Hcase].
  destruct Hcase as [? | [? | (fetched & Hf & Hu)]]; try done.
  destruct Hx as (Hw & _). rewrite Hw in Hf.
  exists id, fetched, (getRayJobs (logged sx [tunnelUp])).
  split; [done|]. split.
  { intros Hne. unfold heldJobID in Hid. apply nonEmpty_true in Hne.
    rewrite Hne in Hid. by injection Hid. }
  split; [done|]. by injection Hu.
Qed.

End SubmitFacts.

(* ===================================================================== *)
(** * A run from its first event to its last *)
(* ===================================================================== *)

Section RunEnds.
Context {F : Type} `{Float32 F}.
Implicit Types (s : State F).

Lemma effects_app (a b : list Event) : effects (a ++ b) = effects a ++ effects b.
Proof. apply List.filter_app. Qed.

Lemma effects_none (ks : list kind) (evs : list Event) :
  Forall (λ e, kindOf e ∈ ks) evs → (∀ k, k ∈ ks → k ∉ effectKinds) → effects evs = [].
Proof.
  intros Hf Hd. induction Hf as [|e evs He _ IH]; [done|].
  unfold effects. simpl. rewrite bool_decide_eq_false_2; [exact IH|]. by apply Hd.
Qed.

(** [createRayJob] calls the API server for nothing but the creation,
    and that comes before anything it prints. *)
Lemma createRayJob_first s o s' :
  createRayJob s = (o, s') →
  newEvents s s' = [] ∨
  ∃ rayJob evs, RayJob (options s) = Some rayJob ∧ newEvents s s' = EvCreate rayJob :: evs.
Proof.
  unfold createRayJob, theRayJob, assignRayJob, bind, ask, failIf, get_options,
    emitEvent, modify_options, orFail, ret, fail, panic.
  destruct (w_NewClient (world s)).
  { intros [= <- <-]. left. unfold newEvents. by rewrite drop_all. }
  destruct (RayJob (options s)) as [rayJob|].
  2: { intros [= <- <-]. left. unfold newEvents. by rewrite drop_all. }
  simpl. destruct (w_Create (world s) rayJob) as [created|e]; simpl;
    intros [= <- <-]; right; exists rayJob; eexists; (split; [done|]);
    unfold newEvents; simpl; rewrite <- ?app_assoc, drop_app_length; reflexivity.
Qed.

(** X10.  Whatever [Run] does, it does after it has called the API server for
    the creation of the RayJob that [Validate] decoded: that call is the
    first event of every run that has any. *)
Theorem Run_creates_first (fuel : nat) s o s' :
  Run fuel s = (o, s') →
  newEvents s s' = [] ∨
  ∃ rayJob evs, RayJob (options s) = Some rayJob ∧ newEvents s s' = EvCreate rayJob :: evs.
Proof.
  unfold Run. intros E.
  apply bind_inv in E as [([] & sa & Ea & E) | (o1 & Ea & _ & _)].
  2: { by apply createRayJob_first in Ea. }
  right. destruct (createRayJob_Ret s sa Ea) as (rayJob & created & Hj & _ & _ & Hta).
  assert (emits_only allKinds
            (do awaitClusterName (F:=F) fuel then
             let* clusterReady := waitForCluster fuel in
             if negb clusterReady then cleanUpAfterTimeout else connectAndSubmit fuel))
    as Hemits.
  { apply emits_only_bind; [|intros _; apply emits_only_bind; [|intros r]].
    - eapply emits_only_weaken; [apply kinds_all | apply awaitClusterName_emits].
    - eapply emits_only_weaken; [apply kinds_all | apply waitForCluster_emits].
    - destruct (negb r).
      + eapply emits_only_weaken; [apply kinds_all | apply cleanUpAfterTimeout_emits].
      + eapply emits_only_weaken; [apply kinds_all | apply connectAndSubmit_emits]. }
  pose proof (Hemits sa o s' E) as Hrest.
  exists rayJob. eexists. split; [done|]. apply newEvents_app.
  rewrite (evolves_trace _ _ _ Hrest), Hta, <- app_assoc. reflexivity.
Qed.

(** [submitAndAnnotate], when it returns no error. *)
Lemma submitAndAnnotate_Ret s s' :
  submitAndAnnotate s = (Ret tt, s') →
  ∃ cmd id rayJob fetched,
    fst (raySubmitCmd s) = Ret cmd ∧ heldJobID s = Some id ∧
    RayJob (options s) = Some rayJob ∧
    w_GetRayJob (world s) (getRayJobs s) = inl fetched ∧
    let updated :=
      SetAnnotations (<[submissionIdKey := id]> (default ∅ (GetAnnotations fetched)))
        fetched in
    w_Update (world s) updated = None ∧ w_Wait (world s) = None ∧
    RayJob (options s') = Some updated ∧
    newEvents s s' =
      [EvPrint ("Ray command: [" +:+ Join cmd " " +:+ "]" +:+ nl);
       EvPrint ("Running ray submit job command..." +:+ nl);
       EvStart cmd; EvGetRayJob (GetName rayJob); EvUpdate updated; EvWait].
Proof.
  rewrite submitAndAnnotate_eq. cbv zeta.
  destruct (fst (raySubmitCmd s)) as [cmd|err|msg| |]; try done.
  destruct (w_StdoutPipe (world s)); [done|].
  destruct (w_StderrPipe (world s)); [done|].
  destruct (heldJobID s) as [id|]; [|done].
  destruct (RayJob (options s)) as [rayJob|]; [|done].
  destruct (w_GetRayJob (world s) (getRayJobs s)) as [fetched|e']; [|done].
  destruct (w_Update (world s) _) eqn:Hu; [done|].
  destruct (w_Wait (world s)) eqn:Hw; [done|].
  intros [= <-]. exists cmd, id, rayJob, fetched. repeat (split; [done|]).
  unfold newEvents. cbn [trace]. by rewrite drop_app_length.
Qed.

(** [Run], when it returns no error. *)
Lemma Run_Ret (fuel : nat) s s' :
  Run fuel s = (Ret tt, s') →
  ∃ rayJob svcName cmd id fetched,
    let updated :=
      SetAnnotations (<[submissionIdKey := id]> (default ∅ (GetAnnotations fetched)))
        fetched in
    effects (newEvents s s')
    = [EvCreate rayJob; EvPortForward ["service/" +:+ svcName; "8265:8265"];
       EvStart cmd; EvUpdate updated; EvWait; EvCancel] ∧
    RayJob (options s) = Some rayJob ∧ heldJobID s = Some id ∧
    w_Update (world s) updated = None ∧ w_Wait (world s) = None ∧
    RayJob (options s') = Some updated.
Proof.
  intros E.
  apply Run_journal in E
    as [[_ Hne] | (sb & sc & Hsb & Ec & Hsc & Hcreate & [(e & _ & ? & _) | Hrun])];
    [by destruct (Hne tt) | done |].
  destruct Hcreate as (rayJob & evs0 & Hj & Htc & Hf0).
  destruct Hrun as (svcName & s3 & _ & -> & [[_ Hne] | (sx & Ew & Es)]);
    [by destruct (Hne tt)|].
  cbv beta iota delta [deferred].
  pose proof (waitForPortForward_emits fuel _ _ _ Ew) as Hw.
  assert (evolves (allBut KCancel) s (logged sx [tunnelUp])) as Hx.
  { apply (evolves_trans _ s sc).
    { eapply evolves_weaken; [|exact Hsc]. unfold clusterKinds. kinds_subset. }
    apply (evolves_trans _ _ (logged sc (opened sc svcName))).
    { apply evolves_logged. unfold opened. repeat constructor; kind_in_allBut. }
    apply (evolves_trans _ _ sx).
    { eapply evolves_weaken; [|exact Hw]. unfold probeKinds. kinds_subset. }
    apply evolves_logged. repeat constructor; kind_in_allBut. }
  destruct (submitAndAnnotate_Ret _ _ Es)
    as (cmd & id & rayJob' & fetched & _ & Hid & _ & _ & Hu & Hwait & Hj' & Hev3).
  rewrite (heldJobID_evolves _ _ _ Hx) in Hid.
  destruct Hx as (Hwx & _). rewrite Hwx in Hu, Hwait.
  exists rayJob, svcName, cmd, id, fetched. cbv zeta. split; [|done].
  destruct Hw as (_ & _ & evsW & HtW & HfW).
  assert (newEvents s (logged s3 [EvCancel])
          = EvCreate rayJob :: evs0 ++ opened sc svcName ++ evsW ++ [tunnelUp]
            ++ newEvents (logged sx [tunnelUp]) s3 ++ [EvCancel]) as ->.
  { apply newEvents_app. unfold logged at 1. cbn [trace].
    rewrite (evolves_trace _ _ _ (submitAndAnnotate_emits _ _ _ Es)).
    unfold logged at 1. cbn [trace]. rewrite HtW. unfold logged at 1. cbn [trace].
    rewrite Htc. rewrite <- ?app_assoc. simpl. rewrite <- ?app_assoc. reflexivity. }
  rewrite Hev3.
  change (EvCreate rayJob :: evs0 ++ ?l) with ([EvCreate rayJob] ++ evs0 ++ l).
  rewrite !effects_app.
  rewrite (effects_none readKinds evs0 Hf0).
  2: { intros k Hk. unfold readKinds in Hk.
       repeat (apply elem_of_cons in Hk as [->|Hk]; [unfold effectKinds; kind_not_in|]).
       by apply elem_of_nil in Hk. }
  rewrite (effects_none probeKinds evsW HfW).
  2: { intros k Hk. unfold probeKinds in Hk.
       repeat (apply elem_of_cons in Hk as [->|Hk]; [unfold effectKinds; kind_not_in|]).
       by apply elem_of_nil in Hk. }
  reflexivity.
Qed.

(** X12.  When [Run] returns no error, what it has done to the cluster and to
    the local machine is, in this order and each once: the creation of the
    RayJob, the opening of the tunnel, the start of the submission
    process, the update of the RayJob with the identifier, the wait for
    the process, and the cancel of the tunnel; the update and the wait
    have succeeded, and nothing is deleted. *)
Theorem Run_success_effects (fuel : nat) s s' :
  Run fuel s = (Ret tt, s') →
  ∃ rayJob svcName cmd id fetched,
    let updated :=
      SetAnnotations (<[submissionIdKey := id]> (default ∅ (GetAnnotations fetched)))
        fetched in
    effects (newEvents s s')
    = [EvCreate rayJob; EvPortForward ["service/" +:+ svcName; "8265:8265"];
       EvStart cmd; EvUpdate updated; EvWait; EvCancel] ∧
    RayJob (options s) = Some rayJob ∧ heldJobID s = Some id ∧
    w_Update (world s) updated = None ∧ w_Wait (world s) = None ∧
    RayJob (options s') = Some updated.
Proof. apply Run_Ret. Qed.

End RunEnds.

(* ===================================================================== *)
(** * Readiness before the submission *)
(* ===================================================================== *)

Section Readiness.
Context {F : Type} `{Float32 F}.
Implicit Types (s : State F).

(** A loop that returns has kept what each returning turn keeps, a turn
    being made only under the condition of the loop. *)
Lemma loop_Ret_preserves_cond {X} (P : X → State F → Prop) fuel cond (body : X → M F X) :
  (∀ x s x' s', P x s → cond x = true → body x s = (Ret x', s') → P x' s') →
  ∀ x s x' s', P x s → loop fuel cond body x s = (Ret x', s') → P x' s'.
Proof.
  intros Hb. induction fuel as [|fuel IH]; intros x s x' s' HP; simpl;
    destruct (cond x) eqn:Hc.
  - by intros [=].
  - by intros [= <- <-].
  - intros E. apply bind_Ret_inv in E as (x1 & s1 & E1 & E2).
    eapply IH; [|exact E2]. by eapply Hb.
  - by intros [= <- <-].
Qed.

Lemma clusterLoopBody_true x s x' s' :
  clusterLoopBody x s = (Ret x', s') →
  clusterVerdict (world s) (getClusters s) = Some (fst x').
Proof.
  unfold clusterVerdict, clusterLoopBody, bind, Sleep, get_options, GetCluster,
    orFail, lift, emitEvent, Now, ret, fail. simpl.
  destruct (w_GetCluster (world s) (getClusters s)) as [c|e]; [|done].
  destruct (isRayClusterReady c) as [[b [e|]]| | | |]; try done;
    by intros [= <- <-].
Qed.

Lemma portforwardLoopBody_true x s x' s' :
  portforwardLoopBody x s = (Ret x', s') → fst x = false →
  probeVerdict (world s) (probes s) = Some (fst x').
Proof.
  unfold probeVerdict, portforwardLoopBody, bind, Sleep, Do, emitEvent, Now,
    ret, panic. simpl.
  destruct (w_Do (world s) (probes s)) as [[resp|] [e|]]; try done;
    simpl; intros [= <- <-] ->; simpl;
    by destruct ((200 <=? StatusCode resp) && (StatusCode resp <? 300)).
Qed.

(** The wait for the cluster returns true on the word of its last fetch. *)
Lemma waitForCluster_true fuel s s' :
  waitForCluster fuel s = (Ret true, s') →
  world s' = world s ∧
  ∃ n, getClusters s' = S n ∧ clusterVerdict (world s) n = Some true.
Proof.
  rewrite waitForCluster_loop. cbv zeta.
  destruct (loop _ _ _ _ _) as [[x| | | |] s1] eqn:Hl; try done.
  intros [= Hx <-].
  assert (world s1 = world s ∧
          (fst x = true →
           ∃ n, getClusters s1 = S n ∧ clusterVerdict (world s) n = Some true))
    as [Hw Hn]; [|auto].
  revert Hl.
  apply (loop_Ret_preserves
           (λ x s1, world s1 = world s ∧
                    (fst x = true →
                     ∃ n, getClusters s1 = S n ∧
                          clusterVerdict (world s) n = Some true))); [|done].
  intros y t y' t' [Hw _] Hb.
  pose proof (clusterLoopBody_true _ _ _ _ Hb) as Hv.
  apply clusterLoopBody_Ret in Hb as (Hw' & _ & Hg & _).
  split; [congruence|]. intros Hy. exists (getClusters t). split; [done|].
  by rewrite <- Hw, Hv, Hy.
Qed.

(** The wait for the tunnel returns true on the word of its last probe. *)
Lemma waitForPortForward_true fuel s s' :
  waitForPortForward fuel s = (Ret true, s') →
  world s' = world s ∧
  ∃ m, probes s' = S m ∧ probeVerdict (world s) m = Some true.
Proof.
  rewrite waitForPortForward_loop. destruct (w_NewRequest (world s)); [done|].
  cbv zeta.
  destruct (loop _ _ _ _ _) as [[x| | | |] s1] eqn:Hl; try done.
  intros [= Hx <-].
  assert (world s1 = world s ∧
          (fst x = true →
           ∃ m, probes s1 = S m ∧ probeVerdict (world s) m = Some true))
    as [Hw Hn]; [|auto].
  revert Hl.
  apply (loop_Ret_preserves_cond
           (λ x s1, world s1 = world s ∧
                    (fst x = true →
                     ∃ m, probes s1 = S m ∧
                          probeVerdict (world s) m = Some true))); [|done].
  intros y t y' t' [Hw _] Hc Hb. unfold cond in Hc.
  apply andb_true_iff in Hc as [Hy _]. apply negb_true_iff in Hy.
  pose proof (portforwardLoopBody_true _ _ _ _ Hb Hy) as Hv.
  apply portforwardLoopBody_Ret in Hb as (Hw' & _ & Hg & _).
  split; [congruence|]. intros Hy'. exists (probes t). split; [done|].
  by rewrite <- Hw, Hv, Hy'.
Qed.

Lemma waitForPortForward_getClusters fuel s o s' :
  waitForPortForward fuel s = (o, s') → getClusters s' = getClusters s.
Proof.
  assert (keeps (λ s1, getClusters s1 = getClusters s) (waitForPortForward (F:=F) fuel))
    as Hk.
  { unfold waitForPortForward, portforwardLoopBody.
    repeat keeps_step; apply keeps_total; intros s1 Hs1; simpl; done. }
  intros E. by apply (Hk s o s').
Qed.

Lemma submitAndAnnotate_counters s o s' :
  submitAndAnnotate s = (o, s') →
  getClusters s' = getClusters s ∧ probes s' = probes s.
Proof.
  rewrite submitAndAnnotate_eq. cbv zeta.
  destruct (fst (raySubmitCmd s)); try (by intros [= <- <-]).
  destruct (w_StdoutPipe (world s)); [by intros [= <- <-]|].
  destruct (w_StderrPipe (world s)); [by intros [= <- <-]|].
  destruct (heldJobID s); [|by intros [= <- <-]].
  destruct (RayJob (options s)); [|by intros [= <- <-]].
  destruct (w_GetRayJob (world s) (getRayJobs s)); [|by intros [= <- <-]].
  destruct (w_Update (world s) _); by intros [= <- <-].
Qed.

(** X15.  [Run] starts the submission process, updates the RayJob or waits for
    the process only after the cluster was seen ready and the tunnel has
    answered: the last fetch of the cluster that the run has made found it
    ready, and the last probe it has made got a response with a status in
    [200, 300). *)
Theorem Run_submits_only_when_ready (fuel : nat) s o s' e :
  Run fuel s = (o, s') → e ∈ newEvents s s' → kindOf e ∈ submitKinds →
  ∃ n m,
    getClusters s' = S n ∧ clusterVerdict (world s) n = Some true ∧
    probes s' = S m ∧ probeVerdict (world s) m = Some true.
Proof.
  intros E Hin Hk.
  destruct (Run_submit_event fuel s o s' e E Hin Hk)
    as (sb & sc & svcName & sx & s3 & Hsb & Ec & Hsc & Ew & Hx & Es & -> & _).
  destruct (waitForCluster_true _ _ _ Ec) as (_ & n & Hn & Hvn).
  destruct (waitForPortForward_true _ _ _ Ew) as (_ & m & Hm & Hvm).
  destruct Hsb as (Hwb & _). destruct Hsc as (Hwc & _).
  rewrite Hwb in Hvn. cbn [world logged] in Hvm. rewrite Hwc in Hvm.
  apply waitForPortForward_getClusters in Ew. cbn [getClusters logged] in Ew.
  apply submitAndAnnotate_counters in Es as [Hg3 Hp3].
  cbn [getClusters probes logged] in Hg3, Hp3.
  exists n, m.
  assert (getClusters (if deferred o then logged s3 [EvCancel] else s3) = getClusters s3
          ∧ probes (if deferred o then logged s3 [EvCancel] else s3) = probes s3)
    as [-> ->] by (by destruct (deferred o)).
  repeat split; congruence.
Qed.

(** X14.  Without a submission ID, when no line of stdout shows an identifier,
    [Run] does not return without an error, updates nothing and does not
    wait for the process; and once it has started the process it blocks
    for ever, the tunnel left open. *)
Theorem Run_blocks_without_job_id (fuel : nat) s o s' :
  submissionID (options s) = EmptyString →
  Forall (λ l, ¬ matching l) (w_stdout (world s)) →
  Run fuel s = (o, s') →
  o ≠ Ret tt ∧
  (∀ u, EvUpdate u ∉ newEvents s s') ∧
  (EvWait ∉ newEvents s s') ∧
  (∀ argv, EvStart argv ∈ newEvents s s' → o = Hang ∧ EvCancel ∉ newEvents s s').
Proof.
  intros Hid Hall E. pose proof (heldJobID_None s Hid Hall) as Hnone.
  assert (∀ e, kindOf e ∈ submitKinds → e ∈ newEvents s s' →
               o = Hang ∧ (∃ cmd, e = EvStart cmd) ∧ EvCancel ∉ newEvents s s') as Hev.
  { intros e Hk Hin.
    destruct (Run_submit_event fuel s o s' e E Hin Hk)
      as (sb & sc & svcName & sx & s3 & _ & _ & _ & _ & Hx & Es & Hs' & Hin3).
    destruct (submitAndAnnotate_submit_event _ _ _ _ Es Hin3 Hk) as (cmd & _ & Hcase).
    rewrite (heldJobID_evolves _ _ _ Hx), Hnone in Hcase. destruct Hcase as [-> ->].
    split; [done|]. split; [by exists cmd|]. simpl in Hs'. subst s'.
    intros Hc.
    pose proof (evolves_trans _ _ _ _
                  (evolves_app _ [KPrint; KStart; KGetRayJob; KUpdate; KWait] _ _ Hx)
                  (evolves_app_r (allBut KCancel) _ _ _
                     (submitAndAnnotate_emits _ _ _ Es))) as Hall3.
    apply (in_newEvents_kind _ _ _ _ Hall3) in Hc. revert Hc.
    unfold allBut, allKinds. simpl. kind_not_in. }
  split; [|split; [|split]].
  - intros ->. destruct (Run_Ret fuel s s' E) as (? & ? & ? & id & ? & _ & _ & Hid' & _).
    congruence.
  - intros u Hin. destruct (Hev (EvUpdate u)) as (_ & (cmd & ?) & _); try done.
    unfold submitKinds. simpl. kind_in.
  - intros Hin. destruct (Hev EvWait) as (_ & (cmd & ?) & _); try done.
    unfold submitKinds. simpl. kind_in.
  - intros argv Hin. destruct (Hev (EvStart argv)) as (? & _ & ?); try done.
    unfold submitKinds. simpl. kind_in.
Qed.


End Readiness.

(* ===================================================================== *)
(** * More on the two flows around the channel *)
(* ===================================================================== *)

Section CorrelatorMore.
Import Correlator.

(** The tokens that the goroutine has still to print. *)
Lemma printable_cons t (ls : list string) :
  printable (t :: ls) = (if nonEmpty t then [t] else []) ++ printable ls.
Proof. unfold printable. simpl. by destruct (nonEmpty t). Qed.

Lemma echo_printable t (e ls : list string) :
  echo t e ++ printable ls = e ++ printable (t :: ls).
Proof.
  rewrite printable_cons. unfold echo. destruct (nonEmpty t); [|done].
  by rewrite <- app_assoc.
Qed.

Lemma echo_eq t (e : list string) : echo t e = e ++ printable [t].
Proof. rewrite <- (echo_printable t e []). unfold printable at 1. simpl. by rewrite app_nil_r. Qed.

(** What the goroutine has printed and what it has still to print are,
    together, the lines of stdout that are not empty. *)
Lemma echoed_inv id lines st :
  reachable id lines st →
  echoed st ++ printable match scan st with
                         | AtToken t rest | Sending _ t rest | Echo t rest => t :: rest
                         | Finished => []
                         end
  = printable lines.
Proof.
  unfold reachable. intros Hr.
  eapply (rtc_ind_r (R:=step)
            (λ st, echoed st ++ printable match scan st with
                                          | AtToken t rest | Sending _ t rest
                                          | Echo t rest => t :: rest
                                          | Finished => []
                                          end = printable lines));
    [| |exact Hr].
  - reflexivity.
  - intros y z _ Hstep IH. destruct Hstep; cbn [echoed scan] in *; try done.
    + by rewrite echo_printable.
    + rewrite <- IH. apply echo_printable.
Qed.

(** X16.  The goroutine prints the lines of stdout that are not empty, each
    once and in their order: at any time what it has printed is a prefix
    of them, and all of them once it has ended. *)
Theorem stdout_is_echoed_in_order (id : string) (lines : list string) (st : state) :
  reachable id lines st →
  ∃ pending,
    printable lines = echoed st ++ pending ∧
    (scan st = Finished → pending = []).
Proof.
  intros Hr. pose proof (echoed_inv id lines st Hr) as Hinv.
  eexists. split; [symmetry; exact Hinv|]. by intros ->.
Qed.

(** X17.  With a submission ID the goroutine sends nothing: nothing passes the
    channel, the main flow does not wait at the receive, and [rayJobID]
    stays the submission ID whatever the process prints. *)
Theorem supplied_id_is_kept (id : string) (lines : list string) (st : state) :
  id ≠ EmptyString → reachable id lines st →
  delivered st = [] ∧ rayJobID st = id ∧
  (main st = Checking ∨ main st = Populated) ∧
  ∀ v t rest, scan st ≠ Sending v t rest.
Proof.
  intros Hne Hr. unfold reachable in Hr.
  eapply (rtc_ind_r (R:=step)
            (λ st, delivered st = [] ∧ rayJobID st = id ∧
                   (main st = Checking ∨ main st = Populated) ∧
                   ∀ v t rest, scan st ≠ Sending v t rest));
    [| |exact Hr].
  - unfold init, tokens. simpl. repeat split; auto.
  - intros y z _ Hstep (Hd & Hid & Hm & Hs).
    destruct Hstep; simpl in *; subst.
    + by rewrite (sends_populated _ t Hne) in H.
    + repeat split; auto.
    + by destruct (Hs v t rest).
    + repeat split; auto.
    + repeat split; auto.
    + done.
    + repeat split; auto.
    + destruct Hm; done.
Qed.

(** From a token that is passed, over lines that show no identifier, to
    the next line. *)
Lemma echo_skips (ls : list string) : ∀ t l rest m d e,
  Forall (λ l, ¬ matching l) ls →
  rtc step (mkSt (Echo t (ls ++ l :: rest)) m EmptyString d e)
           (mkSt (AtToken l rest) m EmptyString d (e ++ printable (t :: ls))).
Proof.
  induction ls as [|a ls IH]; intros t l rest m d e Hall.
  - eapply rtc_l; [apply step_scan|]. by rewrite echo_eq.
  - apply List.Forall_cons_iff in Hall as [Ha Hall].
    eapply rtc_l; [apply step_scan|].
    eapply rtc_l; [apply step_skip; by apply sends_not_matching|].
    eapply rtc_trans; [apply (IH a l rest m d (echo t e) Hall)|].
    rewrite (echo_printable t e (a :: ls)). done.
Qed.

(** X18.  After the first identifier has passed the channel and before the main
    flow has assigned it, the goroutine can reach a second line that shows
    an identifier: it then blocks in a send that nothing will receive, the
    main flow going on with the first identifier; that line and the lines
    after it are never printed. *)
Theorem second_match_can_block_scanner
  (before mid after : list string) (l1 l2 id1 id2 : string) :
  Forall (λ l, ¬ matching l) before → firstQuoted l1 id1 →
  Forall (λ l, ¬ matching l) mid → firstQuoted l2 id2 →
  ∃ st,
    reachable EmptyString (before ++ l1 :: mid ++ l2 :: after) st ∧
    main st = Populated ∧ rayJobID st = id1 ∧ delivered st = [id1] ∧
    scan st = Sending id2 l2 after ∧
    echoed st = printable (before ++ l1 :: mid) ∧
    ∀ st', ¬ step st st'.
Proof.
  intros Hb H1 Hm H2.
  exists (mkSt (Sending id2 l2 after) Populated id1 [id1]
            (printable (before ++ l1 :: mid))).
  split; [|repeat split; try done; intros st' Hstep; inversion Hstep].
  unfold reachable, init, tokens.
  eapply rtc_l; [apply step_check_empty|].
  eapply rtc_l; [apply step_skip; reflexivity|].
  eapply rtc_trans; [apply (echo_skips before); exact Hb|].
  eapply rtc_l; [apply step_send; by apply sends_firstQuoted|].
  eapply rtc_l; [apply step_handoff|].
  eapply rtc_trans; [apply (echo_skips mid); exact Hm|].
  eapply rtc_l; [apply step_send; by apply sends_firstQuoted|].
  eapply rtc_l; [apply step_store|].
  assert (([] ++ printable (EmptyString :: before)) ++ printable (l1 :: mid)
          = printable (before ++ l1 :: mid)) as ->; [|done].
  unfold printable. simpl. by rewrite List.filter_app.
Qed.

End CorrelatorMore.

(** At the lines of the example: while the goroutine has read one line
    the two others are pending. *)
Lemma stdout_is_echoed_in_order_witness :
  ∃ st pending,
    Correlator.reachable EmptyString Examples.stdoutLines st ∧
    Correlator.echoed st = ["starting"] ∧
    Examples.stdoutLines = Correlator.echoed st ++ pending.
Proof.
  set (st := Correlator.mkSt
               (Correlator.AtToken "Job 'raysubmit_abc123' submitted"
                  ["Job 'raysubmit_xyz999' submitted"])
               Correlator.Checking EmptyString [] ["starting"]).
  assert (Correlator.reachable EmptyString Examples.stdoutLines st) as Hr.
  { unfold Correlator.reachable, Correlator.init, tokens, Examples.stdoutLines.
    eapply rtc_l; [apply Correlator.step_skip; reflexivity|].
    eapply rtc_l; [apply Correlator.step_scan|].
    eapply rtc_l; [apply Correlator.step_skip; vm_compute; reflexivity|].
    eapply rtc_l; [apply Correlator.step_scan|]. done. }
  destruct (stdout_is_echoed_in_order EmptyString Examples.stdoutLines st Hr)
    as (pending & Hp & _).
  exists st, pending. split; [exact Hr|]. split; [reflexivity | exact Hp].
Defined.

(** At the lines of the example, with the submission ID [my-id]: the main
    flow goes on with it. *)
Lemma supplied_id_is_kept_witness :
  ∃ st, Correlator.reachable "my-id" Examples.stdoutLines st ∧
        Correlator.main st = Correlator.Populated ∧
        Correlator.rayJobID st = "my-id" ∧ Correlator.delivered st = [].
Proof.
  set (st := Correlator.mkSt (Correlator.AtToken EmptyString Examples.stdoutLines)
               Correlator.Populated "my-id" [] []).
  assert (Correlator.reachable "my-id" Examples.stdoutLines st) as Hr.
  { unfold Correlator.reachable, Correlator.init, tokens.
    eapply rtc_l; [apply Correlator.step_check_set; discriminate|]. done. }
  destruct (supplied_id_is_kept "my-id" Examples.stdoutLines st) as (Hd & Hid & _);
    [discriminate | exact Hr |].
  exists st. split; [exact Hr|]. split; [reflexivity|]. split; [exact Hid | exact Hd].
Defined.

(** At the lines of the example: the goroutine can block at the third
    line, which then is not printed. *)
Lemma second_match_can_block_scanner_witness :
  ∃ st,
    Correlator.reachable EmptyString Examples.stdoutLines st ∧
    Correlator.scan st
    = Correlator.Sending "raysubmit_xyz999" "Job 'raysubmit_xyz999' submitted" [] ∧
    Correlator.rayJobID st = "raysubmit_abc123" ∧
    Correlator.echoed st = ["starting"; "Job 'raysubmit_abc123' submitted"] ∧
    ∀ st', ¬ Correlator.step st st'.
Proof.
  destruct (second_match_can_block_scanner ["starting"] [] []
              "Job 'raysubmit_abc123' submitted" "Job 'raysubmit_xyz999' submitted"
              "raysubmit_abc123" "raysubmit_xyz999")
    as (st & Hr & _ & Hid & _ & Hs & He & Hstuck).
  - constructor; [|constructor]. apply sends_None. vm_compute. reflexivity.
  - apply sends_Some. vm_compute. reflexivity.
  - constructor.
  - apply sends_Some. vm_compute. reflexivity.
  - exists st. split; [exact Hr|]. split; [exact Hs|]. split; [exact Hid|].
    split; [exact He | exact Hstuck].
Defined.

(* ===================================================================== *)
(** * The runs of the examples *)
(* ===================================================================== *)

(** At the inputs of the examples: the cluster never becomes ready. *)
Lemma Run_creates_first_witness :
  ∃ evs,
    newEvents (Examples.validated Examples.neverReady)
      (snd (Run 61 (Examples.validated Examples.neverReady)))
    = EvCreate (Examples.rayJob None) :: evs.
Proof.
  destruct (Run_creates_first 61 (Examples.validated Examples.neverReady)
              (fst (Run 61 (Examples.validated Examples.neverReady)))
              (snd (Run 61 (Examples.validated Examples.neverReady))))
    as [Hnil | (rayJob & evs & Hj & Hev)]; [apply surjective_pairing | |].
  - vm_compute in Hnil. discriminate.
  - change (RayJob (options (Examples.validated Examples.neverReady)))
      with (Some (Examples.rayJob None)) in Hj.
    assert (rayJob = Examples.rayJob None) as -> by congruence.
    exists evs. exact Hev.
Defined.

(** At the inputs of the examples: the tunnel never answers with a 2xx
    status, and the run ends with the cancel. *)
Lemma Run_cancels_tunnel_witness :
  ∃ evs,
    newEvents (Examples.validated Examples.neverReachable)
      (snd (Run 61 (Examples.validated Examples.neverReachable)))
    = evs ++ [EvCancel] ∧ EvCancel ∉ evs.
Proof.
  apply (Run_cancels_tunnel 61 (Examples.validated Examples.neverReachable)
           (Fail (New "Timed out waiting for port forwarding"))
           (snd (Run 61 (Examples.validated Examples.neverReachable)))
           ["service/raycluster-sample-head-svc"; "8265:8265"]).
  - vm_compute. reflexivity.
  - vm_compute. repeat constructor.
Defined.

(** At the inputs of the examples: every call succeeds. *)
Lemma Run_success_effects_witness :
  List.map kindOf
    (effects (newEvents (Examples.validated Examples.calm)
                (snd (Run 61 (Examples.validated Examples.calm)))))
  = [KCreate; KPortForward; KStart; KUpdate; KWait; KCancel].
Proof.
  destruct (Run_success_effects 61 (Examples.validated Examples.calm)
              (snd (Run 61 (Examples.validated Examples.calm))))
    as (rayJob & svcName & cmd & id & fetched & Heff & _);
    [vm_compute; reflexivity|].
  rewrite Heff. reflexivity.
Defined.

(** At the inputs of the examples: the submission ID [my-id] is given,
    and the process prints another identifier. *)
Lemma Run_annotates_held_id_witness :
  ∃ id fetched,
    heldJobID (MoreExamples.validatedWithID Examples.calm) = Some id ∧
    id = "my-id" ∧ fetched = Examples.rayJobWithCluster ∧
    EvUpdate (SetAnnotations
                (<[submissionIdKey := id]> (default ∅ (GetAnnotations fetched)))
                fetched)
    ∈ newEvents (MoreExamples.validatedWithID Examples.calm)
        (snd (Run 61 (MoreExamples.validatedWithID Examples.calm))).
Proof.
  assert (EvUpdate (SetAnnotations
                      (<[submissionIdKey := "my-id"]>
                         (default ∅ (GetAnnotations Examples.rayJobWithCluster)))
                      Examples.rayJobWithCluster)
          ∈ newEvents (MoreExamples.validatedWithID Examples.calm)
              (snd (Run 61 (MoreExamples.validatedWithID Examples.calm)))) as Hin
    by (vm_compute; repeat constructor).
  destruct (Run_annotates_held_id 61 (MoreExamples.validatedWithID Examples.calm)
              (fst (Run 61 (MoreExamples.validatedWithID Examples.calm)))
              (snd (Run 61 (MoreExamples.validatedWithID Examples.calm))) _
              (surjective_pairing _) Hin)
    as (id & fetched & n & Hheld & Hid & _ & _).
  exists id, Examples.rayJobWithCluster.
  rewrite (Hid ltac:(discriminate)) in *.
  split; [exact Hheld|]. split; [reflexivity|]. split; [reflexivity|]. exact Hin.
Defined.

(** At the inputs of the examples: the process prints no identifier, and
    the run blocks once the process is started. *)
Lemma Run_blocks_without_job_id_witness :
  fst (Run 61 (Examples.validated MoreExamples.silent)) = Hang.
Proof.
  destruct (Run_blocks_without_job_id 61 (Examples.validated MoreExamples.silent)
              (fst (Run 61 (Examples.validated MoreExamples.silent)))
              (snd (Run 61 (Examples.validated MoreExamples.silent))))
    as (_ & _ & _ & Hstart).
  - reflexivity.
  - repeat constructor; apply sends_None; vm_compute; reflexivity.
  - apply surjective_pairing.
  - apply (Hstart MoreExamples.goodCommand). vm_compute. repeat constructor.
Defined.

(** At the inputs of the examples: the fourth fetch finds the cluster
    ready and the third probe gets a 200. *)
Lemma Run_submits_only_when_ready_witness :
  clusterVerdict Examples.calm 3 = Some true ∧ probeVerdict Examples.calm 2 = Some true.
Proof.
  destruct (Run_submits_only_when_ready 61 (Examples.validated Examples.calm)
              (fst (Run 61 (Examples.validated Examples.calm)))
              (snd (Run 61 (Examples.validated Examples.calm))) EvWait)
    as (n & m & Hn & Hvn & Hm & Hvm).
  - apply surjective_pairing.
  - vm_compute. repeat constructor.
  - unfold submitKinds. repeat constructor.
  - vm_compute in Hn. injection Hn as <-. vm_compute in Hm. injection Hm as <-.
    split; [exact Hvn | exact Hvm].
Defined.

(* ===================================================================== *)
(** * After the cluster is ready; the pace of the polls; the inline
      runtime environment *)
(* ===================================================================== *)

Section Leftovers.
Context {F : Type} `{Float32 F}.
Implicit Types (s : State F).

(** X19.  Once [Run] has gone past the wait for the cluster, which it shows by
    asking for the head service, it deletes nothing, however it ends: the
    RayJob that it created stays in the cluster when the tunnel or the
    submission fails. *)
Theorem Run_keeps_RayJob_after_cluster_ready (fuel : nat) s o s' name :
  Run fuel s = (o, s') → EvGetRayHeadSvcName name ∈ newEvents s s' →
  ∀ name', EvDelete name' ∉ newEvents s s'.
Proof.
  intros E Hin name' Hdel.
  apply Run_phases in E as [(sa & sb & ready & sc & Ea & Eb & Ec & E) | [Hev _]].
  - destruct ready.
    + assert (evolves (allBut KDelete) s s') as Hall.
      { apply (evolves_trans _ s sa); [|apply (evolves_trans _ sa sb);
                                         [|apply (evolves_trans _ sb sc)]].
        - eapply evolves_weaken; [|by eapply createRayJob_emits]. kinds_subset.
        - eapply evolves_weaken; [|by eapply awaitClusterName_emits]. kinds_subset.
        - eapply evolves_weaken; [|by eapply waitForCluster_emits]. kinds_subset.
        - by eapply connectAndSubmit_emits. }
      apply (in_newEvents_kind _ _ _ _ Hall) in Hdel. revert Hdel.
      unfold allBut, allKinds. simpl. kind_not_in.
    + assert (evolves [KPrint; KCreate; KGetRayJob; KSleep; KGetCluster; KDelete] s s')
        as Hall.
      { apply (evolves_trans _ s sa); [|apply (evolves_trans _ sa sb);
                                         [|apply (evolves_trans _ sb sc)]].
        - eapply evolves_weaken; [|by eapply createRayJob_emits]. kinds_subset.
        - eapply evolves_weaken; [|by eapply awaitClusterName_emits]. kinds_subset.
        - eapply evolves_weaken; [|by eapply waitForCluster_emits]. kinds_subset.
        - eapply evolves_weaken; [|by eapply cleanUpAfterTimeout_emits]. kinds_subset. }
      apply (in_newEvents_kind _ _ _ _ Hall) in Hin. revert Hin. kind_not_in.
  - apply (in_newEvents_kind _ _ _ _ Hev) in Hin. revert Hin. kind_not_in.
Qed.

(** X20.  Both loops sleep before each fetch: when a loop returns, at least
    one poll interval of two seconds has passed for each fetch it has
    made, and it has made one at least. *)
Theorem polls_are_paced (fuel : nat) s (ready : bool) s' :
  (waitForCluster fuel s = (Ret ready, s') →
   (getClusters s < getClusters s')%nat ∧
   Z.of_nat (getClusters s' - getClusters s) * pollInterval ≤ now s' - now s) ∧
  (waitForPortForward fuel s = (Ret ready, s') →
   (probes s < probes s')%nat ∧
   Z.of_nat (probes s' - probes s) * pollInterval ≤ now s' - now s).
Proof.
  split; intros E.
  - destruct (waitForCluster_polls (F:=F) fuel s) as (_ & Hret & _).
    destruct (Hret ready s' E) as (n & Hn & -> & -> & _). split; [lia|].
    replace (getClusters s + n - getClusters s)%nat with n by lia.
    apply elapsedAfter_ge.
  - destruct (waitForPortForward_polls (F:=F) fuel s) as (_ & Hret & _).
    destruct (Hret ready s' E) as (n & Hn & -> & -> & _). split; [lia|].
    replace (probes s + n - probes s)%nat with n by lia.
    apply elapsedAfter_ge.
Qed.

(** X21.  When neither a runtime env file nor a runtime env JSON is given and
    the RayJob has a string at [spec.runtimeEnvYAML], the command that is
    built after [Validate] passes the JSON of that string to the process,
    right after the address. *)
Theorem inline_runtime_env_reaches_command s s' (json : string) :
  Validate s = (Ret tt, s') →
  runtimeEnv (options s) = EmptyString →
  runtimeEnvJson (options s) = EmptyString →
  runtimeEnvJson (options s') = json → json ≠ EmptyString →
  snd (shlex.Split (entryPoint (options s))) = None →
  ∃ rayJob spec y rest,
    RayJob (options s') = Some rayJob ∧
    valueAt (Object rayJob) "spec" = VMap spec ∧
    valueAt spec "runtimeEnvYAML" = VString y ∧
    w_YAMLToJSON (world s) y = inl json ∧
    fst (raySubmitCmd s')
    = Ret (["ray"; "job"; "submit"; "--address"; dashboardAddr;
            "--runtime-env-json"; json] ++ rest).
Proof.
  intros E Henv Hjson Hj Hne Hsplit.
  apply Validate_Ret_state in E
    as (rayJob & spec & wd & json' & -> & _ & Hspec & _ & _ & _ & Hcase).
  cbn [options runtimeEnvJson validatedFields] in Hj. subst json'.
  rewrite Henv, Hjson in Hcase. simpl in Hcase.
  destruct (valueAt spec "runtimeEnvYAML") as [| | |y| | |] eqn:Hy;
    simpl in Hcase; try (by destruct Hne).
  rewrite raySubmitCmd_eq.
  cbn [options entryPoint runtimeEnv runtimeEnvJson validatedFields].
  destruct (shlex.Split (entryPoint (options s))) as [toks err]. simpl in Hsplit.
  subst err. rewrite Henv. apply nonEmpty_true in Hne. rewrite Hne.
  exists rayJob, spec, y. eexists. repeat (split; [done|]). cbn [fst flag nonEmpty].
  reflexivity.
Qed.

End Leftovers.

(** At the inputs of the examples: the tunnel never answers with a 2xx
    status; the RayJob is not deleted. *)
Lemma Run_keeps_RayJob_after_cluster_ready_witness :
  EvDelete "rayjob-sample"
  ∉ newEvents (Examples.validated Examples.neverReachable)
      (snd (Run 61 (Examples.validated Examples.neverReachable))).
Proof.
  apply (Run_keeps_RayJob_after_cluster_ready 61
           (Examples.validated Examples.neverReachable)
           (fst (Run 61 (Examples.validated Examples.neverReachable)))
           (snd (Run 61 (Examples.validated Examples.neverReachable)))
           "raycluster-sample").
  - apply surjective_pairing.
  - vm_compute. repeat constructor.
Defined.

(** At the inputs of the examples: the cluster is ready at its fourth
    fetch, no sooner than 8 seconds after the loop starts. *)
Lemma polls_are_paced_witness :
  4 * pollInterval
  ≤ now (snd (waitForCluster 61 (Examples.validated Examples.calm))).
Proof.
  destruct (polls_are_paced 61 (Examples.validated Examples.calm) true
              (snd (waitForCluster 61 (Examples.validated Examples.calm))))
    as [Hcluster _].
  destruct Hcluster as [_ Hpace]; [vm_compute; reflexivity|].
  change (getClusters (snd (waitForCluster 61 (Examples.validated Examples.calm))))
    with 4%nat in Hpace.
  change (getClusters (Examples.validated Examples.calm)) with 0%nat in Hpace.
  change (now (Examples.validated Examples.calm)) with 0 in Hpace.
  simpl Z.of_nat in Hpace. lia.
Defined.

(** At the inputs of the examples: the RayJob file has an inline runtime
    environment. *)
Lemma inline_runtime_env_reaches_command_witness :
  let inline :=
    mkUnstructured
      {[ "metadata" := VMap {[ "name" := VString "rayjob-sample" ]};
         "spec" := VMap {[ "submissionMode" := VString "InteractiveMode";
                           "runtimeEnvYAML" := VString "pip: [requests]" ]} ]} in
  let w := Examples.worldWith (inl ∅) (inl inline) (Examples.readyAfter 3) (λ _, 0%N)
             (Examples.reachableAfter 2) in
  ∃ rest,
    fst (raySubmitCmd (snd (Validate (Examples.initial w Examples.goodOptions))))
    = Ret (["ray"; "job"; "submit"; "--address"; "http://localhost:8265";
            "--runtime-env-json"; "pip: [requests]"] ++ rest).
Proof.
  intros inline w.
  destruct (inline_runtime_env_reaches_command
              (Examples.initial w Examples.goodOptions)
              (snd (Validate (Examples.initial w Examples.goodOptions)))
              "pip: [requests]")
    as (rayJob & spec & y & rest & _ & _ & _ & _ & Hcmd);
    try (vm_compute; reflexivity); [discriminate|].
  exists rest. exact Hcmd.
Defined.

(* ===================================================================== *)
(** * The quoting of the entrypoint (C5) *)
(* ===================================================================== *)

Section Blindness.
Context {F : Type} `{Float32 F}.
Implicit Types (s : State F).

Lemma blind_ret {A} (a : A) : blind (ret (F:=F) a).
Proof. by intros v s. Qed.

Lemma blind_fail {A} e : blind (fail (F:=F) (A:=A) e).
Proof. by intros v s. Qed.

Lemma blind_lift {A} (o : Outcome A) : blind (lift (F:=F) o).
Proof. by intros v s. Qed.

Lemma blind_ask : blind (ask (F:=F)).
Proof. by intros v s. Qed.

Lemma blind_orFail {A} (r : A + error) wrap : blind (orFail (F:=F) r wrap).
Proof. destruct r; [apply blind_ret | apply blind_fail]. Qed.

Lemma blind_bind {A B} (m : M F A) (k : A → M F B) :
  blind m → (∀ a, blind (k a)) → blind (bind m k).
Proof.
  intros Hm Hk v s. unfold bind. rewrite Hm.
  destruct (m s) as [[a|e|msg| |] s1]; simpl; [apply Hk | done..].
Qed.

(** The options are read, and what follows reads of them other fields
    than the entrypoint. *)
Lemma blind_get_options {B} (k : SubmitJobOptions F → M F B) :
  (∀ v o, k (set_entryPoint v o) = k o) → (∀ o, blind (k o)) →
  blind (bind get_options k).
Proof.
  intros Hk Hb v s. unfold bind, get_options. cbn [options withEntryPoint].
  rewrite Hk. apply Hb.
Qed.

(** Another field is assigned. *)
Lemma blind_modify_options (f : SubmitJobOptions F → SubmitJobOptions F) :
  (∀ v o, f (set_entryPoint v o) = set_entryPoint v (f o)) → blind (modify_options f).
Proof. intros Hf v s. unfold modify_options, withEntryPoint. simpl. by rewrite Hf. Qed.

Lemma blind_wrapFail {A} wrap (m : M F A) : blind m → blind (wrapFail wrap m).
Proof. intros Hm v s. unfold wrapFail. rewrite Hm. by destruct (m s) as [[] ?]. Qed.

Lemma blind_checkStat r a b : blind (checkStat (F:=F) r a b).
Proof.
  unfold checkStat. destruct r as [e|e|[|]]; simpl;
    first [apply blind_fail | apply blind_ret].
Qed.

End Blindness.

Ltac blind_step :=
  cbv beta;
  lazymatch goal with
  | |- blind (bind get_options _) =>
      apply blind_get_options; [intros; reflexivity | intros ?]
  | |- blind (bind _ _) => apply blind_bind; [| intros ?]
  | |- blind (ret _) => apply blind_ret
  | |- blind (fail _) => apply blind_fail
  | |- blind (lift _) => apply blind_lift
  | |- blind ask => apply blind_ask
  | |- blind (orFail _ _) => apply blind_orFail
  | |- blind (modify_options _) => apply blind_modify_options; intros; reflexivity
  | |- blind (wrapFail _ _) => apply blind_wrapFail
  | |- blind (checkStat _ _ _) => apply blind_checkStat
  | |- blind (if ?b then _ else _) => destruct b
  | |- blind (match ?x with _ => _ end) => destruct x
  end.

Section Quoting.
Context {F : Type} `{Float32 F}.
Implicit Types (s : State F).

Lemma Complete_blind : blind (Complete (F:=F)).
Proof. unfold Complete. repeat blind_step. Qed.

(** [Validate] does not look at the entrypoint. *)
Lemma Validate_blind : blind (Validate (F:=F)).
Proof.
  unfold Validate, validateRuntimeEnv, runtimeEnvHasWorkingDir, validateSubmissionMode,
    validateRuntimeEnvYAML.
  repeat blind_step.
Qed.

Lemma malformed_Some s :
  malformed s → ∃ e, snd (shlex.Split (entryPoint (options s))) = Some e.
Proof.
  unfold malformed. destruct (snd (shlex.Split (entryPoint (options s)))); [eauto|done].
Qed.

(** When the run goes as far as the tunnel that answers, with an
    entrypoint that does not tokenize, it ends at the builder: the parse
    error is returned wrapped, after the creation of the RayJob, the wait
    for its cluster and the opening of the tunnel, which is cancelled. *)
Lemma RunE_parse_error fuel s s1 sa sb sc svcName sx e :
  snd (shlex.Split (entryPoint (options s))) = Some e →
  (do Complete then Validate) s = (Ret tt, s1) →
  createRayJob s1 = (Ret tt, sa) →
  awaitClusterName fuel sa = (Ret tt, sb) →
  waitForCluster fuel sb = (Ret true, sc) →
  w_GetRayHeadSvcName (world s) = inl svcName →
  waitForPortForward fuel (logged sc (opened sc svcName)) = (Ret true, sx) →
  RunE fuel s = (Fail (Wrap "failed to create Ray submit command with error: " e),
                 logged sx [tunnelUp; EvCancel]) ∧
  ∃ rayJob evs0 evs1,
    RayJob (options s1) = Some rayJob ∧
    trace sx = trace s ++ EvCreate rayJob :: evs0 ++ opened sc svcName ++ evs1 ∧
    Forall (λ e, kindOf e ∈ readKinds) evs0 ∧
    Forall (λ e, kindOf e ∈ probeKinds) evs1.
Proof.
  intros He E1 Ea Eb Ec Hsvc Ew.
  apply bind_Ret_inv in E1 as ([] & s0 & E0 & Ev).
  pose proof (Complete_emits s _ s0 E0) as Hc.
  pose proof (Validate_emits s0 _ s1 Ev) as Hv.
  pose proof (evolves_trans _ _ _ _ Hc Hv) as H01.
  pose proof (createRayJob_emits s1 _ sa Ea) as Hca.
  pose proof (awaitClusterName_emits fuel sa _ sb Eb) as Hcb.
  pose proof (waitForCluster_emits fuel sb _ sc Ec) as Hcc.
  pose proof (waitForPortForward_emits fuel _ _ sx Ew) as Hcx.
  assert (world sc = world s) as Hw.
  { destruct H01 as (W01 & _), Hca as (Wca & _), Hcb as (Wcb & _), Hcc as (Wcc & _).
    congruence. }
  assert (entryPoint (options sx) = entryPoint (options s)) as Hep.
  { destruct H01 as (_ & E01 & _), Hca as (_ & Eca & _), Hcb as (_ & Ecb & _),
      Hcc as (_ & Ecc & _), Hcx as (_ & Ecx & _).
    unfold asGiven in *. simpl in Ecx. congruence. }
  split.
  - unfold RunE. rewrite (bind_Ret _ _ _ _ _ E0), (bind_Ret _ _ _ _ _ Ev).
    unfold Run. rewrite (bind_Ret _ _ _ _ _ Ea), (bind_Ret _ _ _ _ _ Eb),
      (bind_Ret _ _ _ _ _ Ec). cbv beta iota delta [negb].
    rewrite connectAndSubmit_eq. cbv zeta. rewrite Hw, Hsvc.
    fold (opened sc svcName). rewrite Ew. fold tunnelUp.
    destruct (submitAndAnnotate_malformed (logged sx [tunnelUp])) as (e' & He' & Es).
    { unfold malformed. simpl. rewrite Hep, He. done. }
    simpl in He'. rewrite Hep, He in He'. injection He' as <-.
    rewrite Es. cbv beta iota delta [fst snd deferred].
    by rewrite logged_logged.
  - destruct (createRayJob_Ret s1 sa Ea) as (rayJob & created & Hj & _ & _ & Hta).
    destruct Hcb as (_ & _ & evs1 & Ht1 & Hf1), Hcc as (_ & _ & evs2 & Ht2 & Hf2),
      Hcx as (_ & _ & evs3 & Ht3 & Hf3).
    exists rayJob,
      (EvPrint ("Submitted RayJob " +:+ GetName created +:+ "." +:+ nl) :: evs1 ++ evs2),
      evs3.
    split; [done|]. split; [|split].
    + rewrite Ht3. cbn [logged trace]. rewrite Ht2, Ht1, Hta, (evolves_nil _ _ H01).
      rewrite <- !app_assoc. cbn [app]. by rewrite <- !app_assoc.
    + constructor; [unfold readKinds; simpl; kind_in|]. apply Forall_app. split.
      * eapply List.Forall_impl; [|exact Hf1]. intros ev Hev. simpl in Hev.
        unfold readKinds. revert Hev. generalize (kindOf ev). kinds_subset.
      * eapply List.Forall_impl; [|exact Hf2]. intros ev Hev. simpl in Hev.
        unfold readKinds. revert Hev. generalize (kindOf ev). kinds_subset.
    + exact Hf3.
Qed.

(** C5 (amended).  For every run of the command: (1) when it has caused
    any event at all, [Complete] and [Validate] have returned without an
    error, the RayJob has the accepted submission mode and the working
    directory, given or taken from the runtime env file, is not empty, so
    that a submission mode that is missing, null or another one, and a
    missing working directory, end the run before the create call and
    before any other event; (2) [Complete] and [Validate] do not look at
    the entrypoint: with any other entrypoint they end the same way and
    leave the same state, but for the entrypoint, so that they pass one
    that does not tokenize whenever they pass one that does; (3) when the
    entrypoint does not tokenize, the run does not return without an
    error and the submission process is not started, and when the run
    goes as far as the tunnel that answers, that is when [Complete] and
    [Validate] return no error, the RayJob is created, its status names
    the cluster, the cluster is seen ready, the head service is found and
    the wait for the tunnel returns ready, then the run returns the parse
    error of the entrypoint, wrapped by the call of the builder, and its
    events are the creation of the RayJob first, then prints, fetches and
    sleeps, then the request for the head service and the opening of the
    tunnel, then prints, sleeps and probes, then the line that reports the
    tunnel, and the cancel of the tunnel last. *)
Theorem validation_precedes_create (fuel : nat) (s : State F)
  (o : Outcome unit) (s' : State F) :
  RunE fuel s = (o, s') →
  (newEvents s s' ≠ [] →
   ∃ s1 rayJob wd,
     (do Complete then Validate) s = (Ret tt, s1) ∧
     RayJob (options s1) = Some rayJob ∧ acceptedMode rayJob ∧
     wd ≠ EmptyString ∧ workingDir (options s1) = w_Clean (world s) wd) ∧
  (∀ v, (do Complete then Validate) (withEntryPoint v s)
        = (fst ((do Complete then Validate) s),
           withEntryPoint v (snd ((do Complete then Validate) s)))) ∧
  (malformed s →
   o ≠ Ret tt ∧ (∀ argv, EvStart argv ∉ newEvents s s') ∧
   ∃ e, snd (shlex.Split (entryPoint (options s))) = Some e ∧
     ∀ s1 sa sb sc svcName sx,
       (do Complete then Validate) s = (Ret tt, s1) →
       createRayJob s1 = (Ret tt, sa) →
       awaitClusterName fuel sa = (Ret tt, sb) →
       waitForCluster fuel sb = (Ret true, sc) →
       w_GetRayHeadSvcName (world s) = inl svcName →
       waitForPortForward fuel (logged sc (opened sc svcName)) = (Ret true, sx) →
       o = Fail (Wrap "failed to create Ray submit command with error: " e) ∧
       ∃ rayJob evs0 evs1,
         RayJob (options s1) = Some rayJob ∧
         newEvents s s'
         = EvCreate rayJob :: evs0 ++ opened sc svcName ++ evs1 ++ [tunnelUp; EvCancel] ∧
         Forall (λ ev, kindOf ev ∈ readKinds) evs0 ∧
         Forall (λ ev, kindOf ev ∈ probeKinds) evs1).
Proof.
  intros E. split; [|split].
  - intros Hnew. unfold RunE in E.
    apply bind_inv in E as [([] & s0 & E0 & E) | (o1 & E0 & _ & _)].
    2: { destruct Hnew. unfold newEvents.
         by rewrite (evolves_nil _ _ (Complete_emits s _ s' E0)), drop_all. }
    pose proof (Complete_emits s _ s0 E0) as Hc.
    apply bind_inv in E as [([] & s1 & E1 & E) | (o1 & E1 & _ & _)].
    2: { destruct Hnew. unfold newEvents.
         rewrite (evolves_nil _ _ (Validate_emits s0 _ s' E1)).
         by rewrite (evolves_nil _ _ Hc), drop_all. }
    destruct (Validate_Ret s0 s1 E1) as (rayJob & wd & Hj & Hm & Hwd & Hclean).
    exists s1, rayJob, wd. rewrite (bind_Ret _ _ _ _ _ E0).
    destruct Hc as (Hw & _). rewrite <- Hw. done.
  - intros v. apply (blind_bind Complete (λ _, Validate));
      [apply Complete_blind | intros _; apply Validate_blind].
  - intros Hm. destruct (RunE_never_returns fuel s o s' Hm E) as [Hret Hev].
    split; [done|]. split.
    { intros argv. apply (evolves_no_event _ _ _ _ Hev).
      unfold allBut, allKinds. simpl. by kind_not_in. }
    destruct (malformed_Some s Hm) as [e He]. exists e. split; [done|].
    intros s1 sa sb sc svcName sx E1 Ea Eb Ec Hsvc Ew.
    destruct (RunE_parse_error fuel s s1 sa sb sc svcName sx e He E1 Ea Eb Ec Hsvc Ew)
      as (Erun & rayJob & evs0 & evs1 & Hj & Ht & Hf0 & Hf1).
    rewrite Erun in E. injection E as <- <-. split; [done|].
    exists rayJob, evs0, evs1. split; [done|]. split; [|done].
    unfold newEvents. cbn [logged trace]. rewrite Ht, <- !app_assoc.
    rewrite drop_app_length. simpl. by rewrite <- !app_assoc.
Qed.

End Quoting.

(** At the inputs of the examples: a run that reaches the cluster, and
    the run with the quote that is not closed, which [Validate] passes and
    which ends at the builder. *)
Lemma validation_precedes_create_witness :
  (∃ s1 rayJob wd,
     (do Complete then Validate) (Examples.initial Examples.calm Examples.goodOptions)
       = (Ret tt, s1) ∧
     RayJob (options s1) = Some rayJob ∧ acceptedMode rayJob ∧
     wd ≠ EmptyString ∧
     workingDir (options s1) = w_Clean Examples.calm wd) ∧
  fst ((do Complete then Validate) (Examples.initial Examples.calm Examples.unclosedQuote))
    = Ret tt ∧
  fst (RunE 61 (Examples.initial Examples.calm Examples.unclosedQuote))
    = Fail (Wrap "failed to create Ray submit command with error: "
              (New "EOF found when expecting closing quote")) ∧
  (∀ argv, EvStart argv
           ∉ newEvents (Examples.initial Examples.calm Examples.unclosedQuote)
               (snd (RunE 61 (Examples.initial Examples.calm Examples.unclosedQuote)))).
Proof.
  pose (good := Examples.initial Examples.calm Examples.goodOptions).
  pose (bad := Examples.initial Examples.calm Examples.unclosedQuote).
  split; [|split; [|split]].
  - destruct (validation_precedes_create 61 good (fst (RunE 61 good)) (snd (RunE 61 good)))
      as [Hvalid _]; [apply surjective_pairing|].
    apply Hvalid. vm_compute. discriminate.
  - destruct (validation_precedes_create 61 good (fst (RunE 61 good)) (snd (RunE 61 good)))
      as (_ & Hblind & _); [apply surjective_pairing|].
    change (Examples.initial Examples.calm Examples.unclosedQuote)
      with (withEntryPoint "python 'my script.py" good).
    rewrite (Hblind "python 'my script.py"). vm_compute. reflexivity.
  - destruct (validation_precedes_create 61 bad (fst (RunE 61 bad)) (snd (RunE 61 bad)))
      as (_ & _ & Hquote); [apply surjective_pairing|].
    destruct Hquote as (_ & _ & e & He & Hbuild); [vm_compute; discriminate|].
    vm_compute in He. injection He as <-.
    pose (s1 := snd ((do Complete then Validate) bad)).
    pose (sa := snd (createRayJob s1)).
    pose (sb := snd (awaitClusterName 61 sa)).
    pose (sc := snd (waitForCluster 61 sb)).
    pose (sx := snd (waitForPortForward 61
                       (logged sc (opened sc "raycluster-sample-head-svc")))).
    destruct (Hbuild s1 sa sb sc "raycluster-sample-head-svc" sx) as [Ho _];
      [vm_compute; reflexivity..|].
    exact Ho.
  - destruct (validation_precedes_create 61 bad (fst (RunE 61 bad)) (snd (RunE 61 bad)))
      as (_ & _ & Hquote); [apply surjective_pairing|].
    apply Hquote. vm_compute. discriminate.
Defined.
